(** * The rendering service of threejs-angular

    A shallow embedding of [src/app/services/engine.service.ts] (class
    [EngineService]) and of the [ngOnInit] of the two components that drive
    it, together with the part of the browser and of three.js the service
    talks to: the DOM elements and their listeners, the animation-frame
    queue, the pending asset loads, and a heap of [Object3D] and material
    objects that the service, the scene graph and the event closures share
    by reference.

    JavaScript numbers are binary64 floats ([PrimFloat]); a method is a
    computation in a state monad whose result is either a normal completion
    or a thrown error, the state reached so far being kept in both cases. *)

From Stdlib Require Import ZArith Floats Bool Lia.
From stdpp Require Import base list strings.

Set Warnings "-inexact-float,-register-all".
Local Open Scope float_scope.

(** ** JavaScript numbers *)

Module JsNum.

(** [Math.PI]. *)
Definition PI : float := 0x1.921fb54442d18p+1.

(** The [%] operator on numbers: the remainder of the truncated division,
    computed exactly; it takes the sign of the dividend. *)
Definition rem (x y : float) : float :=
  match Prim2SF x, Prim2SF y with
  | S754_nan, _ | _, S754_nan => nan
  | S754_infinity _, _ => nan
  | _, S754_zero _ => nan
  | S754_zero _, _ => x
  | _, S754_infinity _ => x
  | S754_finite sx mx ex, S754_finite _ my ey =>
      let e := Z.min ex ey in
      let X := (Z.pos mx * 2 ^ (ex - e))%Z in
      let Y := (Z.pos my * 2 ^ (ey - e))%Z in
      let R := (X mod Y)%Z in
      SF2Prim (binary_normalize prec emax (if sx then - R else R)%Z e sx)
  end.

(** [x !== 0]. *)
Definition nonzero (x : float) : Prop := (x =? 0) = false.

(** [0 <= x]. *)
Definition nonneg (x : float) : Prop := (0 <=? x) = true.

End JsNum.

(** ** Completions and the method monad *)

(** A reference to an object of a heap: its index there. *)
Abbreviation ref := nat.

Inductive JsError : Type :=
| TypeError (what : string)      (* a property access on null or undefined *)
| Dangling (r : ref).            (* a reference outside the heap: no
                                    JavaScript program produces one *)

Inductive Completion (A : Type) : Type :=
| Normal (a : A)
| Throw (e : JsError).
Arguments Normal {A} a.
Arguments Throw {A} e.

Section Monad.
Context {S : Type}.

Definition M (A : Type) : Type := S -> Completion A * S.

Definition ret {A} (a : A) : M A := fun s => (Normal a, s).

Definition bind {A B} (m : M A) (k : A -> M B) : M B :=
  fun s => match m s with
           | (Normal a, s') => k a s'
           | (Throw e, s') => (Throw e, s')
           end.

Definition throw {A} (e : JsError) : M A := fun s => (Throw e, s).
Definition gets {A} (f : S -> A) : M A := fun s => (Normal (f s), s).
Definition modify (f : S -> S) : M unit := fun s => (Normal tt, f s).

(** Reading a property of a value that may be null or undefined. *)
Definition deref {A} (what : string) (o : option A) : M A :=
  match o with
  | Some a => ret a
  | None => throw (TypeError what)
  end.

(** A [for] loop over the elements of an array that the body leaves alone. *)
Fixpoint for_each {A} (body : A -> M unit) (l : list A) : M unit :=
  match l with
  | [] => ret tt
  | a :: l' => bind (body a) (fun _ => for_each body l')
  end.
End Monad.
Arguments M : clear implicits.

Notation "'let*' x ':=' m 'in' k" := (bind m (fun x => k))
  (at level 10, x name, m at level 100, k at level 200, only parsing).
Notation "m ;;; k" := (bind m (fun _ => k))
  (at level 100, k at level 200, right associativity, only parsing).

Definition completed {A S} (r : Completion A * S) : bool :=
  match fst r with Normal _ => true | Throw _ => false end.

(** ** The part of three.js the service uses

    three.js is a dependency, not a file of the repository: its classes are
    modelled at the level of the calls the service makes, with the fields
    those calls read and write. *)

Module Three.

(** A colour is identified with its 24-bit hexadecimal value, as in the
    constructor parameters ([0xff0000]); the value of a colour input is
    the same colour, written [#rrggbb]. *)
Definition Color := Z.

(** A texture is identified with the image it is loaded from. *)
Definition Texture := string.

Inductive MaterialType := MeshPhysicalMaterial | MeshStandardMaterial | MeshBasicMaterial.
Inductive Blending := NormalBlending | MultiplyBlending.

Record Material := mkMaterial {
  mtype : MaterialType;
  color : Color;
  metalness : float;
  roughness : float;
  clearcoat : float;
  clearcoatRoughness : float;
  transmission : float;
  transparent : bool;
  map_tex : option Texture;
  blending : Blending;
  toneMapped : bool
}.

(** [material.color.set(v)]. *)
Definition set_color (v : Color) (m : Material) : Material :=
  mkMaterial (mtype m) v (metalness m) (roughness m) (clearcoat m)
    (clearcoatRoughness m) (transmission m) (transparent m) (map_tex m)
    (blending m) (toneMapped m).

(** What a material holds for the parameters its constructor is not given. *)
Definition default_material (t : MaterialType) : Material :=
  mkMaterial t 0xffffff%Z 0 1 0 0 0 false None NormalBlending true.

Inductive Geometry :=
| PlaneGeometry (w h : float)
| GridGeometry (size : float) (divisions : Z) (color1 color2 : Color).

(** An [Object3D], with the components of its transform that the service
    writes ([rotation.x], [position.z]). A mesh is an object that has a
    material and a geometry; [material] is a plain property, so the
    assignment [o.material = m] is possible on every object. *)
Record Object3D := mkObject3D {
  name : string;
  parent : option ref;
  children : list ref;
  material : option ref;
  geometry : option Geometry;
  rotation_x : float;
  position_z : float;
  renderOrder : Z
}.

Definition new_Object3D (nm : string) : Object3D :=
  mkObject3D nm None [] None None 0 0 0%Z.

Definition set_parent (p : option ref) (o : Object3D) : Object3D :=
  mkObject3D (name o) p (children o) (material o) (geometry o)
    (rotation_x o) (position_z o) (renderOrder o).
Definition set_children (c : list ref) (o : Object3D) : Object3D :=
  mkObject3D (name o) (parent o) c (material o) (geometry o)
    (rotation_x o) (position_z o) (renderOrder o).
Definition set_material (m : option ref) (o : Object3D) : Object3D :=
  mkObject3D (name o) (parent o) (children o) m (geometry o)
    (rotation_x o) (position_z o) (renderOrder o).
Definition set_geometry (g : option Geometry) (o : Object3D) : Object3D :=
  mkObject3D (name o) (parent o) (children o) (material o) g
    (rotation_x o) (position_z o) (renderOrder o).
Definition set_rotation_x (x : float) (o : Object3D) : Object3D :=
  mkObject3D (name o) (parent o) (children o) (material o) (geometry o)
    x (position_z o) (renderOrder o).
Definition set_position_z (z : float) (o : Object3D) : Object3D :=
  mkObject3D (name o) (parent o) (children o) (material o) (geometry o)
    (rotation_x o) z (renderOrder o).
Definition set_renderOrder (n : Z) (o : Object3D) : Object3D :=
  mkObject3D (name o) (parent o) (children o) (material o) (geometry o)
    (rotation_x o) (position_z o) n.

(** The first defined result of [f] over an array, in order. *)
Fixpoint first_found {A B} (f : A -> option B) (l : list A) : option B :=
  match l with
  | [] => None
  | a :: l' => match f a with
               | Some b => Some b
               | None => first_found f l'
               end
  end.

(** [Object3D.getObjectByName]: the receiver if it has the name, else the
    first hit of the same search in its children, in order; [None] is
    [undefined]. The recursion is bounded by the depth [fuel]. *)
Fixpoint getObjectByName_rec (fuel : nat) (h : list Object3D) (nm : string)
    (r : ref) : option ref :=
  match fuel with
  | O => None
  | S fuel' =>
      match h !! r with
      | None => None
      | Some o =>
          if String.eqb (name o) nm then Some r
          else first_found (getObjectByName_rec fuel' h nm) (children o)
      end
  end.

(** No object of a heap of [n] objects without cycles lies deeper than [n]. *)
Definition getObjectByName (h : list Object3D) (r : ref) (nm : string) : option ref :=
  getObjectByName_rec (length h) h nm r.

Record Vector3 := mkVector3 { vx : float; vy : float; vz : float }.

(** The projection matrix, identified with the parameters it was last
    computed from. *)
Record Projection := mkProjection {
  p_fov : float; p_aspect : float; p_near : float; p_far : float
}.

Record PerspectiveCamera := mkCamera {
  fov : float;
  aspect : float;
  near : float;
  far : float;
  position : Vector3;
  lookAt : option Vector3;       (* the point the camera was last turned to *)
  projectionMatrix : Projection
}.

Definition updateProjectionMatrix (c : PerspectiveCamera) : PerspectiveCamera :=
  mkCamera (fov c) (aspect c) (near c) (far c) (position c) (lookAt c)
    (mkProjection (fov c) (aspect c) (near c) (far c)).

Definition new_PerspectiveCamera (fov aspect near far : float) : PerspectiveCamera :=
  updateProjectionMatrix
    (mkCamera fov aspect near far (mkVector3 0 0 0) None (mkProjection 0 0 0 0)).

Definition set_aspect (a : float) (c : PerspectiveCamera) : PerspectiveCamera :=
  mkCamera (fov c) a (near c) (far c) (position c) (lookAt c) (projectionMatrix c).
Definition set_position (p : Vector3) (c : PerspectiveCamera) : PerspectiveCamera :=
  mkCamera (fov c) (aspect c) (near c) (far c) p (lookAt c) (projectionMatrix c).
Definition set_lookAt (p : Vector3) (c : PerspectiveCamera) : PerspectiveCamera :=
  mkCamera (fov c) (aspect c) (near c) (far c) (position c) (Some p) (projectionMatrix c).

(** The canvas element, with the size of its drawing buffer. *)
Record HTMLCanvasElement := mkCanvas {
  cv_id : string; cv_width : float; cv_height : float
}.

Inductive Encoding := LinearEncoding | sRGBEncoding.
Inductive ToneMapping := NoToneMapping | ACESFilmicToneMapping.

Record WebGLRenderer := mkRenderer {
  r_canvas : HTMLCanvasElement;
  r_alpha : bool;
  r_antialias : bool;
  pixelRatio : float;
  r_width : float;                (* the output size, as [getSize] reports it *)
  r_height : float;
  outputEncoding : Encoding;
  toneMapping : ToneMapping;
  toneMappingExposure : float
}.

Definition new_WebGLRenderer (cv : HTMLCanvasElement) (alpha antialias : bool)
    : WebGLRenderer :=
  mkRenderer cv alpha antialias 1 (cv_width cv) (cv_height cv)
    LinearEncoding NoToneMapping 1.

Definition setPixelRatio (p : float) (r : WebGLRenderer) : WebGLRenderer :=
  mkRenderer (r_canvas r) (r_alpha r) (r_antialias r) p (r_width r) (r_height r)
    (outputEncoding r) (toneMapping r) (toneMappingExposure r).
Definition setSize (w h : float) (r : WebGLRenderer) : WebGLRenderer :=
  mkRenderer (r_canvas r) (r_alpha r) (r_antialias r) (pixelRatio r) w h
    (outputEncoding r) (toneMapping r) (toneMappingExposure r).
Definition set_outputEncoding (e : Encoding) (r : WebGLRenderer) : WebGLRenderer :=
  mkRenderer (r_canvas r) (r_alpha r) (r_antialias r) (pixelRatio r) (r_width r)
    (r_height r) e (toneMapping r) (toneMappingExposure r).
Definition set_toneMapping (t : ToneMapping) (r : WebGLRenderer) : WebGLRenderer :=
  mkRenderer (r_canvas r) (r_alpha r) (r_antialias r) (pixelRatio r) (r_width r)
    (r_height r) (outputEncoding r) t (toneMappingExposure r).
Definition set_toneMappingExposure (x : float) (r : WebGLRenderer) : WebGLRenderer :=
  mkRenderer (r_canvas r) (r_alpha r) (r_antialias r) (pixelRatio r) (r_width r)
    (r_height r) (outputEncoding r) (toneMapping r) x.

Record OrbitControls := mkControls { oc_target : Vector3 }.

Record Fog := mkFog { fog_color : Color; fog_near : float; fog_far : float }.

(** The texture of [PMREMGenerator.fromScene(new RoomEnvironment())]. *)
Inductive EnvironmentMap := RoomEnvironmentMap.

(** A scene: an [Object3D] of the heap (for its children) and the fields
    of its own. *)
Record Scene := mkScene {
  scene_obj : ref;
  background : option Color;
  environment : option EnvironmentMap;
  fog : option Fog
}.

(** The node hierarchy of a parsed glTF file: a name, the material the
    file gives a mesh, the child nodes. *)
Inductive GltfNode := Node (nm : string) (mat : option Material) (kids : list GltfNode).

End Three.
Import Three.

(** ** The browser and the state of the program *)

Inductive ReadyState := Loading | Interactive | Complete.

Inductive EventTarget := Window | Element (id : string).

(** The closures the service hands to the browser. Each one is known by the
    place that creates it and by what it captures; [this] is the one
    service of the application. *)
Inductive Handler :=
| SetMaterialColor (m : ref)   (* function (e) { m.color.set(e.target.value) } *)
| CallRender                   (* () => { this.render() } *)
| CallResize.                  (* () => { this.resize() } *)

Record Listener := mkListener {
  l_target : EventTarget;
  l_type : string;
  l_handler : Handler
}.

(** A [GLTFLoader.load] whose file has not arrived: the url and what the
    completion callback of [createScene] captures. *)
Record LoadRequest := mkLoadRequest {
  lr_url : string;
  lr_bodyMaterial : ref;
  lr_detailsMaterial : ref;
  lr_glassMaterial : ref;
  lr_shadow : Texture
}.

(** One [renderer.render(scene, camera)]: the scene, its children at that
    moment and the camera. *)
Record Draw := mkDraw {
  d_scene : Scene;
  d_children : list ref;
  d_camera : PerspectiveCamera
}.

Record Browser := mkBrowser {
  dom : list string;                    (* the ids of the elements of the document *)
  readyState : ReadyState;
  innerWidth : float;
  innerHeight : float;
  devicePixelRatio : float;
  clock : float;                        (* performance.now(), in milliseconds *)
  listeners : list Listener;            (* in the order they were added *)
  raf_queue : list (nat * Handler);     (* the animation frame callbacks, by handle *)
  raf_next : nat;                       (* the next handle *)
  loads : list LoadRequest;
  draws : list Draw;                    (* the draw calls, the latest first *)
  uncaught : list JsError               (* errors that reached the event loop *)
}.

(** The fields of [EngineService]. [wheels] holds what [getObjectByName]
    returned, which may be [undefined]; [frameId] starts as [null]. *)
Record EngineService := mkService {
  canvas : option HTMLCanvasElement;
  renderer : option WebGLRenderer;
  camera : option PerspectiveCamera;
  scene : option Scene;
  controls : option OrbitControls;
  grid : option ref;
  wheels : list (option ref);
  frameId : option nat
}.

(** The service as its constructor leaves it. *)
Definition new_EngineService : EngineService :=
  mkService None None None None None None [] None.

Record State := mkState {
  svc : EngineService;
  objects : list Object3D;              (* the heap of Object3D, by reference *)
  materials : list Material;            (* the heap of materials, by reference *)
  env : Browser;
  render_calls : nat                    (* how often render() was entered *)
}.

Definition with_svc (f : EngineService -> EngineService) (s : State) : State :=
  mkState (f (svc s)) (objects s) (materials s) (env s) (render_calls s).
Definition with_objects (f : list Object3D -> list Object3D) (s : State) : State :=
  mkState (svc s) (f (objects s)) (materials s) (env s) (render_calls s).
Definition with_materials (f : list Material -> list Material) (s : State) : State :=
  mkState (svc s) (objects s) (f (materials s)) (env s) (render_calls s).
Definition with_env (f : Browser -> Browser) (s : State) : State :=
  mkState (svc s) (objects s) (materials s) (f (env s)) (render_calls s).
Definition count_render (s : State) : State :=
  mkState (svc s) (objects s) (materials s) (env s) (S (render_calls s)).

Definition set_canvas v (e : EngineService) :=
  mkService v (renderer e) (camera e) (scene e) (controls e) (grid e) (wheels e) (frameId e).
Definition set_renderer v (e : EngineService) :=
  mkService (canvas e) v (camera e) (scene e) (controls e) (grid e) (wheels e) (frameId e).
Definition set_camera v (e : EngineService) :=
  mkService (canvas e) (renderer e) v (scene e) (controls e) (grid e) (wheels e) (frameId e).
Definition set_scene v (e : EngineService) :=
  mkService (canvas e) (renderer e) (camera e) v (controls e) (grid e) (wheels e) (frameId e).
Definition set_controls v (e : EngineService) :=
  mkService (canvas e) (renderer e) (camera e) (scene e) v (grid e) (wheels e) (frameId e).
Definition set_grid v (e : EngineService) :=
  mkService (canvas e) (renderer e) (camera e) (scene e) (controls e) v (wheels e) (frameId e).
Definition set_wheels v (e : EngineService) :=
  mkService (canvas e) (renderer e) (camera e) (scene e) (controls e) (grid e) v (frameId e).
Definition set_frameId v (e : EngineService) :=
  mkService (canvas e) (renderer e) (camera e) (scene e) (controls e) (grid e) (wheels e) v.

Definition set_readyState v (b : Browser) :=
  mkBrowser (dom b) v (innerWidth b) (innerHeight b) (devicePixelRatio b) (clock b)
    (listeners b) (raf_queue b) (raf_next b) (loads b) (draws b) (uncaught b).
Definition set_inner (w h : float) (b : Browser) :=
  mkBrowser (dom b) (readyState b) w h (devicePixelRatio b) (clock b)
    (listeners b) (raf_queue b) (raf_next b) (loads b) (draws b) (uncaught b).
Definition set_clock v (b : Browser) :=
  mkBrowser (dom b) (readyState b) (innerWidth b) (innerHeight b) (devicePixelRatio b) v
    (listeners b) (raf_queue b) (raf_next b) (loads b) (draws b) (uncaught b).
Definition set_listeners v (b : Browser) :=
  mkBrowser (dom b) (readyState b) (innerWidth b) (innerHeight b) (devicePixelRatio b) (clock b)
    v (raf_queue b) (raf_next b) (loads b) (draws b) (uncaught b).
Definition set_raf (q : list (nat * Handler)) (n : nat) (b : Browser) :=
  mkBrowser (dom b) (readyState b) (innerWidth b) (innerHeight b) (devicePixelRatio b) (clock b)
    (listeners b) q n (loads b) (draws b) (uncaught b).
Definition set_loads v (b : Browser) :=
  mkBrowser (dom b) (readyState b) (innerWidth b) (innerHeight b) (devicePixelRatio b) (clock b)
    (listeners b) (raf_queue b) (raf_next b) v (draws b) (uncaught b).
Definition set_draws v (b : Browser) :=
  mkBrowser (dom b) (readyState b) (innerWidth b) (innerHeight b) (devicePixelRatio b) (clock b)
    (listeners b) (raf_queue b) (raf_next b) (loads b) v (uncaught b).
Definition set_uncaught v (b : Browser) :=
  mkBrowser (dom b) (readyState b) (innerWidth b) (innerHeight b) (devicePixelRatio b) (clock b)
    (listeners b) (raf_queue b) (raf_next b) (loads b) (draws b) v.

(** *** Heap operations *)

(** [new]: the object goes to the end of the heap; its reference is its index. *)
Definition alloc_object (o : Object3D) : M State ref :=
  fun s => (Normal (length (objects s)), with_objects (fun h => h ++ [o]) s).

Definition alloc_material (m : Material) : M State ref :=
  fun s => (Normal (length (materials s)), with_materials (fun h => h ++ [m]) s).

Definition read_object (r : ref) : M State Object3D :=
  fun s => match objects s !! r with
           | Some o => (Normal o, s)
           | None => (Throw (Dangling r), s)
           end.

(** A write to a field of the object [r]. *)
Definition update_object (r : ref) (f : Object3D -> Object3D) : M State unit :=
  let* o := read_object r in
  modify (with_objects (fun h => <[r := f o]> h)).

Definition update_material (r : ref) (f : Material -> Material) : M State unit :=
  fun s => match materials s !! r with
           | Some m => (Normal tt, with_materials (fun h => <[r := f m]> h) s)
           | None => (Throw (Dangling r), s)
           end.

(** [parent.add(child)] of [Object3D]: the child leaves the parent it has,
    if any, and goes to the end of the children of the new one. *)
Definition remove_child (child : ref) (o : Object3D) : Object3D :=
  set_children (filter (fun c => c <> child) (children o)) o.

Definition Object3D_add (par child : ref) : M State unit :=
  let* c := read_object child in
  match parent c with
  | Some old => update_object old (remove_child child)
  | None => ret tt
  end ;;;
  update_object child (set_parent (Some par)) ;;;
  update_object par (fun o => set_children (children o ++ [child]) o).

(** What [GLTFLoader] builds of a node: the object, then the objects of its
    child nodes, in order. *)
Fixpoint build_node (par : option ref) (n : GltfNode) : M State ref :=
  match n with
  | Node nm mat kids =>
      let* m := match mat with
                | Some m => let* r := alloc_material m in ret (Some r)
                | None => ret None
                end in
      let* r := alloc_object (set_material m (set_parent par (new_Object3D nm))) in
      let* cs := (fix build_kids (l : list GltfNode) : M State (list ref) :=
                    match l with
                    | [] => ret []
                    | k :: l' =>
                        let* c := build_node (Some r) k in
                        let* cs := build_kids l' in
                        ret (c :: cs)
                    end) kids in
      update_object r (set_children cs) ;;;
      ret r
  end.

(** *** Browser operations *)

Definition getElementById (id : string) : M State (option EventTarget) :=
  gets (fun s => if bool_decide (id ∈ dom (env s)) then Some (Element id) else None).

Definition addEventListener (t : EventTarget) (type : string) (h : Handler) : M State unit :=
  modify (with_env (fun b => set_listeners (listeners b ++ [mkListener t type h]) b)).

Definition requestAnimationFrame (h : Handler) : M State nat :=
  fun s => let b := env s in
           (Normal (raf_next b),
            with_env (set_raf (raf_queue b ++ [(raf_next b, h)]) (S (raf_next b))) s).

Definition cancelAnimationFrame (id : nat) : M State unit :=
  modify (with_env (fun b =>
    set_raf (filter (fun c => fst c <> id) (raf_queue b)) (raf_next b) b)).

(** [renderer.render(scene, camera)], as far as the program can tell: the
    draw call is recorded. *)
Definition renderer_render (sc : Scene) (cam : PerspectiveCamera) : M State unit :=
  let* o := read_object (scene_obj sc) in
  modify (with_env (fun b => set_draws (mkDraw sc (children o) cam :: draws b) b)).

(** ** The service: [engine.service.ts] *)

Record ElementRef := mkElementRef { nativeElement : HTMLCanvasElement }.

Definition the_svc {A} (f : EngineService -> A) : M State A := gets (fun s => f (svc s)).
Definition the_env {A} (f : Browser -> A) : M State A := gets (fun s => f (env s)).

(** [target.addEventListener(type, h)] on what [getElementById] returned. *)
Definition listen (what : string) (t : option EventTarget) (type : string) (h : Handler)
    : M State unit :=
  let* t := deref what t in addEventListener t type h.

(** [root.getObjectByName(nm)] *)
Definition byName (root : ref) (nm : string) : M State (option ref) :=
  gets (fun s => getObjectByName (objects s) root nm).

(** [(<THREE.Mesh>o).material = m] *)
Definition assign_material (what : string) (o : option ref) (m : ref) : M State unit :=
  let* r := deref what o in update_object r (set_material (Some m)).

(** The completion callback that [createScene] gives [loader.load]. *)
Definition onLoad (rq : LoadRequest) (gltf_scene : ref) : M State unit :=
  let* g := read_object gltf_scene in
  let* carModel := deref "carModel" (children g !! 0%nat) in
  let* o := byName carModel "body" in
  assign_material "body" o (lr_bodyMaterial rq) ;;;
  let* o := byName carModel "rim_fl" in
  assign_material "rim_fl" o (lr_detailsMaterial rq) ;;;
  let* o := byName carModel "rim_fr" in
  assign_material "rim_fr" o (lr_detailsMaterial rq) ;;;
  let* o := byName carModel "rim_rl" in
  assign_material "rim_rl" o (lr_detailsMaterial rq) ;;;
  let* o := byName carModel "rim_rr" in
  assign_material "rim_rr" o (lr_detailsMaterial rq) ;;;
  let* o := byName carModel "glass" in
  assign_material "glass" o (lr_glassMaterial rq) ;;;

  let* w_fl := byName carModel "wheel_fl" in
  let* w_fr := byName carModel "wheel_fr" in
  let* w_rl := byName carModel "wheel_rl" in
  let* w_rr := byName carModel "wheel_rr" in
  modify (with_svc (fun e => set_wheels (wheels e ++ [w_fl; w_fr; w_rl; w_rr]) e)) ;;;

  (* shadow *)
  let* mat := alloc_material
    (mkMaterial MeshBasicMaterial 0xffffff%Z 0 1 0 0 0
       true (Some (lr_shadow rq)) MultiplyBlending false) in
  let* mesh := alloc_object
    (set_geometry (Some (PlaneGeometry (0.655 * 4) (1.3 * 4)))
       (set_material (Some mat) (new_Object3D ""))) in
  update_object mesh (set_rotation_x ((- JsNum.PI) / 2)) ;;;
  update_object mesh (set_renderOrder 2%Z) ;;;
  Object3D_add carModel mesh ;;;
  let* sc := the_svc scene in
  let* sc := deref "this.scene" sc in
  Object3D_add (scene_obj sc) carModel.

Definition createScene (canvas : ElementRef) : M State unit :=
  let* bodyMaterial := alloc_material
    (mkMaterial MeshPhysicalMaterial 0xff0000%Z 0.6 0.4 0.05 0.05 0
       false None NormalBlending true) in
  let* detailsMaterial := alloc_material
    (mkMaterial MeshStandardMaterial 0xffffff%Z 1.0 0.5 0 0 0
       false None NormalBlending true) in
  let* glassMaterial := alloc_material
    (mkMaterial MeshPhysicalMaterial 0xffffff%Z 0 0.1 0 0 0.9
       true None NormalBlending true) in

  let* bodyColorInput := getElementById "body-color" in
  listen "bodyColorInput" bodyColorInput "change" (SetMaterialColor bodyMaterial) ;;;
  let* detailsColorInput := getElementById "details-color" in
  listen "detailsColorInput" detailsColorInput "input" (SetMaterialColor detailsMaterial) ;;;
  let* glassColorInput := getElementById "glass-color" in
  listen "glassColorInput" glassColorInput "input" (SetMaterialColor glassMaterial) ;;;

  modify (with_svc (set_canvas (Some (nativeElement canvas)))) ;;;

  let* dpr := the_env devicePixelRatio in
  let* w := the_env innerWidth in
  let* h := the_env innerHeight in
  modify (with_svc (set_renderer (Some
    (set_toneMappingExposure 0.85
      (set_toneMapping ACESFilmicToneMapping
        (set_outputEncoding sRGBEncoding
          (setSize w h
            (setPixelRatio dpr
              (new_WebGLRenderer (nativeElement canvas) true true))))))))) ;;;

  (* camera *)
  modify (with_svc (set_camera (Some
    (set_position (mkVector3 4.25 1.4 (-4.5))
      (new_PerspectiveCamera 40 (w / h) 0.1 100))))) ;;;

  (* controls *)
  modify (with_svc (fun e =>
    set_controls (Some (mkControls (mkVector3 0 0.5 0)))
      (set_camera (option_map (set_lookAt (mkVector3 0 0.5 0)) (camera e)) e))) ;;;

  (* create the scene *)
  let* so := alloc_object (new_Object3D "") in
  modify (with_svc (set_scene (Some
    (mkScene so (Some 0xeeeeee%Z) (Some RoomEnvironmentMap)
       (Some (mkFog 0xeeeeee%Z 10 50)))))) ;;;

  (* grid *)
  let* g := alloc_object
    (set_geometry (Some (GridGeometry 100 40 0x000000%Z 0x000000%Z)) (new_Object3D "")) in
  modify (with_svc (set_grid (Some g))) ;;;
  Object3D_add so g ;;;

  (* car *)
  modify (with_env (fun b => set_loads
    (loads b ++ [mkLoadRequest "assets/gltf/ferrari.glb"
                   bodyMaterial detailsMaterial glassMaterial
                   "assets/gltf/ferrari_ao.png"]) b)).

(** The body of the loop of [render]: [this.wheels[i].rotation.x = x]. *)
Definition rotate_wheel (x : float) (w : option ref) : M State unit :=
  let* r := deref "this.wheels[i]" w in
  update_object r (set_rotation_x x).

Definition render : M State unit :=
  modify count_render ;;;
  let* now := the_env clock in
  let time := (- now) / 1000 in
  let* ws := the_svc wheels in
  for_each (rotate_wheel (time * JsNum.PI)) ws ;;;
  let* g := the_svc grid in
  let* g := deref "this.grid" g in
  update_object g (set_position_z (JsNum.rem (- time) 5)) ;;;

  let* id := requestAnimationFrame CallRender in
  modify (with_svc (set_frameId (Some id))) ;;;

  let* r := the_svc renderer in
  let* _ := deref "this.renderer" r in
  let* sc := the_svc scene in
  let* sc := deref "this.scene" sc in
  let* cam := the_svc camera in
  let* cam := deref "this.camera" cam in
  renderer_render sc cam.

Definition resize : M State unit :=
  let* width := the_env innerWidth in
  let* height := the_env innerHeight in

  let* cam := the_svc camera in
  let* cam := deref "this.camera" cam in
  modify (with_svc (set_camera (Some
    (updateProjectionMatrix (set_aspect (width / height) cam))))) ;;;

  let* r := the_svc renderer in
  let* r := deref "this.renderer" r in
  modify (with_svc (set_renderer (Some (setSize width height r)))).

Definition animate : M State unit :=
  let* rs := the_env readyState in
  match rs with
  | Loading => addEventListener Window "DOMContentLoaded" CallRender
  | _ => render
  end ;;;
  addEventListener Window "resize" CallResize.

Definition ngOnDestroy : M State unit :=
  let* f := the_svc frameId in
  match f with
  | Some id => cancelAnimationFrame id
  | None => ret tt
  end.

(** ** The components: [car.component.ts], [cube.component.ts] *)

Definition ngOnInit (rendererCanvas : ElementRef) : M State unit :=
  createScene rendererCanvas ;;;
  animate.

(** ** The event loop *)

(** What the browser and the framework do to the program, one task at a
    time. *)
Inductive Event :=
| ComponentInit (rendererCanvas : ElementRef)   (* a component is created: ngOnInit *)
| ServiceDestroy                                (* the injector is destroyed: ngOnDestroy *)
| Tick (now : float)                            (* time passes *)
| AnimationFrame                                (* a display refresh *)
| WindowResize (w h : float)
| DOMContentLoaded
| InputEvent (id type : string) (value : option Color)  (* an event on an element *)
| GltfLoaded (i : nat) (gltf : GltfNode).       (* the file of the i-th pending load arrives *)

(** A task that throws ends there; the error goes to the console and the
    loop goes on. *)
Definition task (m : M State unit) (s : State) : State :=
  match m s with
  | (Normal _, s') => s'
  | (Throw e, s') => with_env (fun b => set_uncaught (e :: uncaught b) b) s'
  end.

(** The call of a closure with the event [e], of which [e.target.value]
    is read. *)
Definition call (value : option Color) (h : Handler) : M State unit :=
  match h with
  | SetMaterialColor m =>
      match value with
      | Some v => update_material m (set_color v)
      | None => ret tt
      end
  | CallRender => render
  | CallResize => resize
  end.

Definition EventTarget_eqb (a b : EventTarget) : bool :=
  match a, b with
  | Window, Window => true
  | Element x, Element y => String.eqb x y
  | _, _ => false
  end.

Definition listens (t : EventTarget) (type : string) (l : Listener) : bool :=
  EventTarget_eqb (l_target l) t && String.eqb (l_type l) type.

(** The listeners of the target for the type run in the order they were
    added. *)
Definition dispatch (t : EventTarget) (type : string) (value : option Color)
    (s : State) : State :=
  fold_left (fun s l => task (call value (l_handler l)) s)
    (List.filter (listens t type) (listeners (env s))) s.

Definition remove_nth {A} (i : nat) (l : list A) : list A := take i l ++ drop (S i) l.

Definition step (e : Event) (s : State) : State :=
  match e with
  | ComponentInit cv => task (ngOnInit cv) s
  | ServiceDestroy => task ngOnDestroy s
  | Tick now =>
      if clock (env s) <=? now then with_env (set_clock now) s else s
  | AnimationFrame =>
      let q := raf_queue (env s) in
      fold_left (fun s c => task (call None (snd c)) s) q
        (with_env (fun b => set_raf [] (raf_next b) b) s)
  | WindowResize w h =>
      dispatch Window "resize" None (with_env (set_inner w h) s)
  | DOMContentLoaded =>
      match readyState (env s) with
      | Loading => dispatch Window "DOMContentLoaded" None
                     (with_env (set_readyState Interactive) s)
      | _ => s
      end
  | InputEvent id type value => dispatch (Element id) type value s
  | GltfLoaded i gltf =>
      match loads (env s) !! i with
      | Some rq =>
          task (let* g := build_node None gltf in onLoad rq g)
            (with_env (fun b => set_loads (remove_nth i (loads b)) b) s)
      | None => s
      end
  end.

Definition run (evs : list Event) (s : State) : State := fold_left (fun s e => step e s) evs s.

(** A page that has just been opened, and the program before anything ran. *)
Definition new_page (ids : list string) (rs : ReadyState) (w h dpr now : float) : Browser :=
  mkBrowser ids rs w h dpr now [] [] 1 [] [] [].

Definition boot (page : Browser) : State := mkState new_EngineService [] [] page 0.

(** ** A sample page and a sample model *)

Definition sample_page : Browser :=
  new_page ["rendererCanvas"; "body-color"; "details-color"; "glass-color"]
    Complete 800 600 1 0.

Definition sample_canvas : ElementRef := mkElementRef (mkCanvas "rendererCanvas" 300 150).

Definition mesh_node (nm : string) (c : Color) : GltfNode :=
  Node nm (Some (set_color c (default_material MeshStandardMaterial))) [].

(** A model with the nodes [createScene] looks for: the car is the first
    child of the scene of the file. *)
Definition ferrari : GltfNode :=
  Node "Scene" None
    [Node "RootNode" None
       [Node "main" None
          [mesh_node "body" 0x111111%Z; mesh_node "glass" 0x222222%Z;
           mesh_node "trim" 0x333333%Z];
        Node "wheel_fl" None [mesh_node "rim_fl" 0x444444%Z; mesh_node "tire_fl" 0%Z];
        Node "wheel_fr" None [mesh_node "rim_fr" 0x444444%Z; mesh_node "tire_fr" 0%Z];
        Node "wheel_rl" None [mesh_node "rim_rl" 0x444444%Z; mesh_node "tire_rl" 0%Z];
        Node "wheel_rr" None [mesh_node "rim_rr" 0x444444%Z; mesh_node "tire_rr" 0%Z]]].

(** ** Notions the statements use *)

(** An entry of the wheel list that is an object of the heap, not
    [undefined]. *)
Definition is_object (s : State) (w : option ref) : Prop :=
  match w with
  | Some r => is_Some (objects s !! r)
  | None => False
  end.

(** The angle about the x axis of the object [r]. *)
Definition rotation_of (s : State) (r : ref) : option float :=
  rotation_x <$> objects s !! r.

(** A relation between the state before and the state after that a
    computation respects, however it ends. *)
Definition respects (R : State -> State -> Prop) {A} (m : M State A) : Prop :=
  forall s, R s (snd (m s)).

(** The objects of the heap stay, with their names and their materials. *)
Definition keeps_meshes (s s' : State) : Prop :=
  forall r o, objects s !! r = Some o ->
    exists o', objects s' !! r = Some o' /\ name o' = name o /\ material o' = material o.

(** The sub-meshes whose material the completion callback replaces, with
    the material each one gets, and the wheels it collects. *)
Definition material_targets (rq : LoadRequest) : list (string * ref) :=
  [("body", lr_bodyMaterial rq);
   ("rim_fl", lr_detailsMaterial rq); ("rim_fr", lr_detailsMaterial rq);
   ("rim_rl", lr_detailsMaterial rq); ("rim_rr", lr_detailsMaterial rq);
   ("glass", lr_glassMaterial rq)].

Definition wheel_names : list string := ["wheel_fl"; "wheel_fr"; "wheel_rl"; "wheel_rr"].

(** The object [r] has the name [nm] and the material [m]. *)
Definition mesh_has (s : State) (r : ref) (nm : string) (m : ref) : Prop :=
  exists o, objects s !! r = Some o /\ name o = nm /\ material o = Some m.

(** The objects of [s] whose material is another one in [s']. *)
Definition replaced (s s' : State) : list ref :=
  List.filter
    (fun r => negb (bool_decide ((material <$> objects s !! r) = (material <$> objects s' !! r))))
    (seq 0 (length (objects s))).

(** The program after the first component was created on the sample page,
    the heap when the sample model has been parsed, and the program when
    the completion callback has run. *)
Definition sample_running : State := run [ComponentInit sample_canvas] (boot sample_page).

Definition sample_request : LoadRequest :=
  mkLoadRequest "assets/gltf/ferrari.glb" 0 1 2 "assets/gltf/ferrari_ao.png".

Definition sample_parsed : State :=
  snd (build_node None ferrari
         (with_env (fun b => set_loads (remove_nth 0 (loads b)) b) sample_running)).

Definition sample_loaded : State := run [GltfLoaded 0 ferrari] sample_running.

(** The wheel list is the same. *)
Definition same_wheels (s s' : State) : Prop := wheels (svc s') = wheels (svc s).

(** The part [f] of the state is the same. *)
Definition same {A} (f : State -> A) (s s' : State) : Prop := f s' = f s.

(** The cars: the wheels collected, the loads under way, the errors. *)
Definition cars_view (s : State) :=
  (wheels (svc s), loads (env s), uncaught (env s)).

(** The render loop: the frames requested, the frame the service knows,
    what may start a loop. *)
Definition loop_view (s : State) :=
  (raf_queue (env s), raf_next (env s), frameId (svc s), listeners (env s),
   readyState (env s), dom (env s)).

(** The render loop, the calls of [render] and the draw calls. *)
Definition quiet_view (s : State) := (loop_view s, render_calls s, draws (env s)).

Definition is_init (e : Event) : bool :=
  match e with ComponentInit _ => true | _ => false end.

Definition is_load (e : Event) : bool :=
  match e with GltfLoaded _ _ => true | _ => false end.

(** How many components were created. *)
Definition count_init (evs : list Event) : nat := length (List.filter is_init evs).

Definition color_inputs : list string := ["body-color"; "details-color"; "glass-color"].

(** The three colour inputs are in the document. *)
Definition inputs_present (s : State) : Prop :=
  forall id, id ∈ color_inputs -> id ∈ dom (env s).

(** Four wheels for every load that has completed or is under way. *)
Definition cars_owed (s : State) : nat :=
  length (wheels (svc s)) + 4 * length (loads (env s)).

(** The wheels and the loads are the same, and no error was taken back. *)
Definition cars_kept (s s' : State) : Prop :=
  wheels (svc s') = wheels (svc s) /\
  loads (env s') = loads (env s) /\
  length (uncaught (env s)) <= length (uncaught (env s')).

(** A listener that calls [render]: the one [animate] adds while the
    document is loading. *)
Definition starts_render (l : Listener) : bool :=
  match l_handler l with CallRender => true | _ => false end.

Definition render_listener_ok (l : Listener) : Prop :=
  starts_render l = true -> l_target l = Window /\ l_type l = "DOMContentLoaded".

(** No frame is requested and nothing can request one: the document is
    loaded, so the listeners that call [render] will not run. *)
Definition stopped (s : State) : Prop :=
  raf_queue (env s) = [] /\
  readyState (env s) <> Loading /\
  Forall render_listener_ok (listeners (env s)).

(** The frames requested are none, or the one the service holds. *)
Definition loop_ok (s : State) : Prop :=
  raf_queue (env s) = [] \/
  exists id, raf_queue (env s) = [(id, CallRender)] /\ frameId (svc s) = Some id.

(** One render loop at most: while the document is loading, no frame and
    one listener that will start the loop; afterwards, no frame or the one
    frame whose handle the service holds. *)
Definition single_loop (s : State) : Prop :=
  Forall render_listener_ok (listeners (env s)) /\
  ((readyState (env s) = Loading /\ raf_queue (env s) = [] /\
    length (List.filter starts_render (listeners (env s))) <= 1) \/
   (readyState (env s) <> Loading /\ loop_ok s)).

(** No component is created by these events. *)
Definition no_init (evs : list Event) : Prop := Forall (fun e => is_init e = false) evs.

(** The listeners [createScene] adds do not call [render]. *)
Definition adds_quiet_listeners (s s' : State) : Prop :=
  exists new, listeners (env s') = listeners (env s) ++ new /\
              Forall (fun l => starts_render l = false) new.

(** No render loop was started and none is waiting to start. *)
Definition no_loop (s : State) : Prop :=
  raf_queue (env s) = [] /\
  Forall (fun l => starts_render l = false) (listeners (env s)).

(** The object [g] is a ground grid as [createScene] makes it. *)
Definition is_grid (s : State) (g : ref) : Prop :=
  exists go, objects s !! g = Some go /\
             geometry go = Some (GridGeometry 100 40 0x000000%Z 0x000000%Z).

(** The service has its renderer, camera and scene, and the scene holds
    the grid and nothing else, before its background. *)
Definition scene_with_grid (s : State) : Prop :=
  exists rd cam sc g so,
    renderer (svc s) = Some rd /\ camera (svc s) = Some cam /\
    scene (svc s) = Some sc /\ grid (svc s) = Some g /\
    background sc = Some 0xeeeeee%Z /\
    objects s !! scene_obj sc = Some so /\ children so = [g] /\ is_grid s g.

(** A draw call of a scene with the background and the grid only. *)
Definition only_grid (s : State) (d : Draw) : Prop :=
  background (d_scene d) = Some 0xeeeeee%Z /\
  exists g, d_children d = [g] /\ is_grid s g.

(** The materials the colour listeners write to exist. *)
Definition handlers_ok (s : State) : Prop :=
  Forall (fun l => forall m, l_handler l = SetMaterialColor m -> m < length (materials s))
    (listeners (env s)).

(** No completion callback has run, whatever else has: the wheel list is
    empty, the scene holds its grid, no task has thrown and every draw call
    so far was of the grid and the background. *)
Definition before_load (s : State) : Prop :=
  wheels (svc s) = [] /\ uncaught (env s) = [] /\ inputs_present s /\
  handlers_ok s /\ Forall (only_grid s) (draws (env s)) /\ scene_with_grid s.

(** The objects of the heap stay, with their geometries. *)
Definition keeps_geometry (s s' : State) : Prop :=
  forall r o, objects s !! r = Some o ->
    exists o', objects s' !! r = Some o' /\ geometry o' = geometry o.

(** No load completes in these events. *)
Definition no_load (evs : list Event) : Prop := Forall (fun e => is_load e = false) evs.

(** The colour of the material [m]. *)
Definition color_of (s : State) (m : ref) : option Color :=
  color <$> materials s !! m.

(** Listeners are added, never removed; materials are created, never
    freed. *)
Definition grows (s s' : State) : Prop :=
  (exists new, listeners (env s') = listeners (env s) ++ new) /\
  length (materials s) <= length (materials s').

(** Every child was created after its parent: the graph of the heap has no
    cycle, and no path in it is longer than the heap. *)
Definition forward (h : list Object3D) : Prop :=
  forall r o c, h !! r = Some o -> c ∈ children o -> r < c.

(** The heap is forward and the scene of the service is an object of it. *)
Definition heap_ok (s : State) : Prop :=
  forward (objects s) /\
  forall sc, scene (svc s) = Some sc -> scene_obj sc < length (objects s).

(** Objects are created, never freed; the heap stays forward if it was; the
    scene of the service is the same. *)
Definition heap_grows (s s' : State) : Prop :=
  (forward (objects s) -> forward (objects s')) /\
  length (objects s) <= length (objects s') /\
  scene (svc s') = scene (svc s).

(** The wheel list is what it was, with entries added at its end. *)
Definition wheels_grow (s s' : State) : Prop :=
  exists new, wheels (svc s') = wheels (svc s) ++ new.

(** What the picture is computed from: the camera, the renderer and the
    inner size of the window. *)
Definition window_view (s : State) :=
  (camera (svc s), renderer (svc s), innerWidth (env s), innerHeight (env s)).

(** The service has a camera and a renderer, the aspect of the camera is
    the width of the renderer's output by its height, and the projection
    matrix was computed from the fields the camera has now. *)
Definition sync_ready (s : State) : Prop :=
  exists cam rd,
    camera (svc s) = Some cam /\ renderer (svc s) = Some rd /\
    aspect cam = r_width rd / r_height rd /\
    projectionMatrix cam = mkProjection (fov cam) (aspect cam) (near cam) (far cam).

(** The service has neither camera nor renderer, or has both and they
    agree. *)
Definition in_sync (s : State) : Prop :=
  (camera (svc s) = None /\ renderer (svc s) = None) \/ sync_ready s.

(** The service shows its scene at the size (w, h). *)
Definition sized (w h : float) (s : State) : Prop :=
  exists cam rd,
    camera (svc s) = Some cam /\ renderer (svc s) = Some rd /\
    aspect cam = w / h /\ p_aspect (projectionMatrix cam) = w / h /\
    r_width rd = w /\ r_height rd = h.

(** The animation frames: the queue, the next handle and the handle the
    service holds. *)
Definition frames_view (s : State) :=
  (raf_queue (env s), raf_next (env s), frameId (svc s)).

(** The handles of the frames requested are distinct and were issued; the
    service holds the handle issued last, or none when no frame was ever
    requested. *)
Definition newest_frame (s : State) : Prop :=
  NoDup (fst <$> raf_queue (env s)) /\
  Forall (fun c => fst c < raf_next (env s)) (raf_queue (env s)) /\
  match frameId (svc s) with
  | Some id => S id = raf_next (env s)
  | None => raf_queue (env s) = []
  end.

(** The frames and the draw calls. *)
Definition drawn_view (s : State) := (frames_view s, draws (env s)).

(** What [render] needs up to the request of the next frame: every entry
    of the wheel list is an object, and so is the grid. *)
Definition can_rotate (s : State) : Prop :=
  Forall (is_object s) (wheels (svc s)) /\
  exists g, grid (svc s) = Some g /\ is_Some (objects s !! g).

(** What [render] needs for the draw call: the renderer, the camera and
    the scene. *)
Definition can_draw (s : State) : Prop :=
  is_Some (renderer (svc s)) /\ is_Some (camera (svc s)) /\
  exists sc, scene (svc s) = Some sc /\ is_Some (objects s !! scene_obj sc).

(** The frames after one more request of [render]. *)
Definition one_more_frame (s : State) :=
  (raf_queue (env s) ++ [(raf_next (env s), CallRender)], S (raf_next (env s)),
   Some (raf_next (env s))).

(** The sample model without its rear right wheel. *)
Definition ferrari_three_wheels : GltfNode :=
  Node "Scene" None
    [Node "RootNode" None
       [Node "main" None
          [mesh_node "body" 0x111111%Z; mesh_node "glass" 0x222222%Z;
           mesh_node "rim_fl" 0x444444%Z; mesh_node "rim_fr" 0x444444%Z;
           mesh_node "rim_rl" 0x444444%Z; mesh_node "rim_rr" 0x444444%Z];
        Node "wheel_fl" None []; Node "wheel_fr" None []; Node "wheel_rl" None []]].

(** The heap when that model has been parsed, on the sample page. *)
Definition sample_parsed_three_wheels : State :=
  snd (build_node None ferrari_three_wheels
         (with_env (fun b => set_loads (remove_nth 0 (loads b)) b) sample_running)).

(** The listeners [createScene] adds for the materials [m], [m + 1] and
    [m + 2]. *)
Definition color_listeners (m : ref) : list Listener :=
  [mkListener (Element "body-color") "change" (SetMaterialColor m);
   mkListener (Element "details-color") "input" (SetMaterialColor (S m));
   mkListener (Element "glass-color") "input" (SetMaterialColor (S (S m)))].

(** The load [createScene] starts for those materials. *)
Definition car_request (m : ref) : LoadRequest :=
  mkLoadRequest "assets/gltf/ferrari.glb" m (S m) (S (S m)) "assets/gltf/ferrari_ao.png".

Definition is_content_loaded (e : Event) : bool :=
  match e with DOMContentLoaded => true | _ => false end.

(** The document is loading and nothing was rendered: no frame is
    requested, [render] was not called, and [k] listeners wait for the end
    of the loading to call it. *)
Definition waiting (k : nat) (s : State) : Prop :=
  readyState (env s) = Loading /\ inputs_present s /\
  raf_queue (env s) = [] /\ render_calls s = 0%nat /\ draws (env s) = [] /\
  Forall render_listener_ok (listeners (env s)) /\
  length (List.filter starts_render (listeners (env s))) = k.

(** Listeners were added, all of them listeners of a colour input. *)
Definition adds_color_listeners (s s' : State) : Prop :=
  exists new, listeners (env s') = listeners (env s) ++ new /\
              Forall (fun l => exists m, l_handler l = SetMaterialColor m) new.

(** The position of the object [r] along the z axis. *)
Definition position_of (s : State) (r : ref) : option float :=
  position_z <$> objects s !! r.

(** The place of an object in the scene graph. *)
Definition skeleton (o : Object3D) : option ref * list ref := (parent o, children o).

(** The scene graph, the materials and the scene of the service. *)
Definition shape_view (s : State) :=
  (skeleton <$> objects s, materials s, scene (svc s)).

(** The end of the completion callback: the shadow plane is made and added
    to the car, and the car is added to the scene ([onLoad] from its
    comment [shadow] on). *)
Definition onLoad_shadow_and_add (rq : LoadRequest) (carModel : ref) : M State unit :=
  let* mat := alloc_material
    (mkMaterial MeshBasicMaterial 0xffffff%Z 0 1 0 0 0
       true (Some (lr_shadow rq)) MultiplyBlending false) in
  let* mesh := alloc_object
    (set_geometry (Some (PlaneGeometry (0.655 * 4) (1.3 * 4)))
       (set_material (Some mat) (new_Object3D ""))) in
  update_object mesh (set_rotation_x ((- JsNum.PI) / 2)) ;;;
  update_object mesh (set_renderOrder 2%Z) ;;;
  Object3D_add carModel mesh ;;;
  let* sc := the_svc scene in
  let* sc := deref "this.scene" sc in
  Object3D_add (scene_obj sc) carModel.

(** The shadow plane as the callback leaves it, a child of the car. *)
Definition shadow_plane (car mat : ref) : Object3D :=
  mkObject3D "" (Some car) [] (Some mat) (Some (PlaneGeometry (0.655 * 4) (1.3 * 4)))
    ((- JsNum.PI) / 2) 0 2%Z.

Definition shadow_material (rq : LoadRequest) : Material :=
  mkMaterial MeshBasicMaterial 0xffffff%Z 0 1 0 0 0
    true (Some (lr_shadow rq)) MultiplyBlending false.

(** From the object [lo] on, every child an object lists is an object whose
    parent it is. *)
Definition parents_ok (lo : nat) (h : list Object3D) : Prop :=
  forall r o c, lo <= r -> h !! r = Some o -> c ∈ children o ->
    exists co, h !! c = Some co /\ parent co = Some r.

(** A listener of a colour input, or a listener on the window. *)
Definition listener_placed (l : Listener) : Prop :=
  (exists m, l_handler l = SetMaterialColor m) \/ l_target l = Window.

(** Listeners were added, each a colour listener or one on the window. *)
Definition places_listeners (s s' : State) : Prop :=
  exists new, listeners (env s') = listeners (env s) ++ new /\ Forall listener_placed new.

(** The state without the colours of the materials and without the errors
    on the console. *)
Definition colorless_view (s : State) :=
  (svc s, objects s, set_color 0%Z <$> materials s, set_uncaught [] (env s), render_calls s).

(** The scene graph as the service sees it: the children of every object,
    the scene and the grid of the service. *)
Definition graph_view (s : State) :=
  (children <$> objects s, scene (svc s), grid (svc s)).

(** The service has the scene and the grid it had, and the scene has the
    children it had, in their order, and maybe others after them. *)
Definition scene_extends (s s' : State) : Prop :=
  scene (svc s') = scene (svc s) /\ grid (svc s') = grid (svc s) /\
  forall sc so, scene (svc s) = Some sc -> objects s !! scene_obj sc = Some so ->
    exists so' extra,
      objects s' !! scene_obj sc = Some so' /\ children so' = children so ++ extra.

(** The scene of the service, when there is one, lists the grid of the
    service first. *)
Definition grid_first (s : State) : Prop :=
  match scene (svc s), grid (svc s) with
  | Some sc, Some g =>
      exists so rest, objects s !! scene_obj sc = Some so /\ children so = g :: rest
  | None, None => True
  | _, _ => False
  end.

(** What a task of the program can end with: a colour input that is not in
    the document, a file whose scene has no child, a mesh of the car the
    file does not have, an entry of the wheel list that is [undefined]. *)
Definition known_errors : list string :=
  ["bodyColorInput"; "detailsColorInput"; "glassColorInput"; "carModel";
   "body"; "rim_fl"; "rim_fr"; "rim_rl"; "rim_rr"; "glass"; "this.wheels[i]"].

Definition known_error (e : JsError) : Prop :=
  exists what, e = TypeError what /\ what ∈ known_errors.

(** An entry of the wheel list is [undefined] or an object of the heap. *)
Definition wheel_ok (s : State) (w : option ref) : Prop :=
  match w with Some r => r < length (objects s) | None => True end.

(** What the references of the service and of the listeners depend on. *)
Definition refs_view (s : State) :=
  (length (objects s), length (materials s), wheels (svc s), scene (svc s), grid (svc s),
   listeners (env s), loads (env s), uncaught (env s)).

(** A call of [createScene] has completed: the service has its renderer,
    its camera, its scene and its grid. *)
Definition set_up (s : State) : Prop :=
  is_Some (renderer (svc s)) /\ is_Some (camera (svc s)) /\
  (exists sc, scene (svc s) = Some sc /\ scene_obj sc < length (objects s)) /\
  (exists g, grid (svc s) = Some g /\ g < length (objects s)).

(** No call of [createScene] has completed: no frame is requested, no file
    is awaited, and the listeners are those of the colour inputs. *)
Definition not_started (s : State) : Prop :=
  raf_queue (env s) = [] /\ loads (env s) = [] /\
  Forall (fun l => exists m, l_handler l = SetMaterialColor m) (listeners (env s)).

(** The references the program holds are references to what exists. *)
Definition refs_ok (s : State) : Prop :=
  Forall (wheel_ok s) (wheels (svc s)) /\ handlers_ok s /\ (set_up s \/ not_started s).

(** The heap and the materials lose nothing. *)
Definition sizes_grow (s s' : State) : Prop :=
  length (objects s) <= length (objects s') /\ length (materials s) <= length (materials s').

(** What a method leaves when it is called in the state [s]: the references
    are sound, nothing was lost, the console is as it was, a service that
    was set up still is, and the error, if there is one, is a known one. *)
Definition fine {A} (s : State) (r : Completion A * State) : Prop :=
  refs_ok (snd r) /\ sizes_grow s (snd r) /\
  uncaught (env (snd r)) = uncaught (env s) /\
  (set_up s -> set_up (snd r)) /\
  match fst r with Throw e => known_error e | Normal _ => True end.

(** The references are sound and the console shows known errors only. *)
Definition sound (s : State) : Prop :=
  refs_ok s /\ Forall known_error (uncaught (env s)).

(** * Verification *)

(** ** Stepping through a method *)

Section MonadLaws.
Context {S : Type}.
Implicit Types s : S.

Lemma bind_normal {A B} (m : M S A) (k : A -> M S B) s a s' :
  m s = (Normal a, s') -> bind m k s = k a s'.
Proof. unfold bind. now intros ->. Qed.

Lemma bind_throw {A B} (m : M S A) (k : A -> M S B) s e s' :
  m s = (Throw e, s') -> bind m k s = (Throw e, s').
Proof. unfold bind. now intros ->. Qed.

Lemma bind_gets {A B} (f : S -> A) (k : A -> M S B) s :
  bind (gets f) k s = k (f s) s.
Proof. reflexivity. Qed.

Lemma bind_modify {B} (f : S -> S) (k : unit -> M S B) s :
  bind (modify f) k s = k tt (f s).
Proof. reflexivity. Qed.

Lemma bind_ret {A B} (a : A) (k : A -> M S B) s : bind (ret a) k s = k a s.
Proof. reflexivity. Qed.

Lemma bind_assoc {A B C} (m : M S A) (k : A -> M S B) (k' : B -> M S C) s :
  bind (bind m k) k' s = bind m (fun a => bind (k a) k') s.
Proof. unfold bind. destruct (m s) as [[a|e] s']; reflexivity. Qed.

End MonadLaws.

(** ** Teardown before any frame (C10) *)

(** C10: when no frame was ever requested ([frameId] is still [null]),
    [ngOnDestroy] completes normally and changes nothing: it cancels
    nothing and does not throw. *)
Theorem ngOnDestroy_without_frame (s : State) :
  frameId (svc s) = None ->
  ngOnDestroy s = (Normal tt, s).
Proof.
  intros H. unfold ngOnDestroy, the_svc.
  rewrite bind_gets, H. reflexivity.
Qed.

Lemma ngOnDestroy_without_frame_witness :
  ngOnDestroy (boot sample_page) = (Normal tt, boot sample_page).
Proof. apply (ngOnDestroy_without_frame (boot sample_page)). reflexivity. Defined.

(** ** Resizing (C3, C8) *)

(** C3: with a camera and a renderer in place, [resize()] under a window of
    inner size (W, H), H not zero, completes, the aspect of the camera is
    W / H (and the projection matrix is recomputed from it) and the output
    size of the renderer is (W, H). The quotient is the binary64 one; the
    proof does not use that H is not zero, where the quotient is an
    infinity or NaN. *)
Theorem resize_sets_aspect_and_size (s : State) (W H : float) cam r :
  innerWidth (env s) = W ->
  innerHeight (env s) = H ->
  JsNum.nonzero H ->
  camera (svc s) = Some cam ->
  renderer (svc s) = Some r ->
  exists s' cam' r',
    resize s = (Normal tt, s') /\
    camera (svc s') = Some cam' /\
    aspect cam' = W / H /\
    p_aspect (projectionMatrix cam') = W / H /\
    renderer (svc s') = Some r' /\
    (r_width r', r_height r') = (W, H).
Proof.
  intros HW HH _ Hcam Hr.
  unfold resize, the_env, the_svc.
  rewrite !bind_gets, Hcam. cbn [deref]. rewrite bind_ret, bind_modify, bind_gets.
  cbn [with_svc svc set_camera renderer]. rewrite Hr. cbn [deref]. rewrite bind_ret.
  eexists _, _, _. split; [reflexivity|].
  cbn. rewrite HW, HH. auto.
Qed.

Lemma resize_sets_aspect_and_size_witness :
  exists s' cam' r',
    resize (run [ComponentInit sample_canvas] (boot sample_page)) = (Normal tt, s') /\
    camera (svc s') = Some cam' /\
    aspect cam' = 800 / 600 /\
    p_aspect (projectionMatrix cam') = 800 / 600 /\
    renderer (svc s') = Some r' /\
    (r_width r', r_height r') = (800, 600).
Proof.
  eapply (resize_sets_aspect_and_size
            (run [ComponentInit sample_canvas] (boot sample_page)) 800 600);
    vm_compute; reflexivity.
Defined.



(** ** Missing colour inputs (C7) *)

(** Without one of the inputs [createScene] throws on the null it got, and
    has by then created three materials and at most two listeners. *)
Lemma createScene_without_input (s : State) (cv : ElementRef) (id : string) :
  id ∈ color_inputs ->
  id ∉ dom (env s) ->
  exists what s',
    createScene cv s = (Throw (TypeError what), s') /\
    svc s' = svc s /\
    objects s' = objects s /\
    loads (env s') = loads (env s).
Proof.
  intros Hin Hout.
  assert (Hcase : "body-color" ∉ dom (env s) \/
                  "details-color" ∉ dom (env s) \/
                  "glass-color" ∉ dom (env s)).
  { unfold color_inputs in Hin.
    rewrite !elem_of_cons in Hin.
    destruct Hin as [->|[->|[->|Hin]]]; auto. inversion Hin. }
  clear id Hin Hout.
  destruct s as [e h ms [d rs w hh dpr t ls q n lds dr un] k].
  cbn [env dom] in Hcase.
  unfold createScene, alloc_material, getElementById, listen, addEventListener,
    the_svc, the_env, gets, modify, bind, deref, ret, throw.
  cbn.
  destruct (bool_decide ("body-color" ∈ d)) eqn:Eb;
    [|eexists _, _; split; [reflexivity|]; cbn; auto].
  cbn. destruct (bool_decide ("details-color" ∈ d)) eqn:Ed;
    [|eexists _, _; split; [reflexivity|]; cbn; auto].
  cbn. destruct (bool_decide ("glass-color" ∈ d)) eqn:Eg;
    [|eexists _, _; split; [reflexivity|]; cbn; auto].
  apply bool_decide_eq_true in Eb, Ed, Eg. tauto.
Qed.

(** C7: when one of the three colour inputs is missing from the document,
    [createScene] throws on the null it got from [getElementById] (a
    TypeError in JavaScript) before it assigns any field of the service:
    canvas, renderer, camera, controls, scene and grid are as they were
    (unassigned on a new service), no object was created and no load was
    started. *)
Theorem createScene_missing_input (s : State) (cv : ElementRef) (id : string) :
  id ∈ color_inputs ->
  id ∉ dom (env s) ->
  exists what s',
    createScene cv s = (Throw (TypeError what), s') /\
    svc s' = svc s /\
    objects s' = objects s /\
    loads (env s') = loads (env s) /\
    (svc s = new_EngineService ->
     renderer (svc s') = None /\ camera (svc s') = None /\
     controls (svc s') = None /\ scene (svc s') = None).
Proof.
  intros Hin Hout.
  destruct (createScene_without_input s cv id Hin Hout) as (what & s' & E & Hs & Ho & Hl).
  exists what, s'. split; [exact E|]. split; [exact Hs|]. split; [exact Ho|].
  split; [exact Hl|]. rewrite Hs. intros ->. repeat split; reflexivity.
Qed.

Lemma createScene_missing_input_witness :
  let s := boot (new_page ["rendererCanvas"; "body-color"; "details-color"] Complete 800 600 1 0) in
  exists what s',
    createScene sample_canvas s = (Throw (TypeError what), s') /\
    svc s' = svc s /\
    objects s' = objects s /\
    loads (env s') = loads (env s) /\
    (svc s = new_EngineService ->
     renderer (svc s') = None /\ camera (svc s') = None /\
     controls (svc s') = None /\ scene (svc s') = None).
Proof.
  intros s.
  apply (createScene_missing_input s sample_canvas "glass-color").
  - unfold color_inputs. rewrite !elem_of_cons. auto.
  - vm_compute. intros H. repeat (apply elem_of_cons in H as [H|H]; [discriminate|]).
    inversion H.
Defined.

(** ** Numbers *)

Lemma SFdiv_opp_l prec emax x y :
  SFdiv prec emax (SFopp x) y = SFopp (SFdiv prec emax x y).
Proof.
  destruct x as [sx| sx| |sx mx ex], y as [sy|sy| |sy my ey]; cbn [SFdiv SFopp];
    try reflexivity; try (destruct sx, sy; reflexivity).
  destruct (SFdiv_core_binary prec emax (Z.pos mx) ex (Z.pos my) ey) as [[mz ez] lz].
  unfold binary_round_aux.
  destruct (shr_fexp prec emax mz ez lz) as [mrs' e'].
  destruct (shr_fexp prec emax _ e' loc_Exact) as [mrs'' e''].
  replace (xorb (negb sx) sy) with (negb (xorb sx sy)) by (destruct sx, sy; reflexivity).
  destruct (shr_m mrs''); try reflexivity.
  destruct (e'' <=? emax - prec)%Z; reflexivity.
Qed.

(** Negation commutes with a rounded division: the sign plays no part in
    the rounding to nearest. *)
Lemma div_opp_l (x y : float) : (- x) / y = - (x / y).
Proof.
  rewrite <- (SF2Prim_Prim2SF ((- x) / y)), <- (SF2Prim_Prim2SF (- (x / y))).
  f_equal. rewrite div_spec, !opp_spec, div_spec. apply SFdiv_opp_l.
Qed.

(** ** Writes to the heap *)

Lemma update_object_cases r f s :
  (exists o, objects s !! r = Some o /\
             update_object r f s = (Normal tt, with_objects (fun h => <[r := f o]> h) s)) \/
  (objects s !! r = None /\ update_object r f s = (Throw (Dangling r), s)).
Proof.
  unfold update_object, read_object, bind, modify.
  destruct (objects s !! r) as [o|]; [left; eauto | right; auto].
Qed.

Lemma rotation_of_insert s r r' o f :
  objects s !! r = Some o ->
  rotation_x (f o) = rotation_x o ->
  rotation_of (with_objects (fun h => <[r := f o]> h) s) r' = rotation_of s r'.
Proof.
  intros Ho Hf. unfold rotation_of. cbn [with_objects objects].
  destruct (decide (r = r')) as [<-|Hne].
  - rewrite list_lookup_insert_eq by (eapply lookup_lt_Some; eauto).
    rewrite Ho. cbn. now rewrite Hf.
  - now rewrite list_lookup_insert_ne.
Qed.

Lemma is_object_insert s r o w :
  is_object s w -> is_object (with_objects (fun h => <[r := o]> h) s) w.
Proof.
  destruct w as [r'|]; cbn; [|auto].
  intros H. apply lookup_lt_is_Some. rewrite length_insert.
  now apply lookup_lt_is_Some.
Qed.

(** ** The wheel loop of [render] (C2) *)

Lemma rotate_wheels_spec x ws : forall s,
  Forall (is_object s) ws ->
  exists s',
    for_each (rotate_wheel x) ws s = (Normal tt, s') /\
    svc s' = svc s /\ env s' = env s /\ materials s' = materials s /\
    render_calls s' = render_calls s /\
    (forall r, Some r ∈ ws -> rotation_of s' r = Some x) /\
    (forall r, Some r ∉ ws -> objects s' !! r = objects s !! r).
Proof.
  induction ws as [|w ws IH]; intros s Hall.
  - exists s. cbn. repeat split; auto. intros r Hr. inversion Hr.
  - apply Forall_cons in Hall as [Hw Hall].
    destruct w as [r|]; [|destruct Hw].
    destruct Hw as [o Ho].
    set (s1 := with_objects (fun h => <[r := set_rotation_x x o]> h) s).
    assert (Hstep : rotate_wheel x (Some r) s = (Normal tt, s1)).
    { unfold rotate_wheel. cbn [deref]. rewrite bind_ret.
      destruct (update_object_cases r (set_rotation_x x) s) as [(o' & Ho' & E)|[Hn _]];
        [|congruence].
      rewrite E. assert (o' = o) as -> by congruence. reflexivity. }
    destruct (IH s1) as (s' & Hrun & Hsvc & Henv & Hmat & Hrc & Hin & Hout).
    { eapply Forall_impl; [exact Hall|]. intros w. apply is_object_insert. }
    exists s'. cbn [for_each]. rewrite (bind_normal _ _ _ _ _ Hstep).
    repeat split; auto.
    + intros r' Hr'. apply elem_of_cons in Hr' as [E|Hr']; [|auto].
      injection E as ->.
      destruct (decide (Some r ∈ ws)) as [Hd|Hd]; [auto|].
      unfold rotation_of. rewrite (Hout _ Hd). unfold s1. cbn [with_objects objects].
      rewrite list_lookup_insert_eq by (eapply lookup_lt_Some; eauto). reflexivity.
    + intros r' Hr'. apply not_elem_of_cons in Hr' as [Hne Hr'].
      rewrite (Hout _ Hr'). unfold s1. cbn [with_objects objects].
      apply list_lookup_insert_ne. congruence.
Qed.

(** What [render] does after the wheel loop leaves every angle alone. *)
Lemma render_after_loop_rotation (s : State) (z : float) (r : ref) :
  rotation_of
    (snd ((let* g := the_svc grid in
           let* g := deref "this.grid" g in
           update_object g (set_position_z z) ;;;
           let* id := requestAnimationFrame CallRender in
           modify (with_svc (set_frameId (Some id))) ;;;
           let* rd := the_svc renderer in
           let* _ := deref "this.renderer" rd in
           let* sc := the_svc scene in
           let* sc := deref "this.scene" sc in
           let* cam := the_svc camera in
           let* cam := deref "this.camera" cam in
           renderer_render sc cam) s)) r
  = rotation_of s r.
Proof.
  unfold the_svc. rewrite bind_gets.
  destruct (grid (svc s)) as [g|]; [|reflexivity].
  cbn [deref]. rewrite bind_ret.
  destruct (update_object_cases g (set_position_z z) s) as [(o & Ho & E)|[Hn E]].
  2:{ rewrite (bind_throw _ _ _ _ _ E). reflexivity. }
  rewrite (bind_normal _ _ _ _ _ E).
  rewrite <- (rotation_of_insert s g r o (set_position_z z) Ho eq_refl).
  generalize (with_objects (fun h => <[g := set_position_z z o]> h) s). intros s1.
  destruct s1 as [[cv rd cam sc ct gg ws f] h ms b n].
  unfold requestAnimationFrame, renderer_render, read_object, bind, modify, gets, deref,
    ret, throw, rotation_of.
  cbn.
  destruct rd; [|reflexivity].
  destruct sc as [sc|]; [|reflexivity].
  destruct cam; [|reflexivity].
  cbn. destruct (h !! scene_obj sc); reflexivity.
Qed.



(** ** Computations that respect a relation *)

Section Respects.
Variable R : State -> State -> Prop.
Hypothesis R_refl : forall s, R s s.
Hypothesis R_trans : forall s1 s2 s3, R s1 s2 -> R s2 s3 -> R s1 s3.

Lemma respects_ret {A} (a : A) : respects R (ret a).
Proof. intros s. apply R_refl. Qed.

Lemma respects_throw {A} e : respects R (@throw State A e).
Proof. intros s. apply R_refl. Qed.

Lemma respects_gets {A} (f : State -> A) : respects R (gets f).
Proof. intros s. apply R_refl. Qed.

Lemma respects_deref {A} what (o : option A) : respects R (deref what o).
Proof. destruct o; [apply respects_ret | apply respects_throw]. Qed.

Lemma respects_modify f : (forall s, R s (f s)) -> respects R (modify f).
Proof. intros H s. apply H. Qed.

Lemma respects_bind {A B} (m : M State A) (k : A -> M State B) :
  respects R m -> (forall a, respects R (k a)) -> respects R (bind m k).
Proof.
  intros Hm Hk s. unfold bind. specialize (Hm s).
  destruct (m s) as [[a|e] s1]; cbn in *; [|exact Hm].
  eapply R_trans; [exact Hm | apply Hk].
Qed.

Lemma respects_for_each {A} (body : A -> M State unit) l :
  (forall a, respects R (body a)) -> respects R (for_each body l).
Proof.
  intros Hb. induction l as [|a l IH]; cbn [for_each].
  - apply respects_ret.
  - apply respects_bind; auto.
Qed.

Lemma respects_read_object r : respects R (read_object r).
Proof. intros s. unfold read_object. destruct (objects s !! r); apply R_refl. Qed.

Lemma respects_update_object r f :
  (forall s o, objects s !! r = Some o -> R s (with_objects (fun h => <[r := f o]> h) s)) ->
  respects R (update_object r f).
Proof.
  intros H s.
  destruct (update_object_cases r f s) as [(o & Ho & ->)|[_ ->]]; cbn; auto.
Qed.

Lemma respects_update_material r f :
  (forall s m, materials s !! r = Some m -> R s (with_materials (fun h => <[r := f m]> h) s)) ->
  respects R (update_material r f).
Proof.
  intros H s. unfold update_material.
  destruct (materials s !! r) eqn:E; cbn; auto.
Qed.

Lemma respects_task m : respects R m ->
  (forall s e, R s (with_env (fun b => set_uncaught (e :: uncaught b) b) s)) ->
  forall s, R s (task m s).
Proof.
  intros Hm Hu s. unfold task. specialize (Hm s).
  destruct (m s) as [[a|e] s1]; cbn in *; [exact Hm|].
  eapply R_trans; [exact Hm | apply Hu].
Qed.
End Respects.

Lemma bind_inv {S A B} (m : M S A) (k : A -> M S B) s b s' :
  bind m k s = (Normal b, s') ->
  exists a s1, m s = (Normal a, s1) /\ k a s1 = (Normal b, s').
Proof.
  unfold bind. destruct (m s) as [[a|e] s1]; [eauto | discriminate].
Qed.

(** ** Searching by name *)

Lemma first_found_ext {A B} (f g : A -> option B) l :
  (forall a, f a = g a) -> first_found f l = first_found g l.
Proof.
  intros H. induction l as [|a l IH]; cbn; [reflexivity|].
  rewrite H, IH. reflexivity.
Qed.

Lemma first_found_Some {A B} (f : A -> option B) l b :
  first_found f l = Some b -> exists a, a ∈ l /\ f a = Some b.
Proof.
  induction l as [|a l IH]; cbn; [discriminate|].
  destruct (f a) eqn:E.
  - intros [= ->]. exists a. split; [left | exact E].
  - intros H. destruct (IH H) as (a' & Hin & Ha'). exists a'. split; [now right | exact Ha'].
Qed.

(** What the search returns is an object of the heap that has the name. *)
Lemma getObjectByName_rec_name fuel h nm : forall root r,
  getObjectByName_rec fuel h nm root = Some r ->
  exists o, h !! r = Some o /\ name o = nm.
Proof.
  induction fuel as [|fuel IH]; intros root r; cbn; [discriminate|].
  destruct (h !! root) as [o|] eqn:Ho; [|discriminate].
  destruct (String.eqb (name o) nm) eqn:E.
  - intros [= <-]. apply String.eqb_eq in E. eauto.
  - intros H. apply first_found_Some in H as (c & _ & Hc). eauto.
Qed.

Lemma getObjectByName_name h root nm r :
  getObjectByName h root nm = Some r -> exists o, h !! r = Some o /\ name o = nm.
Proof. apply getObjectByName_rec_name. Qed.

(** A write that keeps the name and the children of the object it goes to
    does not change what a search returns. *)
Lemma getObjectByName_insert h r o o' root nm :
  h !! r = Some o -> name o' = name o -> children o' = children o ->
  getObjectByName (<[r := o']> h) root nm = getObjectByName h root nm.
Proof.
  intros Ho Hn Hc. unfold getObjectByName. rewrite length_insert.
  generalize (length h) as fuel. intros fuel. revert root.
  induction fuel as [|fuel IH]; intros root; cbn; [reflexivity|].
  destruct (decide (r = root)) as [<-|Hne].
  - rewrite list_lookup_insert_eq by (eapply lookup_lt_Some; eauto).
    rewrite Ho, Hn, Hc, (first_found_ext _ _ _ IH). reflexivity.
  - rewrite list_lookup_insert_ne by exact Hne.
    destruct (h !! root); [|reflexivity].
    rewrite (first_found_ext _ _ _ IH). reflexivity.
Qed.

(** ** Proving that a method respects a relation

    [respects_step] follows the structure of the computation; what is left
    are the writes, one goal [R s (f s)] each. *)

Create HintDb respects.

Ltac respects_open :=
  unfold the_svc, the_env, byName, listen, assign_material, rotate_wheel,
    Object3D_add, renderer_render, getElementById, addEventListener,
    cancelAnimationFrame.

Ltac respects_step :=
  lazymatch goal with
  | |- respects _ (bind _ _) =>
      apply respects_bind; [solve [eauto with respects] | | intros ?]
  | |- respects _ (ret _) => apply respects_ret; solve [eauto with respects]
  | |- respects _ (throw _) => apply respects_throw; solve [eauto with respects]
  | |- respects _ (gets _) => apply respects_gets; solve [eauto with respects]
  | |- respects _ (deref _ _) => apply respects_deref; solve [eauto with respects]
  | |- respects _ (read_object _) => apply respects_read_object; solve [eauto with respects]
  | |- respects _ (for_each _ _) =>
      apply respects_for_each; [solve [eauto with respects]
                               | solve [eauto with respects] | intros ?]
  | |- respects _ (update_object _ _) =>
      apply respects_update_object; [solve [eauto with respects] | intros ? ? ?]
  | |- respects _ (update_material _ _) =>
      apply respects_update_material; [solve [eauto with respects] | intros ? ? ?]
  | |- respects _ (modify _) => apply respects_modify; intros ?
  | |- respects _ (alloc_object _) => intros ?; cbn [alloc_object snd]
  | |- respects _ (alloc_material _) => intros ?; cbn [alloc_material snd]
  | |- respects _ (requestAnimationFrame _) => intros ?; cbn [requestAnimationFrame snd]
  | |- respects _ (match ?x with _ => _ end) => destruct x
  | |- respects _ _ => progress respects_open
  end.

Ltac respects_tac := repeat respects_step.

(** *** Objects keep their names and materials *)

Lemma keeps_meshes_refl s : keeps_meshes s s.
Proof. intros r o Ho. eauto. Qed.

Lemma keeps_meshes_trans s1 s2 s3 :
  keeps_meshes s1 s2 -> keeps_meshes s2 s3 -> keeps_meshes s1 s3.
Proof.
  intros H12 H23 r o Ho.
  destruct (H12 r o Ho) as (o2 & Ho2 & Hn2 & Hm2).
  destruct (H23 r o2 Ho2) as (o3 & Ho3 & Hn3 & Hm3).
  exists o3. repeat split; congruence.
Qed.

#[local] Hint Resolve keeps_meshes_refl keeps_meshes_trans : respects.

Lemma keeps_meshes_objects s s' : objects s' = objects s -> keeps_meshes s s'.
Proof. intros E r o Ho. rewrite E. eauto. Qed.

Lemma keeps_meshes_alloc s o : keeps_meshes s (with_objects (fun h => h ++ [o]) s).
Proof.
  intros r o' Ho'. exists o'. cbn. rewrite lookup_app_l by (eapply lookup_lt_Some; eauto).
  auto.
Qed.

Lemma keeps_meshes_insert s r o o' :
  objects s !! r = Some o -> name o' = name o -> material o' = material o ->
  keeps_meshes s (with_objects (fun h => <[r := o']> h) s).
Proof.
  intros Ho Hn Hm r' o1 Ho1. cbn.
  destruct (decide (r = r')) as [<-|Hne].
  - rewrite list_lookup_insert_eq by (eapply lookup_lt_Some; eauto).
    exists o'. split; [reflexivity|]. split; congruence.
  - rewrite list_lookup_insert_ne by exact Hne. eauto.
Qed.

Ltac keeps_meshes_write :=
  first [ apply keeps_meshes_alloc
        | eapply keeps_meshes_insert; [eassumption | reflexivity | reflexivity]
        | apply keeps_meshes_objects; reflexivity ].

(** The part of the callback that comes after the materials: the wheels,
    the shadow plane, the two [add]. *)
Lemma onLoad_tail_keeps_meshes (rq : LoadRequest) (carModel : ref) :
  respects keeps_meshes
    (let* mat := alloc_material
       (mkMaterial MeshBasicMaterial 0xffffff%Z 0 1 0 0 0
          true (Some (lr_shadow rq)) MultiplyBlending false) in
     let* mesh := alloc_object
       (set_geometry (Some (PlaneGeometry (0.655 * 4) (1.3 * 4)))
          (set_material (Some mat) (new_Object3D ""))) in
     update_object mesh (set_rotation_x ((- JsNum.PI) / 2)) ;;;
     update_object mesh (set_renderOrder 2%Z) ;;;
     Object3D_add carModel mesh ;;;
     let* sc := the_svc scene in
     let* sc := deref "this.scene" sc in
     Object3D_add (scene_obj sc) carModel).
Proof. respects_tac; keeps_meshes_write. Qed.

Lemma same_wheels_refl s : same_wheels s s.
Proof. reflexivity. Qed.

Lemma same_wheels_trans s1 s2 s3 :
  same_wheels s1 s2 -> same_wheels s2 s3 -> same_wheels s1 s3.
Proof. unfold same_wheels. congruence. Qed.

#[local] Hint Resolve same_wheels_refl same_wheels_trans : respects.

Lemma onLoad_tail_same_wheels (rq : LoadRequest) (carModel : ref) :
  respects same_wheels
    (let* mat := alloc_material
       (mkMaterial MeshBasicMaterial 0xffffff%Z 0 1 0 0 0
          true (Some (lr_shadow rq)) MultiplyBlending false) in
     let* mesh := alloc_object
       (set_geometry (Some (PlaneGeometry (0.655 * 4) (1.3 * 4)))
          (set_material (Some mat) (new_Object3D ""))) in
     update_object mesh (set_rotation_x ((- JsNum.PI) / 2)) ;;;
     update_object mesh (set_renderOrder 2%Z) ;;;
     Object3D_add carModel mesh ;;;
     let* sc := the_svc scene in
     let* sc := deref "this.scene" sc in
     Object3D_add (scene_obj sc) carModel).
Proof. respects_tac; reflexivity. Qed.

(** ** The completion callback (C1) *)

Lemma mesh_has_keeps s s' r nm m :
  keeps_meshes s s' -> mesh_has s r nm m -> mesh_has s' r nm m.
Proof.
  intros K (o & Ho & Hn & Hm). destruct (K r o Ho) as (o' & Ho' & Hn' & Hm').
  exists o'. repeat split; congruence.
Qed.

(** One [carModel.getObjectByName(nm).material = m] that completes: the
    object found has the material, the others are as they were, and
    searches find what they found. *)
Lemma assign_material_step what car nm m s s' :
  assign_material what (getObjectByName (objects s) car nm) m s = (Normal tt, s') ->
  exists r,
    getObjectByName (objects s) car nm = Some r /\
    mesh_has s' r nm m /\
    (forall r' nm' m', nm' <> nm -> mesh_has s r' nm' m' -> mesh_has s' r' nm' m') /\
    (forall root nm', getObjectByName (objects s') root nm' = getObjectByName (objects s) root nm') /\
    svc s' = svc s.
Proof.
  unfold assign_material.
  destruct (getObjectByName (objects s) car nm) as [r|] eqn:Hfind; [|discriminate].
  cbn [deref]. rewrite bind_ret.
  destruct (getObjectByName_name _ _ _ _ Hfind) as (o & Ho & Hn).
  destruct (update_object_cases r (set_material (Some m)) s) as [(o1 & Ho1 & ->)|[Hnone _]];
    [|congruence].
  assert (o1 = o) as -> by congruence.
  intros [= <-]. exists r. split; [reflexivity|]. repeat split.
  - exists (set_material (Some m) o). cbn.
    rewrite list_lookup_insert_eq by (eapply lookup_lt_Some; eauto). auto.
  - intros r' nm' m' Hne (o' & Ho' & Hn' & Hm').
    exists o'. cbn. rewrite list_lookup_insert_ne; [auto|].
    intros ->. congruence.
  - intros root nm'. cbn. eapply getObjectByName_insert; eauto.
Qed.

Lemma NoDup_by_name s (rs : list ref) (ts : list (string * ref)) :
  Forall2 (fun r t => mesh_has s r (fst t) (snd t)) rs ts ->
  NoDup (fst <$> ts) -> NoDup rs.
Proof.
  induction 1 as [|r t rs ts Hr Hrest IH]; intros Hnd; [constructor|].
  cbn in Hnd. apply NoDup_cons in Hnd as [Hnotin Hnd].
  apply NoDup_cons. split; [|auto].
  intros Hin. apply Hnotin.
  destruct Hr as (o & Ho & Hn & _).
  clear IH Hnd Hnotin. induction Hrest as [|r' t' rs ts Hr' Hrest IH].
  - inversion Hin.
  - cbn. rewrite elem_of_cons. apply elem_of_cons in Hin as [->|Hin]; [|right; auto].
    left. destruct Hr' as (o' & Ho' & Hn' & _). congruence.
Qed.

(** What a callback that completes has done: the wheel list has the
    results of the four searches at its end, and six distinct objects, found
    under the six names, have the materials of the request. *)
Lemma onLoad_normal (s s' : State) (rq : LoadRequest) (g : ref) :
  onLoad rq g s = (Normal tt, s') ->
  exists gs car rs,
    objects s !! g = Some gs /\ children gs !! 0%nat = Some car /\
    wheels (svc s') = wheels (svc s) ++ (getObjectByName (objects s) car <$> wheel_names) /\
    (getObjectByName (objects s) car ∘ fst) <$> material_targets rq = Some <$> rs /\
    length rs = 6%nat /\ NoDup rs /\
    Forall2 (fun r t => mesh_has s' r (fst t) (snd t)) rs (material_targets rq).
Proof.
  intros H. unfold onLoad in H.
  apply bind_inv in H as (gs & s0 & Hg & H).
  unfold read_object in Hg. destruct (objects s !! g) as [gs0|] eqn:Egs; [|discriminate].
  injection Hg as -> <-.
  apply bind_inv in H as (car & s00 & Hc & H).
  destruct (children gs !! 0%nat) as [car0|] eqn:Ecar; [|discriminate].
  injection Hc as -> <-.
  unfold byName in H.
  rewrite bind_gets in H. apply bind_inv in H as ([] & s1 & A1 & H).
  apply assign_material_step in A1 as (r1 & F1 & M1 & K1 & L1 & S1).
  rewrite bind_gets in H. apply bind_inv in H as ([] & s2 & A2 & H).
  apply assign_material_step in A2 as (r2 & F2 & M2 & K2 & L2 & S2).
  rewrite bind_gets in H. apply bind_inv in H as ([] & s3 & A3 & H).
  apply assign_material_step in A3 as (r3 & F3 & M3 & K3 & L3 & S3).
  rewrite bind_gets in H. apply bind_inv in H as ([] & s4 & A4 & H).
  apply assign_material_step in A4 as (r4 & F4 & M4 & K4 & L4 & S4).
  rewrite bind_gets in H. apply bind_inv in H as ([] & s5 & A5 & H).
  apply assign_material_step in A5 as (r5 & F5 & M5 & K5 & L5 & S5).
  rewrite bind_gets in H. apply bind_inv in H as ([] & s6 & A6 & H).
  apply assign_material_step in A6 as (r6 & F6 & M6 & K6 & L6 & S6).
  rewrite !bind_gets, bind_modify in H.
  assert (L : forall root nm, getObjectByName (objects s6) root nm
                              = getObjectByName (objects s) root nm).
  { intros. rewrite L6, L5, L4, L3, L2, L1. reflexivity. }
  rewrite !L in H.
  rewrite L5, L4, L3, L2, L1 in F6. rewrite L4, L3, L2, L1 in F5.
  rewrite L3, L2, L1 in F4. rewrite L2, L1 in F3. rewrite L1 in F2.
  match type of H with
  | _ ?st = _ =>
      pose proof (onLoad_tail_keeps_meshes rq car st) as Keep;
      pose proof (onLoad_tail_same_wheels rq car st) as Wh
  end.
  rewrite H in Keep, Wh. cbn [snd] in Keep, Wh.
  assert (Keep6 : keeps_meshes s6 s').
  { eapply keeps_meshes_trans; [|exact Keep]. apply keeps_meshes_objects. reflexivity. }
  assert (Hw : wheels (svc s')
               = wheels (svc s) ++ (getObjectByName (objects s) car <$> wheel_names)).
  { rewrite Wh. cbn. rewrite S6, S5, S4, S3, S2, S1. reflexivity. }
  exists gs, car, [r1; r2; r3; r4; r5; r6].
  assert (HF : Forall2 (fun r t => mesh_has s' r (fst t) (snd t))
                 [r1; r2; r3; r4; r5; r6] (material_targets rq)).
  { unfold material_targets.
    repeat (apply Forall2_cons; split); try (apply Forall2_nil; trivial); cbn [fst snd];
      apply (mesh_has_keeps s6 s' _ _ _ Keep6).
    - apply K6, K5, K4, K3, K2; try discriminate. exact M1.
    - apply K6, K5, K4, K3; try discriminate. exact M2.
    - apply K6, K5, K4; try discriminate. exact M3.
    - apply K6, K5; try discriminate. exact M4.
    - apply K6; try discriminate. exact M5.
    - exact M6. }
  repeat split; auto.
  - cbn. rewrite F1, F2, F3, F4, F5, F6. reflexivity.
  - eapply NoDup_by_name; [exact HF|]. cbn.
    repeat (apply NoDup_cons; split;
            [rewrite ?elem_of_cons, elem_of_nil; intuition discriminate|]).
    apply NoDup_nil. trivial.
Qed.

(** C1 (amended): when the completion callback completes on a service
    whose wheel list is empty, the list holds four entries, the results of
    the searches for the four wheel names in the car model; and six
    distinct sub-meshes, those named body, rim_fl, rim_fr, rim_rl, rim_rr
    and glass, have the body, details and glass material of the request in
    place of what they had. *)
Theorem onLoad_wheels_and_materials (s s' : State) (rq : LoadRequest) (g : ref) :
  wheels (svc s) = [] ->
  onLoad rq g s = (Normal tt, s') ->
  exists gs car rs,
    objects s !! g = Some gs /\ children gs !! 0%nat = Some car /\
    wheels (svc s') = getObjectByName (objects s) car <$> wheel_names /\
    length (wheels (svc s')) = 4%nat /\
    (getObjectByName (objects s) car ∘ fst) <$> material_targets rq = Some <$> rs /\
    length rs = 6%nat /\ NoDup rs /\
    Forall2 (fun r t => mesh_has s' r (fst t) (snd t)) rs (material_targets rq).
Proof.
  intros Hfresh H.
  destruct (onLoad_normal s s' rq g H) as (gs & car & rs & Hg & Hc & Hw & Hf & Hl & Hn & HF).
  rewrite Hfresh in Hw. cbn [app] in Hw.
  exists gs, car, rs. repeat split; auto.
  rewrite Hw. reflexivity.
Qed.

Lemma onLoad_wheels_and_materials_witness :
  let s := sample_parsed in
  let s' := snd (onLoad sample_request 2 s) in
  exists gs car rs,
    objects s !! 2%nat = Some gs /\ children gs !! 0%nat = Some car /\
    wheels (svc s') = getObjectByName (objects s) car <$> wheel_names /\
    length (wheels (svc s')) = 4%nat /\
    (getObjectByName (objects s) car ∘ fst) <$> material_targets sample_request = Some <$> rs /\
    length rs = 6%nat /\ NoDup rs /\
    Forall2 (fun r t => mesh_has s' r (fst t) (snd t)) rs (material_targets sample_request).
Proof.
  intros s s'.
  apply (onLoad_wheels_and_materials s s' sample_request 2); vm_compute; reflexivity.
Defined.

(** C1 as stated, with five sub-meshes, fails on the sample model: the
    callback completes, registers four wheels, and the objects whose
    material it replaced are six, named body, glass and rim_fl to rim_rr. *)
Lemma five_materials_counterexample :
  wheels (svc sample_parsed) = [] /\
  onLoad sample_request 2 sample_parsed = (Normal tt, sample_loaded) /\
  length (wheels (svc sample_loaded)) = 4%nat /\
  omap (fun r => name <$> objects sample_loaded !! r) (replaced sample_parsed sample_loaded)
    = ["body"; "glass"; "rim_fl"; "rim_fr"; "rim_rl"; "rim_rr"] /\
  length (replaced sample_parsed sample_loaded) = 6%nat /\
  length (replaced sample_parsed sample_loaded) <> 5%nat.
Proof. vm_compute. repeat split; try reflexivity. discriminate. Qed.

(** ** Parts of the state a method leaves alone *)

Lemma same_refl {A} (f : State -> A) s : same f s s.
Proof. reflexivity. Qed.

Lemma same_trans {A} (f : State -> A) s1 s2 s3 :
  same f s1 s2 -> same f s2 s3 -> same f s1 s3.
Proof. unfold same. congruence. Qed.

#[local] Hint Resolve same_refl same_trans : respects.

Section BuildNode.
Variable R : State -> State -> Prop.
Hypothesis R_refl : forall s, R s s.
Hypothesis R_trans : forall s1 s2 s3, R s1 s2 -> R s2 s3 -> R s1 s3.
Hypothesis R_alloc_object : forall s o, R s (with_objects (fun h => h ++ [o]) s).
Hypothesis R_alloc_material : forall s m, R s (with_materials (fun h => h ++ [m]) s).
Hypothesis R_set_children : forall s r o cs,
  objects s !! r = Some o -> R s (with_objects (fun h => <[r := set_children cs o]> h) s).

(** What the loader builds respects a relation that admits new objects,
    new materials and the write of a list of children. *)
Lemma respects_build_node : forall n par, respects R (build_node par n).
Proof.
  fix IH 1. intros [nm mat kids] par. cbn [build_node].
  apply respects_bind; [exact R_trans | | intros m].
  { destruct mat as [m|].
    - apply respects_bind; [exact R_trans | intros s; apply R_alloc_material | intros r].
      apply respects_ret, R_refl.
    - apply respects_ret, R_refl. }
  apply respects_bind; [exact R_trans | intros s; apply R_alloc_object | intros r].
  apply respects_bind; [exact R_trans | | intros cs].
  { revert kids. fix IHk 1. intros [|k kids'].
    - apply respects_ret, R_refl.
    - apply respects_bind; [exact R_trans | apply IH | intros c].
      apply respects_bind; [exact R_trans | apply IHk | intros cs].
      apply respects_ret, R_refl. }
  apply respects_bind; [exact R_trans | | intros _; apply respects_ret, R_refl].
  apply respects_update_object; [exact R_refl | intros s o Ho; apply R_set_children, Ho].
Qed.
End BuildNode.

Lemma same_build_node {A} (f : State -> A) n par :
  (forall g s, f (with_objects g s) = f s) ->
  (forall g s, f (with_materials g s) = f s) ->
  respects (same f) (build_node par n).
Proof.
  intros Ho Hm. apply respects_build_node; unfold same; intros; eauto; congruence.
Qed.

Ltac same_write := unfold same; intros; reflexivity.

(** *** The cars *)

Lemma render_same_cars : respects (same cars_view) render.
Proof. unfold render. respects_tac; same_write. Qed.

Lemma resize_same_cars : respects (same cars_view) resize.
Proof. unfold resize. respects_tac; same_write. Qed.

Lemma animate_same_cars : respects (same cars_view) animate.
Proof.
  unfold animate. respects_tac; try same_write; apply render_same_cars.
Qed.

Lemma ngOnDestroy_same_cars : respects (same cars_view) ngOnDestroy.
Proof. unfold ngOnDestroy. respects_tac; same_write. Qed.

Lemma call_same_cars v h : respects (same cars_view) (call v h).
Proof.
  destruct h as [m| |]; cbn [call].
  - destruct v; respects_tac; same_write.
  - apply render_same_cars.
  - apply resize_same_cars.
Qed.

(** ** A scene that is created *)

(** Unfolds the monad and the field updates, and nothing else. *)
Ltac plumb :=
  cbv beta iota zeta delta
    [with_svc with_objects with_materials with_env count_render
     svc objects materials env render_calls
     set_canvas set_renderer set_camera set_scene set_controls set_grid set_wheels set_frameId
     canvas renderer camera scene controls grid wheels frameId
     set_readyState set_inner set_clock set_listeners set_raf set_loads set_draws set_uncaught
     dom readyState innerWidth innerHeight devicePixelRatio clock listeners raf_queue raf_next
     loads draws uncaught
     bind ret throw gets modify deref the_svc the_env fst snd option_map].

Lemma insert_two_fresh {A} (h : list A) (a b x y : A) :
  <[length h := x]> (<[length (h ++ [a]) := y]> ((h ++ [a]) ++ [b])) = h ++ [x; y].
Proof.
  rewrite <- (Nat.add_0_r (length (h ++ [a]))), insert_app_r. cbn [insert list_insert].
  rewrite <- app_assoc. cbn [app].
  rewrite <- (Nat.add_0_r (length h)), insert_app_r. reflexivity.
Qed.

Lemma inputs_present_decide s :
  inputs_present s ->
  bool_decide ("body-color" ∈ dom (env s)) = true /\
  bool_decide ("details-color" ∈ dom (env s)) = true /\
  bool_decide ("glass-color" ∈ dom (env s)) = true.
Proof.
  intros Hin. repeat split; apply bool_decide_eq_true, Hin;
    unfold color_inputs; rewrite !elem_of_cons; auto.
Qed.

(** With the three inputs in the document [createScene] completes; this is
    the state it leaves. *)
Lemma createScene_normal (cv : ElementRef) (s : State) :
  inputs_present s ->
  exists s' rd cam sc so go m1 m2 m3,
    createScene cv s = (Normal tt, s') /\
    svc s' = mkService (Some (nativeElement cv)) (Some rd) (Some cam) (Some sc)
               (Some (mkControls (mkVector3 0 0.5 0)))
               (Some (S (length (objects s)))) (wheels (svc s)) (frameId (svc s)) /\
    scene_obj sc = length (objects s) /\ background sc = Some 0xeeeeee%Z /\
    objects s' = objects s ++ [so; go] /\
    children so = [S (length (objects s))] /\
    geometry go = Some (GridGeometry 100 40 0%Z 0%Z) /\
    materials s' = materials s ++ [m1; m2; m3] /\
    env s' =
      set_loads
        (loads (env s) ++
         [mkLoadRequest "assets/gltf/ferrari.glb"
            (length (materials s)) (S (length (materials s))) (S (S (length (materials s))))
            "assets/gltf/ferrari_ao.png"])
        (set_listeners
           (listeners (env s) ++
            [mkListener (Element "body-color") "change"
               (SetMaterialColor (length (materials s)));
             mkListener (Element "details-color") "input"
               (SetMaterialColor (S (length (materials s))));
             mkListener (Element "glass-color") "input"
               (SetMaterialColor (S (S (length (materials s)))))])
           (env s)) /\
    render_calls s' = render_calls s /\
    children go = [].
Proof.
  intros Hin. destruct (inputs_present_decide s Hin) as (Hb & Hd & Hg). clear Hin.
  destruct s as [[cv0 rd cam sc ct gg ws f] h ms [d rs w hh dpr t ls q n lds dr un] k].
  cbn [env dom] in Hb, Hd, Hg.
  unfold createScene, alloc_material, alloc_object, getElementById, listen, addEventListener,
    Object3D_add, update_object, read_object.
  plumb. rewrite Hb. plumb. rewrite Hd. plumb. rewrite Hg. plumb.
  rewrite (list_lookup_middle (h ++ [_]) [] _ _ eq_refl). plumb.
  cbn [parent set_geometry new_Object3D]. plumb.
  rewrite (list_lookup_middle (h ++ [_]) [] _ _ eq_refl). plumb.
  rewrite list_lookup_insert_ne by (rewrite length_app; cbn; lia).
  rewrite lookup_app_l by (rewrite length_app; cbn; lia).
  rewrite (list_lookup_middle h [] _ _ eq_refl). plumb.
  rewrite insert_two_fresh.
  do 9 eexists. split; [reflexivity|].
  cbn. rewrite !length_app. cbn. rewrite <- !app_assoc. cbn.
  replace (length h + 1)%nat with (S (length h)) by lia.
  replace (length ms + 1)%nat with (S (length ms)) by lia.
  replace (S (length ms) + 1)%nat with (S (S (length ms))) by lia.
  repeat split; reflexivity.
Qed.

(** ** The wheel list over the life of the service (C9) *)

Lemma task_cases (m : M State unit) s :
  (exists s', m s = (Normal tt, s') /\ task m s = s') \/
  (exists e s', m s = (Throw e, s') /\
                task m s = with_env (fun b => set_uncaught (e :: uncaught b) b) s').
Proof.
  unfold task. destruct (m s) as [[[]|e] s']; eauto.
Qed.

Lemma cars_kept_refl s : cars_kept s s.
Proof. unfold cars_kept. auto. Qed.

Lemma cars_kept_trans s1 s2 s3 : cars_kept s1 s2 -> cars_kept s2 s3 -> cars_kept s1 s3.
Proof.
  unfold cars_kept. intros (W1 & L1 & U1) (W2 & L2 & U2).
  repeat split; try congruence. lia.
Qed.

Lemma cars_kept_same s s' : same cars_view s s' -> cars_kept s s'.
Proof.
  unfold same, cars_view, cars_kept. intros [= W L U]. rewrite U. auto.
Qed.

Lemma cars_kept_task m s : respects (same cars_view) m -> cars_kept s (task m s).
Proof.
  intros Hm. specialize (Hm s).
  destruct (task_cases m s) as [(s' & E & ->)|(e & s' & E & ->)];
    rewrite E in Hm; cbn [snd] in Hm.
  - apply cars_kept_same, Hm.
  - unfold same, cars_view in Hm. injection Hm as W L U.
    unfold cars_kept. cbn. rewrite U. auto.
Qed.

Lemma cars_kept_fold {A} (f : State -> A -> State) (l : list A) :
  (forall s a, cars_kept s (f s a)) -> forall s, cars_kept s (fold_left f l s).
Proof.
  intros Hf. induction l as [|a l IH]; intros s; cbn [fold_left].
  - apply cars_kept_refl.
  - eapply cars_kept_trans; [apply Hf | apply IH].
Qed.

Lemma dispatch_cars_kept t type v s : cars_kept s (dispatch t type v s).
Proof.
  unfold dispatch. apply cars_kept_fold. intros s' l.
  apply cars_kept_task, call_same_cars.
Qed.

Lemma createScene_same_uncaught cv :
  respects (same (fun s => (wheels (svc s), uncaught (env s)))) (createScene cv).
Proof. unfold createScene. respects_tac; same_write. Qed.

Lemma onLoad_same_loads rq g :
  respects (same (fun s => (loads (env s), uncaught (env s)))) (onLoad rq g).
Proof. unfold onLoad. respects_tac; same_write. Qed.

(** Whether a colour input is missing can be decided. *)
Lemma inputs_present_dec s :
  inputs_present s \/ exists id, id ∈ color_inputs /\ id ∉ dom (env s).
Proof.
  destruct (decide (Forall (fun id => id ∈ dom (env s)) color_inputs)) as [H|H].
  - left. intros id Hid. revert id Hid. apply Forall_forall, H.
  - right. apply not_Forall_Exists in H; [|intros x; apply _].
    apply Exists_exists in H as (id & Hid & Hn). eauto.
Qed.

(** The creation of a component that completes starts one load. *)
Lemma ngOnInit_cars cv s :
  (exists s' rq, ngOnInit cv s = (Normal tt, s') /\
     wheels (svc s') = wheels (svc s) /\ loads (env s') = loads (env s) ++ [rq] /\
     uncaught (env s') = uncaught (env s)) \/
  (exists e s', ngOnInit cv s = (Throw e, s') /\ uncaught (env s') = uncaught (env s)).
Proof.
  unfold ngOnInit.
  destruct (inputs_present_dec s) as [Hin|(id & Hid & Hout)].
  - destruct (createScene_normal cv s Hin)
      as (s1 & rd & cam & sc & so & go & m1 & m2 & m3 & E & Hsvc & _ & _ & _ & _ & _ & _ & Henv & _).
    rewrite (bind_normal _ _ _ _ _ E).
    pose proof (animate_same_cars s1) as Ha.
    unfold same, cars_view in Ha. injection Ha as W L U.
    destruct (animate s1) as [[[]|e] s2]; cbn [snd] in W, L, U.
    + left. exists s2, (mkLoadRequest "assets/gltf/ferrari.glb"
            (length (materials s)) (S (length (materials s))) (S (S (length (materials s))))
            "assets/gltf/ferrari_ao.png").
      split; [reflexivity|]. rewrite W, L, U, Hsvc, Henv. auto.
    + right. exists e, s2. split; [reflexivity|]. rewrite U, Henv. reflexivity.
  - destruct (createScene_without_input s cv id Hid Hout) as (what & s1 & E & _).
    rewrite (bind_throw _ _ _ _ _ E).
    right. exists (TypeError what), s1. split; [reflexivity|].
    pose proof (createScene_same_uncaught cv s) as H. rewrite E in H.
    unfold same in H. cbn [snd] in H. injection H as _ U. exact U.
Qed.

Lemma length_remove_nth {A} (l : list A) i x :
  l !! i = Some x -> S (length (remove_nth i l)) = length l.
Proof.
  intros H. apply lookup_lt_Some in H. unfold remove_nth.
  rewrite length_app, length_take, length_drop. lia.
Qed.

(** A load that completes pays four wheels; one that throws is an error. *)
Lemma load_cars rq gltf s :
  let m := (let* g := build_node None gltf in onLoad rq g) in
  (exists s', m s = (Normal tt, s') /\
     length (wheels (svc s')) = (length (wheels (svc s)) + 4)%nat /\
     loads (env s') = loads (env s) /\ uncaught (env s') = uncaught (env s)) \/
  (exists e s', m s = (Throw e, s') /\ uncaught (env s') = uncaught (env s)).
Proof.
  intros m. subst m.
  pose proof (same_build_node cars_view gltf None
                ltac:(reflexivity) ltac:(reflexivity) s) as Hb.
  unfold same, cars_view in Hb. injection Hb as W L U.
  destruct (build_node None gltf s) as [[g|e] s1] eqn:Eb; cbn [snd] in W, L, U.
  2:{ right. exists e, s1. rewrite (bind_throw _ _ _ _ _ Eb). auto. }
  rewrite (bind_normal _ _ _ _ _ Eb).
  pose proof (onLoad_same_loads rq g s1) as Hl.
  unfold same in Hl. injection Hl as L' U'.
  destruct (onLoad rq g s1) as [[[]|e] s2] eqn:El; cbn [snd] in L', U'.
  - left. exists s2. split; [reflexivity|].
    destruct (onLoad_normal _ _ _ _ El) as (gs & car & rs & _ & _ & Hw & _).
    rewrite Hw, length_app, W, L', U', L, U. cbn. auto.
  - right. exists e, s2. split; [reflexivity|]. congruence.
Qed.

(** One task: no error is taken back, and when none is added, what is owed
    grows by four for a new component and stays for anything else. *)
Lemma step_cars e s :
  length (uncaught (env s)) <= length (uncaught (env (step e s))) /\
  (length (uncaught (env (step e s))) = length (uncaught (env s)) ->
   length (wheels (svc s)) <= length (wheels (svc (step e s))) /\
   cars_owed (step e s) = (cars_owed s + (if is_init e then 4 else 0))%nat).
Proof.
  assert (Kept : forall s', cars_kept s s' ->
            length (uncaught (env s)) <= length (uncaught (env s')) /\
            (length (uncaught (env s')) = length (uncaught (env s)) ->
             length (wheels (svc s)) <= length (wheels (svc s')) /\
             cars_owed s' = (cars_owed s + 0)%nat)).
  { intros s' (W & L & U). split; [exact U|]. intros _.
    unfold cars_owed. rewrite W, L. lia. }
  destruct e as [cv| |now| |w h| |id type v|i gltf]; cbn [step is_init].
  - (* ComponentInit *)
    destruct (ngOnInit_cars cv s) as [(s' & rq & E & W & L & U)|(e & s' & E & U)];
      unfold task; rewrite E.
    + rewrite U. split; [lia|]. intros _. unfold cars_owed.
      rewrite W, L, length_app. cbn. lia.
    + cbn. rewrite U. split; [lia|]. lia.
  - apply Kept, cars_kept_task, ngOnDestroy_same_cars.
  - apply Kept. destruct (clock (env s) <=? now); [|apply cars_kept_refl].
    unfold cars_kept. cbn. auto.
  - apply Kept.
    eapply cars_kept_trans; [|apply cars_kept_fold; intros s' c; apply cars_kept_task, call_same_cars].
    unfold cars_kept. cbn. auto.
  - apply Kept.
    eapply cars_kept_trans; [|apply dispatch_cars_kept]. unfold cars_kept. cbn. auto.
  - apply Kept. destruct (readyState (env s)); try apply cars_kept_refl.
    eapply cars_kept_trans; [|apply dispatch_cars_kept]. unfold cars_kept. cbn. auto.
  - apply Kept, dispatch_cars_kept.
  - (* GltfLoaded *)
    destruct (loads (env s) !! i) as [rq|] eqn:Ei; [|apply Kept, cars_kept_refl].
    set (s0 := with_env (fun b => set_loads (remove_nth i (loads b)) b) s).
    pose proof (length_remove_nth _ _ _ Ei) as Hlen.
    destruct (load_cars rq gltf s0) as [(s' & E & W & L & U)|(e & s' & E & U)];
      unfold task; rewrite E.
    + rewrite U. split; [reflexivity|]. intros _. unfold cars_owed.
      rewrite W, L. cbn. lia.
    + cbn. rewrite U. split; [cbn; lia|]. cbn. lia.
Qed.

Lemma run_uncaught evs : forall s,
  length (uncaught (env s)) <= length (uncaught (env (run evs s))).
Proof.
  induction evs as [|e evs IH]; intros s; cbn [run fold_left]; [lia|].
  etransitivity; [apply (step_cars e s) | apply IH].
Qed.

Lemma run_cars evs : forall s,
  uncaught (env (run evs s)) = [] ->
  length (wheels (svc s)) <= length (wheels (svc (run evs s))) /\
  cars_owed (run evs s) = (cars_owed s + 4 * count_init evs)%nat.
Proof.
  induction evs as [|e evs IH]; intros s Hno.
  - cbn. unfold count_init. cbn. lia.
  - change (run (e :: evs) s) with (run evs (step e s)) in *.
    destruct (IH _ Hno) as [IHw IHo].
    pose proof (run_uncaught evs (step e s)) as Hmono. rewrite Hno in Hmono. cbn in Hmono.
    destruct (step_cars e s) as [Hle Hstep].
    destruct Hstep as [Hw Ho]; [lia|].
    split; [lia|]. rewrite IHo, Ho. unfold count_init. cbn [List.filter].
    destruct (is_init e); cbn [length]; lia.
Qed.

(** C9: [createScene] leaves the wheel list as it is, whatever it holds; a
    completion callback that completes adds four entries to it; so when, on
    a page that was just opened, all tasks so far completed and no load is
    under way, the list holds four entries for each component that was
    created. Two components on the one service make eight. *)
Theorem createScene_never_resets_wheels
    (ids : list string) (rs : ReadyState) (w h dpr now : float) (evs : list Event) :
  let s := run evs (boot (new_page ids rs w h dpr now)) in
  uncaught (env s) = [] ->
  loads (env s) = [] ->
  (forall cv s0, wheels (svc (snd (createScene cv s0))) = wheels (svc s0)) /\
  (forall rq g s0 s1, onLoad rq g s0 = (Normal tt, s1) ->
     length (wheels (svc s1)) = (length (wheels (svc s0)) + 4)%nat) /\
  length (wheels (svc s)) = (4 * count_init evs)%nat /\
  (count_init evs = 2%nat -> length (wheels (svc s)) = 8%nat).
Proof.
  intros s Hno Hloads.
  assert (Hlen : length (wheels (svc s)) = (4 * count_init evs)%nat).
  { destruct (run_cars evs _ Hno) as [_ Ho]. fold s in Ho.
    unfold cars_owed in Ho. rewrite Hloads in Ho. cbn in Ho. lia. }
  split; [|split; [|split]].
  - intros cv s0. pose proof (createScene_same_uncaught cv s0) as H.
    unfold same in H. injection H as W _. exact W.
  - intros rq g s0 s1 E.
    destruct (onLoad_normal _ _ _ _ E) as (gs & car & rs' & _ & _ & Hw & _).
    rewrite Hw, length_app. reflexivity.
  - exact Hlen.
  - intros H2. rewrite Hlen, H2. reflexivity.
Qed.

Lemma createScene_never_resets_wheels_witness :
  let evs := [ComponentInit sample_canvas; GltfLoaded 0 ferrari;
              ComponentInit sample_canvas; Tick 16; AnimationFrame; GltfLoaded 0 ferrari] in
  let s := run evs (boot (new_page ["body-color"; "details-color"; "glass-color"]
                            Complete 800 600 1 0)) in
  (forall cv s0, wheels (svc (snd (createScene cv s0))) = wheels (svc s0)) /\
  (forall rq g s0 s1, onLoad rq g s0 = (Normal tt, s1) ->
     length (wheels (svc s1)) = (length (wheels (svc s0)) + 4)%nat) /\
  length (wheels (svc s)) = (4 * count_init evs)%nat /\
  (count_init evs = 2%nat -> length (wheels (svc s)) = 8%nat).
Proof.
  intros evs s.
  apply (createScene_never_resets_wheels
           ["body-color"; "details-color"; "glass-color"] Complete 800 600 1 0 evs);
    vm_compute; reflexivity.
Defined.

(** ** The render loop (C5) *)

Lemma bind_respects_cases {A B} (R : State -> State -> Prop)
    (m : M State A) (k : A -> M State B) s :
  respects R m ->
  (exists e s1, bind m k s = (Throw e, s1) /\ R s s1) \/
  (exists a s1, bind m k s = k a s1 /\ R s s1).
Proof.
  intros Hm. specialize (Hm s). unfold bind.
  destruct (m s) as [[a|e] s1]; cbn [snd] in Hm; eauto.
Qed.

(** *** What leaves the loop alone *)

Lemma resize_quiet : respects (same quiet_view) resize.
Proof. unfold resize. respects_tac; same_write. Qed.

Lemma onLoad_quiet rq g : respects (same quiet_view) (onLoad rq g).
Proof. unfold onLoad. respects_tac; same_write. Qed.

Lemma load_quiet rq gltf :
  respects (same quiet_view) (let* g := build_node None gltf in onLoad rq g).
Proof.
  apply respects_bind; [apply same_trans | | intros g; apply onLoad_quiet].
  apply same_build_node; reflexivity.
Qed.

Lemma call_quiet v h : h <> CallRender -> respects (same quiet_view) (call v h).
Proof.
  destruct h as [m| |]; cbn [call]; intros Hh; [|congruence|apply resize_quiet].
  destruct v; respects_tac; same_write.
Qed.

Lemma task_quiet m s : respects (same quiet_view) m -> quiet_view (task m s) = quiet_view s.
Proof.
  intros Hm. apply (respects_task (same quiet_view) (same_trans _) m Hm).
  intros s' e. reflexivity.
Qed.

Lemma createScene_same_loop cv :
  respects (same (fun s => (raf_queue (env s), raf_next (env s), frameId (svc s),
                            readyState (env s), dom (env s), render_calls s,
                            draws (env s))))
    (createScene cv).
Proof. unfold createScene. respects_tac; same_write. Qed.

Lemma adds_quiet_listeners_refl s : adds_quiet_listeners s s.
Proof. exists []. rewrite app_nil_r. auto. Qed.

Lemma adds_quiet_listeners_trans s1 s2 s3 :
  adds_quiet_listeners s1 s2 -> adds_quiet_listeners s2 s3 -> adds_quiet_listeners s1 s3.
Proof.
  intros (n1 & E1 & F1) (n2 & E2 & F2). exists (n1 ++ n2).
  rewrite E2, E1, app_assoc. split; [reflexivity|]. apply Forall_app; auto.
Qed.

#[local] Hint Resolve adds_quiet_listeners_refl adds_quiet_listeners_trans : respects.

Lemma createScene_listeners cv : respects adds_quiet_listeners (createScene cv).
Proof.
  unfold createScene. respects_tac;
    first [ exists []; cbn; rewrite app_nil_r; split; [reflexivity | constructor]
          | eexists [_]; cbn; split; [reflexivity | repeat constructor] ].
Qed.

(** *** One call of [render] requests one frame at most *)

Lemma render_loop (s : State) :
  let s' := snd (render s) in
  listeners (env s') = listeners (env s) /\
  readyState (env s') = readyState (env s) /\
  ((raf_queue (env s') = raf_queue (env s) /\ frameId (svc s') = frameId (svc s)) \/
   (raf_queue (env s') = raf_queue (env s) ++ [(raf_next (env s), CallRender)] /\
    frameId (svc s') = Some (raf_next (env s)))).
Proof.
  set (view := fun s => (raf_queue (env s), raf_next (env s), frameId (svc s),
                         listeners (env s), readyState (env s))).
  set (P := fun s1 =>
    listeners (env s1) = listeners (env s) /\
    readyState (env s1) = readyState (env s) /\
    ((raf_queue (env s1) = raf_queue (env s) /\ frameId (svc s1) = frameId (svc s)) \/
     (raf_queue (env s1) = raf_queue (env s) ++ [(raf_next (env s), CallRender)] /\
      frameId (svc s1) = Some (raf_next (env s))))).
  assert (Hfin : forall s1, view s1 = view s -> P s1).
  { intros s1 [= Q N F L RS]. unfold P. auto. }
  change (P (snd (render s))).
  unfold render. rewrite bind_modify.
  unfold the_env at 1. rewrite bind_gets.
  unfold the_svc at 1. rewrite bind_gets.
  match goal with |- context [bind (for_each ?b ?l) ?k ?st] =>
    assert (Hloop : respects (same view) (for_each b l))
      by (unfold rotate_wheel; respects_tac; same_write);
    destruct (bind_respects_cases (same view) (for_each b l) k st Hloop)
      as [(e & s1 & -> & V1)|([] & s1 & -> & V1)]
  end.
  { apply Hfin. etransitivity; [exact V1 | reflexivity]. }
  unfold the_svc at 1. rewrite bind_gets.
  destruct (grid (svc s1)) as [g|];
    [|apply Hfin; etransitivity; [exact V1 | reflexivity]].
  cbn [deref]. rewrite bind_ret.
  match goal with |- context [bind (update_object ?r ?f) ?k ?st] =>
    assert (Hgrid : respects (same view) (update_object r f))
      by (respects_tac; same_write);
    destruct (bind_respects_cases (same view) (update_object r f) k st Hgrid)
      as [(e & s2 & -> & V2)|([] & s2 & -> & V2)]
  end.
  { apply Hfin. etransitivity; [exact V2 | etransitivity; [exact V1 | reflexivity]]. }
  assert (V : view s2 = view s)
    by (etransitivity; [exact V2 | etransitivity; [exact V1 | reflexivity]]).
  injection V as Q N F L RS.
  unfold requestAnimationFrame at 1. unfold bind at 1. rewrite bind_modify.
  match goal with |- P (snd (?post ?st)) =>
    assert (Hr : respects (same view) post) by (respects_tac; same_write);
    pose proof (Hr st) as Hpost;
    generalize dependent (snd (post st))
  end.
  intros s3 Hpost.
  unfold same, view in Hpost. cbn in Hpost. injection Hpost as Q' N' F' L' RS'.
  unfold P. rewrite L', RS', Q', F', Q, N, L, RS. auto.
Qed.

(** *** Tasks and dispatch *)

Lemma task_loop_view m s : loop_view (task m s) = loop_view (snd (m s)).
Proof. unfold task. destruct (m s) as [[a|e] s']; reflexivity. Qed.

Lemma fold_quiet v (L : list Listener) :
  Forall (fun l => starts_render l = false) L ->
  forall s, quiet_view (fold_left (fun s l => task (call v (l_handler l)) s) L s)
            = quiet_view s.
Proof.
  induction 1 as [|l L Hl _ IH]; intros s; cbn [fold_left]; [reflexivity|].
  rewrite IH. apply task_quiet, call_quiet.
  unfold starts_render in Hl. destruct (l_handler l); congruence.
Qed.

Lemma EventTarget_eqb_eq a b : EventTarget_eqb a b = true -> a = b.
Proof.
  destruct a as [|x], b as [|y]; cbn; try discriminate; [reflexivity|].
  intros H. apply String.eqb_eq in H. congruence.
Qed.

Lemma listens_inv t type l :
  listens t type l = true -> l_target l = t /\ l_type l = type.
Proof.
  unfold listens. intros H. apply andb_true_iff in H as [Ht Hty].
  split; [apply EventTarget_eqb_eq, Ht | apply String.eqb_eq, Hty].
Qed.

(** Only the end of the loading of the document runs listeners that call
    [render]. *)
Lemma dispatch_quiet t type v s :
  Forall render_listener_ok (listeners (env s)) ->
  (t, type) <> (Window, "DOMContentLoaded") ->
  quiet_view (dispatch t type v s) = quiet_view s.
Proof.
  intros F Hne. unfold dispatch. apply fold_quiet.
  apply Forall_forall. intros l Hl.
  apply list_elem_of_In, filter_In in Hl as [Hl Hm].
  apply list_elem_of_In in Hl.
  destruct (starts_render l) eqn:E; [|reflexivity].
  rewrite Forall_forall in F. destruct (F l Hl E) as [Ht Hty].
  apply listens_inv in Hm as [Ht' Hty']. congruence.
Qed.

Lemma loop_ok_view s s' : loop_view s' = loop_view s -> loop_ok s -> loop_ok s'.
Proof.
  unfold loop_view, loop_ok. intros [= Q N F L RS D]. rewrite Q, F. auto.
Qed.

Lemma single_loop_view s s' : loop_view s' = loop_view s -> single_loop s -> single_loop s'.
Proof.
  intros V. pose proof (loop_ok_view s s' V) as Hok.
  unfold loop_view in V. injection V as Q N F L RS D.
  unfold single_loop. rewrite Q, L, RS. tauto.
Qed.

Lemma quiet_loop_view s s' : quiet_view s' = quiet_view s -> loop_view s' = loop_view s.
Proof. unfold quiet_view. congruence. Qed.

(** A call of [render] with no frame requested leaves none or its own. *)
Lemma task_render_loop_ok s :
  raf_queue (env s) = [] ->
  loop_ok (task render s) /\
  listeners (env (task render s)) = listeners (env s) /\
  readyState (env (task render s)) = readyState (env s).
Proof.
  intros Hq. pose proof (task_loop_view render s) as V.
  destruct (render_loop s) as (L & RS & Hcase). cbv zeta in *.
  unfold loop_view in V. injection V as Q N F L' RS' D.
  unfold loop_ok. rewrite Q, F, L', RS'. repeat split; auto.
  destruct Hcase as [[Hq' _]|[Hq' Hf]].
  - left. congruence.
  - right. exists (raf_next (env s)). rewrite Hq', Hq, Hf. auto.
Qed.

(** Listeners of which one at most calls [render], run in a row. *)
Lemma fold_single v (L : list Listener) : forall s,
  loop_ok s ->
  length (List.filter starts_render L) <= 1 ->
  (raf_queue (env s) <> [] -> List.filter starts_render L = []) ->
  let s' := fold_left (fun s l => task (call v (l_handler l)) s) L s in
  loop_ok s' /\ listeners (env s') = listeners (env s) /\
  readyState (env s') = readyState (env s).
Proof.
  induction L as [|l L IH]; intros s Hok Hone Hrun; cbn [fold_left]; [auto|].
  cbn [List.filter] in Hone, Hrun.
  destruct (starts_render l) eqn:E.
  - cbn [length] in Hone.
    assert (Hq : raf_queue (env s) = []).
    { destruct (raf_queue (env s)) eqn:Eq; [reflexivity|].
      discriminate Hrun. congruence. }
    unfold starts_render in E. destruct (l_handler l); try discriminate. cbn [call].
    destruct (task_render_loop_ok s Hq) as (Hok1 & L1 & RS1).
    destruct (IH (task render s) Hok1) as (Hok2 & L2 & RS2).
    + lia.
    + intros _. destruct (List.filter starts_render L); [reflexivity | cbn in Hone; lia].
    + cbv zeta in *. rewrite L2, RS2. auto.
  - assert (V : quiet_view (task (call v (l_handler l)) s) = quiet_view s).
    { apply task_quiet, call_quiet. unfold starts_render in E.
      destruct (l_handler l); congruence. }
    apply quiet_loop_view in V. pose proof V as V'.
    unfold loop_view in V'. injection V' as Q N F Ls RS D.
    destruct (IH (task (call v (l_handler l)) s)) as (Hok2 & L2 & RS2).
    + eapply loop_ok_view; eauto.
    + exact Hone.
    + rewrite Q. exact Hrun.
    + cbv zeta in *. rewrite L2, RS2. auto.
Qed.

(** *** The loop over the events *)

Lemma filter_own_frame (id : nat) (h : Handler) :
  filter (fun c : nat * Handler => fst c <> id) [(id, h)] = [].
Proof.
  rewrite filter_cons. destruct (decide (fst (id, h) <> id)) as [Hne|_];
    [cbn in Hne; congruence | reflexivity].
Qed.

(** [ngOnDestroy] takes the frame of the service out of the queue and
    leaves the rest. *)
Lemma ngOnDestroy_effect s :
  let s' := task ngOnDestroy s in
  raf_queue (env s') =
    match frameId (svc s) with
    | Some id => filter (fun c => fst c <> id) (raf_queue (env s))
    | None => raf_queue (env s)
    end /\
  (raf_next (env s'), frameId (svc s'), listeners (env s'), readyState (env s'),
   dom (env s'), render_calls s', draws (env s'))
  = (raf_next (env s), frameId (svc s), listeners (env s), readyState (env s),
     dom (env s), render_calls s, draws (env s)).
Proof.
  unfold task, ngOnDestroy, the_svc, cancelAnimationFrame. rewrite bind_gets.
  destruct (frameId (svc s)) eqn:E; cbn; rewrite ?E; auto.
Qed.

Lemma single_loop_step e s :
  is_init e = false -> single_loop s -> single_loop (step e s).
Proof.
  intros He Hs. pose proof Hs as [HF Hcase].
  destruct e as [cv| |now| |w h| |id type v|i gltf]; cbn [step]; [discriminate| | | | | | |].
  - (* ServiceDestroy *)
    destruct (ngOnDestroy_effect s) as [Hq Hv]. cbv zeta in *.
    injection Hv as N F L RS D RC DR.
    unfold single_loop, loop_ok. rewrite L, RS, Hq. split; [exact HF|].
    destruct Hcase as [(Hrs & Hq0 & Hone)|(Hrs & Hok)].
    + left. rewrite Hq0. repeat split; auto. destruct (frameId (svc s)); reflexivity.
    + right. split; [exact Hrs|]. left.
      destruct Hok as [Hq0|(id & Hq0 & Hf)]; rewrite Hq0.
      * destruct (frameId (svc s)); reflexivity.
      * rewrite Hf. apply filter_own_frame.
  - (* Tick *)
    destruct (clock (env s) <=? now); [|exact Hs].
    eapply single_loop_view; [|exact Hs]. reflexivity.
  - (* AnimationFrame *)
    set (s0 := with_env (fun b => set_raf [] (raf_next b) b) s).
    assert (Hs0 : raf_queue (env s0) = []) by reflexivity.
    assert (Hstay : raf_queue (env s) = [] -> single_loop s0).
    { intros Hq. eapply single_loop_view; [|exact Hs].
      unfold loop_view, s0. cbn. rewrite Hq. reflexivity. }
    destruct Hcase as [(Hrs & Hq0 & Hone)|(Hrs & [Hq0|(id & Hq0 & Hf)])];
      rewrite Hq0; cbn [fold_left]; auto.
    cbn [snd call].
    destruct (task_render_loop_ok s0 Hs0) as (Hok & L & RS).
    unfold single_loop. rewrite L, RS. split; [exact HF|]. right. auto.
  - (* WindowResize *)
    eapply single_loop_view; [|exact Hs].
    etransitivity; [apply quiet_loop_view, dispatch_quiet|]; [exact HF|congruence|reflexivity].
  - (* DOMContentLoaded *)
    destruct (readyState (env s)) eqn:Ers; try exact Hs.
    destruct Hcase as [(_ & Hq0 & Hone)|(Hrs & _)]; [|congruence].
    set (s0 := with_env (set_readyState Interactive) s).
    unfold dispatch.
    destruct (fold_single None (List.filter (listens Window "DOMContentLoaded")
                                  (listeners (env s0))) s0) as (Hok & L & RS).
    + left. exact Hq0.
    + etransitivity; [|exact Hone]. cbn [s0 env with_env set_readyState listeners].
      clear. induction (listeners (env s)) as [|l ls IH]; cbn; [lia|].
      destruct (listens Window "DOMContentLoaded" l); cbn;
        destruct (starts_render l); cbn; lia.
    + intros Hne. exfalso. apply Hne. exact Hq0.
    + cbv zeta in *. unfold single_loop. rewrite L, RS. split; [exact HF|].
      right. split; [discriminate | exact Hok].
  - (* InputEvent *)
    eapply single_loop_view; [|exact Hs].
    apply quiet_loop_view, dispatch_quiet; [exact HF | congruence].
  - (* GltfLoaded *)
    destruct (loads (env s) !! i) as [rq|]; [|exact Hs].
    eapply single_loop_view; [|exact Hs].
    etransitivity; [apply quiet_loop_view, task_quiet, load_quiet | reflexivity].
Qed.

Lemma single_loop_run evs : forall s,
  no_init evs -> single_loop s -> single_loop (run evs s).
Proof.
  induction evs as [|e evs IH]; intros s Hno Hs; [exact Hs|].
  apply Forall_cons in Hno as [He Hno].
  change (run (e :: evs) s) with (run evs (step e s)).
  apply IH; [exact Hno | apply single_loop_step; assumption].
Qed.

(** The first component starts one loop. *)
Lemma single_loop_init cv s : no_loop s -> single_loop (step (ComponentInit cv) s).
Proof.
  intros [Hq HF]. cbn [step].
  assert (Hquiet : forall s1 new,
            listeners (env s1) = listeners (env s) ++ new ->
            Forall (fun l => starts_render l = false) new ->
            Forall (fun l => starts_render l = false) (listeners (env s1))).
  { intros s1 new -> Hn. apply Forall_app. auto. }
  assert (Hok_of_quiet : forall ls, Forall (fun l => starts_render l = false) ls ->
            Forall render_listener_ok ls /\ List.filter starts_render ls = []).
  { intros ls H. split.
    - eapply Forall_impl; [exact H|]. intros l E E'. congruence.
    - induction H as [|l ls E _ IH]; cbn; [reflexivity|]. rewrite E. exact IH. }
  (* createScene *)
  pose proof (createScene_same_loop cv s) as Hc.
  pose proof (createScene_listeners cv s) as (new & Hl & Hnew).
  unfold same in Hc. injection Hc as Q1 N1 F1 RS1 D1 RC1 DR1.
  unfold ngOnInit, task, bind.
  destruct (createScene cv s) as [[[]|e] s1]; cbn [snd] in *.
  2:{ (* createScene throws: no loop *)
    destruct (Hok_of_quiet _ (Hquiet _ _ Hl Hnew)) as [Hro Hnone].
    unfold single_loop, loop_ok. cbn. rewrite Q1, RS1, Hq, Hnone. split; [exact Hro|].
    destruct (readyState (env s)) eqn:E; [left; cbn; auto | right | right];
      (split; [discriminate | auto]). }
  pose proof (Hquiet _ _ Hl Hnew) as Hq1. clear Hl Hnew new.
  destruct (Hok_of_quiet _ Hq1) as [Hro Hnone].
  assert (Hq1' : raf_queue (env s1) = []) by congruence.
  unfold animate, the_env. rewrite bind_gets.
  destruct (readyState (env s1)) eqn:Ers.
  - (* loading: the listener waits *)
    cbn. unfold single_loop, loop_ok. cbn. rewrite Ers, Hq1'.
    split.
    + repeat (apply Forall_app; split); [exact Hro | |];
        apply Forall_singleton; intros E; cbn in *; auto; discriminate.
    + left. repeat split. rewrite !List.filter_app, Hnone. cbn. lia.
  - (* interactive: render now *)
    destruct (task_render_loop_ok s1 Hq1') as (Hok & L & RS).
    unfold task in Hok, L, RS. unfold bind.
    destruct (render s1) as [[[]|e] s2]; cbn [fst snd] in *.
    + unfold single_loop, loop_ok. cbn. rewrite L, RS, Ers.
      split; [|right; split; [discriminate | exact Hok]].
      apply Forall_app; split; [exact Hro|]. apply Forall_singleton. intros E. discriminate.
    + unfold single_loop. unfold loop_ok in *. cbn in *. rewrite L, RS, Ers.
      split; [exact Hro|]. right. split; [discriminate | exact Hok].
  - (* complete: render now *)
    destruct (task_render_loop_ok s1 Hq1') as (Hok & L & RS).
    unfold task in Hok, L, RS. unfold bind.
    destruct (render s1) as [[[]|e] s2]; cbn [fst snd] in *.
    + unfold single_loop, loop_ok. cbn. rewrite L, RS, Ers.
      split; [|right; split; [discriminate | exact Hok]].
      apply Forall_app; split; [exact Hro|]. apply Forall_singleton. intros E. discriminate.
    + unfold single_loop. unfold loop_ok in *. cbn in *. rewrite L, RS, Ers.
      split; [exact Hro|]. right. split; [discriminate | exact Hok].
Qed.

(** *** After the cancellation *)

Lemma stopped_view s s' : quiet_view s' = quiet_view s -> stopped s -> stopped s'.
Proof.
  intros V. apply quiet_loop_view in V. unfold loop_view in V.
  injection V as Q N F L RS D. unfold stopped. rewrite Q, L, RS. auto.
Qed.

Lemma stopped_step e s :
  is_init e = false -> stopped s -> quiet_view (step e s) = quiet_view s.
Proof.
  intros He (Hq & Hrs & HF).
  destruct e as [cv| |now| |w h| |id type v|i gltf]; cbn [step]; [discriminate| | | | | | |].
  - destruct (ngOnDestroy_effect s) as [Hq' Hv]. cbv zeta in *.
    injection Hv as N F L RS D RC DR.
    unfold quiet_view, loop_view. rewrite Hq', N, F, L, RS, D, RC, DR, Hq.
    destruct (frameId (svc s)); reflexivity.
  - destruct (clock (env s) <=? now); reflexivity.
  - rewrite Hq. cbn [fold_left]. unfold quiet_view, loop_view. cbn. rewrite Hq. reflexivity.
  - etransitivity; [apply dispatch_quiet|]; [exact HF | congruence | reflexivity].
  - destruct (readyState (env s)); [congruence | reflexivity | reflexivity].
  - apply dispatch_quiet; [exact HF | congruence].
  - destruct (loads (env s) !! i) as [rq|]; [|reflexivity].
    etransitivity; [apply task_quiet, load_quiet | reflexivity].
Qed.

Lemma stopped_run evs : forall s,
  no_init evs -> stopped s -> quiet_view (run evs s) = quiet_view s.
Proof.
  induction evs as [|e evs IH]; intros s Hno Hs; [reflexivity|].
  apply Forall_cons in Hno as [He Hno].
  change (run (e :: evs) s) with (run evs (step e s)).
  pose proof (stopped_step e s He Hs) as V.
  rewrite IH; [exact V | exact Hno | eapply stopped_view; eauto].
Qed.

(** C5 (amended): on a page that was just opened, let one component be
    created and any events follow that create no other component. When
    [ngOnDestroy] runs while a frame is pending, the queue of frames is
    empty afterwards, and through all later events that create no
    component it stays empty, no frame is requested, [render] is not
    called and nothing is drawn. *)
Theorem destroy_stops_single_loop
    (ids : list string) (rs : ReadyState) (w h dpr now : float)
    (cv : ElementRef) (evs1 evs2 : list Event) :
  no_init evs1 ->
  no_init evs2 ->
  let s := run evs1 (step (ComponentInit cv) (boot (new_page ids rs w h dpr now))) in
  raf_queue (env s) <> [] ->
  let sd := step ServiceDestroy s in
  let sf := run evs2 sd in
  raf_queue (env sd) = [] /\
  raf_queue (env sf) = [] /\
  raf_next (env sf) = raf_next (env sd) /\
  render_calls sf = render_calls sd /\
  draws (env sf) = draws (env sd).
Proof.
  intros Hno1 Hno2 s Hpending sd sf.
  assert (Hs : single_loop s).
  { apply single_loop_run; [exact Hno1|]. apply single_loop_init.
    split; [reflexivity | constructor]. }
  assert (Hsd : stopped sd).
  { destruct Hs as [HF [(_ & Hq & _)|(Hrs & [Hq|(id & Hq & Hf)])]]; try congruence.
    destruct (ngOnDestroy_effect s) as [Hq' Hv]. cbv zeta in *.
    injection Hv as N F L RS D RC DR.
    unfold stopped, sd. cbn [step]. rewrite Hq', L, RS, Hf, Hq, filter_own_frame. auto. }
  pose proof (stopped_run evs2 sd Hno2 Hsd) as V. fold sf in V.
  unfold quiet_view, loop_view in V. injection V as Q N F L RS D RC DR.
  destruct Hsd as (Hq & _). rewrite Q, N, RC, DR. auto.
Qed.

Lemma destroy_stops_single_loop_witness :
  let s := run [Tick 16; AnimationFrame; GltfLoaded 0 ferrari; Tick 33; AnimationFrame]
             (step (ComponentInit sample_canvas) (boot sample_page)) in
  let sd := step ServiceDestroy s in
  let sf := run [Tick 50; AnimationFrame; WindowResize 1024 768; DOMContentLoaded;
                 InputEvent "body-color" "change" (Some 0x00ff00%Z); AnimationFrame] sd in
  raf_queue (env sd) = [] /\
  raf_queue (env sf) = [] /\
  raf_next (env sf) = raf_next (env sd) /\
  render_calls sf = render_calls sd /\
  draws (env sf) = draws (env sd).
Proof.
  apply (destroy_stops_single_loop
           ["rendererCanvas"; "body-color"; "details-color"; "glass-color"]
           Complete 800 600 1 0 sample_canvas
           [Tick 16; AnimationFrame; GltfLoaded 0 ferrari; Tick 33; AnimationFrame]
           [Tick 50; AnimationFrame; WindowResize 1024 768; DOMContentLoaded;
            InputEvent "body-color" "change" (Some 0x00ff00%Z); AnimationFrame]).
  - repeat constructor.
  - repeat constructor.
  - vm_compute. discriminate.
Defined.

(** C5 as stated fails when two components were created on the one
    service: two loops run, [ngOnDestroy] cancels the frame of the loop
    that requested last, and the next display refresh calls [render] for
    the other, which draws and requests a frame again. *)
Lemma destroy_leaves_second_loop_counterexample :
  let s := run [ComponentInit sample_canvas; ComponentInit sample_canvas;
                Tick 16; AnimationFrame] (boot sample_page) in
  let sd := step ServiceDestroy s in
  let sf := run [Tick 33; AnimationFrame] sd in
  fst <$> raf_queue (env s) = [3; 4]%nat /\ frameId (svc s) = Some 4%nat /\
  fst <$> raf_queue (env sd) = [3]%nat /\
  render_calls sf = S (render_calls sd) /\
  length (draws (env sf)) = S (length (draws (env sd))) /\
  fst <$> raf_queue (env sf) = [5]%nat /\
  uncaught (env sf) = [].
Proof. vm_compute. repeat split; reflexivity. Qed.

(** ** Rendering before the model has arrived (C6) *)

Lemma is_grid_keeps s s' g : keeps_geometry s s' -> is_grid s g -> is_grid s' g.
Proof.
  intros K (go & Ho & Hg). destruct (K g go Ho) as (o' & Ho' & Hg').
  exists o'. split; [exact Ho' | congruence].
Qed.

Lemma keeps_geometry_objects s s' : objects s' = objects s -> keeps_geometry s s'.
Proof. intros E r o Ho. rewrite E. eauto. Qed.

Lemma keeps_geometry_app s s' new : objects s' = objects s ++ new -> keeps_geometry s s'.
Proof.
  intros E r o Ho. rewrite E, lookup_app_l by (eapply lookup_lt_Some; eauto). eauto.
Qed.

Lemma keeps_geometry_insert s s' r o o' :
  objects s !! r = Some o -> geometry o' = geometry o ->
  objects s' = <[r := o']> (objects s) -> keeps_geometry s s'.
Proof.
  intros Ho Hg E r' o1 Ho1. rewrite E.
  destruct (decide (r = r')) as [<-|Hne].
  - rewrite list_lookup_insert_eq by (eapply lookup_lt_Some; eauto).
    exists o'. split; [reflexivity | congruence].
  - rewrite list_lookup_insert_ne by exact Hne. eauto.
Qed.

Lemma only_grid_keeps s s' d : keeps_geometry s s' -> only_grid s d -> only_grid s' d.
Proof.
  intros K (Hb & g & Hc & Hg). split; [exact Hb|]. exists g. split; [exact Hc|].
  eapply is_grid_keeps; eauto.
Qed.

(** The invariant survives a change that keeps the objects and their
    geometries, the materials, the inputs, and adds no error. *)
Lemma before_load_kept s s' :
  before_load s ->
  keeps_geometry s s' ->
  wheels (svc s') = [] ->
  uncaught (env s') = [] ->
  dom (env s') = dom (env s) ->
  handlers_ok s' ->
  Forall (only_grid s') (draws (env s')) ->
  scene_with_grid s' ->
  before_load s'.
Proof.
  intros (W & U & I & H & D & Sc) K W' U' Dm H' D' Sc'.
  repeat split; auto. intros id Hid. rewrite Dm. auto.
Qed.

Lemma draws_keep s s' :
  keeps_geometry s s' -> Forall (only_grid s) (draws (env s)) ->
  draws (env s') = draws (env s) -> Forall (only_grid s') (draws (env s')).
Proof.
  intros K F ->. eapply Forall_impl; [exact F|]. intros d. apply only_grid_keeps, K.
Qed.

Lemma handlers_keep s s' :
  handlers_ok s -> listeners (env s') = listeners (env s) ->
  length (materials s) <= length (materials s') -> handlers_ok s'.
Proof.
  unfold handlers_ok. intros F -> Hlen. eapply Forall_impl; [exact F|].
  intros l Hl m Hm. specialize (Hl m Hm). lia.
Qed.

(** [render] before any load: it completes and draws the grid. *)
Lemma render_before_load s :
  before_load s ->
  exists s' d,
    render s = (Normal tt, s') /\ before_load s' /\
    draws (env s') = d :: draws (env s) /\ only_grid s' d /\
    listeners (env s') = listeners (env s) /\ materials s' = materials s /\
    loads (env s') = loads (env s).
Proof.
  intros Hb. pose proof Hb as (W & U & I & H & D & Sc).
  destruct Sc as (rd & cam & sc & g & so & Hrd & Hcam & Hsc & Hg & Hbg & Hso & Hch & Hgrid).
  pose proof Hgrid as (go & Hgo & Hgeo).
  unfold render. rewrite bind_modify.
  unfold the_env at 1. rewrite bind_gets.
  unfold the_svc at 1. rewrite bind_gets.
  cbn [svc count_render]. rewrite W. cbn [for_each]. rewrite bind_ret.
  unfold the_svc at 1. rewrite bind_gets. cbn [svc count_render]. rewrite Hg.
  cbn [deref]. rewrite bind_ret.
  match goal with |- context [update_object g ?f] =>
    destruct (update_object_cases g f (count_render s)) as [(go' & Hgo' & E)|[Hn _]];
      [|cbn in Hn; congruence];
    rewrite (bind_normal _ _ _ _ _ E); clear E
  end.
  cbn [objects count_render] in Hgo'. assert (go' = go) as -> by congruence.
  unfold requestAnimationFrame at 1. unfold bind at 1. rewrite bind_modify.
  unfold the_svc. rewrite bind_gets. cbn [svc with_svc with_env with_objects count_render
    renderer scene camera set_frameId]. rewrite Hrd. cbn [deref]. rewrite bind_ret.
  rewrite bind_gets. cbn [svc with_svc with_env with_objects count_render
    renderer scene camera set_frameId]. rewrite Hsc. cbn [deref]. rewrite bind_ret.
  rewrite bind_gets. cbn [svc with_svc with_env with_objects count_render
    renderer scene camera set_frameId]. rewrite Hcam. cbn [deref]. rewrite bind_ret.
  unfold renderer_render, read_object. unfold bind at 1.
  cbn [objects with_svc with_env with_objects count_render].
  set (z := JsNum.rem _ 5).
  assert (Hso' : exists so', <[g := set_position_z z go]> (objects s) !! scene_obj sc = Some so'
                             /\ children so' = [g]).
  { destruct (decide (g = scene_obj sc)) as [Eg|Hne].
    - rewrite <- Eg, list_lookup_insert_eq by (eapply lookup_lt_Some; eauto).
      eexists. split; [reflexivity|]. cbn. congruence.
    - rewrite list_lookup_insert_ne by exact Hne. eauto. }
  destruct Hso' as (so' & Hso' & Hch'). rewrite Hso'. cbn [modify].
  unfold modify.
  match goal with |- context [(Normal tt, ?st)] => set (sF := st) end.
  exists sF, (mkDraw sc (children so') cam). split; [reflexivity|].
  assert (K : keeps_geometry s sF).
  { eapply keeps_geometry_insert; [exact Hgo | | reflexivity]. reflexivity. }
  assert (Hgrid' : is_grid sF g) by (eapply is_grid_keeps; eauto).
  assert (Hd : only_grid sF (mkDraw sc (children so') cam)).
  { split; [exact Hbg|]. exists g. auto. }
  split; [|repeat split; try reflexivity; [exact Hbg | exists g; split; [exact Hch' | exact Hgrid']]].
  eapply before_load_kept; [exact Hb | exact K | exact W | exact U | reflexivity | | |].
  - eapply handlers_keep; [exact H | reflexivity | reflexivity].
  - change (Forall (only_grid sF) (mkDraw sc (children so') cam :: draws (env s))).
    constructor; [exact Hd|]. eapply Forall_impl; [exact D|].
    intros d. apply only_grid_keeps, K.
  - exists rd, cam, sc, g, so'. repeat split; auto.
Qed.

(** The invariant depends on the service, the heaps, the document, the
    errors, the listeners and the draw calls, and on nothing else. *)
Lemma before_load_same s s' :
  before_load s ->
  svc s' = svc s -> objects s' = objects s -> materials s' = materials s ->
  dom (env s') = dom (env s) -> uncaught (env s') = uncaught (env s) ->
  listeners (env s') = listeners (env s) -> draws (env s') = draws (env s) ->
  before_load s'.
Proof.
  intros Hb Es Eo Em Ed Eu El Edr. pose proof Hb as (W & U & I & H & D & Sc).
  assert (K : keeps_geometry s s') by (apply keeps_geometry_objects, Eo).
  eapply before_load_kept; [exact Hb | exact K | | | exact Ed | | |].
  - rewrite Es. exact W.
  - rewrite Eu. exact U.
  - eapply handlers_keep; [exact H | exact El | rewrite Em; reflexivity].
  - eapply draws_keep; eauto.
  - destruct Sc as (rd & cam & sc & g & so & Hrd & Hcam & Hsc & Hg & Hbg & Hso & Hch & Hgrid).
    exists rd, cam, sc, g, so. rewrite Es, Eo. repeat split; auto.
    eapply is_grid_keeps; eauto.
Qed.

Lemma resize_before_load s :
  before_load s ->
  exists s',
    resize s = (Normal tt, s') /\ before_load s' /\
    listeners (env s') = listeners (env s) /\ materials s' = materials s.
Proof.
  intros Hb. pose proof Hb as (W & U & I & H & D & Sc).
  destruct Sc as (rd & cam & sc & g & so & Hrd & Hcam & Hsc & Hg & Hbg & Hso & Hch & Hgrid).
  unfold resize, the_env, the_svc. rewrite !bind_gets, Hcam. cbn [deref].
  rewrite bind_ret, bind_modify, bind_gets. cbn [svc with_svc set_camera renderer].
  rewrite Hrd. cbn [deref]. rewrite bind_ret. unfold modify.
  eexists. split; [reflexivity|]. split; [|split; reflexivity].
  eapply before_load_kept; [exact Hb | apply keeps_geometry_objects; reflexivity
    | exact W | exact U | reflexivity | | |].
  - eapply handlers_keep; [exact H | reflexivity | reflexivity].
  - eapply draws_keep; [apply keeps_geometry_objects; reflexivity | exact D | reflexivity].
  - eexists _, _, sc, g, so. cbn. repeat split; auto.
Qed.

(** A closure that is called before any load completes. *)
Lemma call_before_load v h s :
  before_load s ->
  (v = None \/ forall m, h = SetMaterialColor m -> m < length (materials s)) ->
  exists s',
    call v h s = (Normal tt, s') /\ before_load s' /\
    listeners (env s') = listeners (env s) /\
    length (materials s') = length (materials s).
Proof.
  intros Hb Hv. destruct h as [m| |]; cbn [call].
  - destruct v as [c|]; [|exists s; auto].
    destruct Hv as [Hv|Hv]; [discriminate|]. specialize (Hv m eq_refl).
    apply lookup_lt_is_Some in Hv as [mat Hmat].
    unfold update_material. rewrite Hmat.
    eexists. split; [reflexivity|]. split; [|split; [reflexivity|]].
    + pose proof Hb as (W & U & I & H & D & Sc).
      eapply before_load_kept; [exact Hb | apply keeps_geometry_objects; reflexivity
        | exact W | exact U | reflexivity | | |].
      * eapply handlers_keep; [exact H | reflexivity |]. cbn. rewrite length_insert. lia.
      * eapply draws_keep; [apply keeps_geometry_objects; reflexivity | exact D | reflexivity].
      * destruct Sc as (rd & cam & sc & g & so & Sc). exists rd, cam, sc, g, so. exact Sc.
    + cbn. apply length_insert.
  - destruct (render_before_load s Hb) as (s' & d & E & Hb' & _ & _ & L & M & _).
    exists s'. rewrite M. auto.
  - destruct (resize_before_load s Hb) as (s' & E & Hb' & L & M).
    exists s'. rewrite M. auto.
Qed.

Lemma task_normal (m : M State unit) s s' : m s = (Normal tt, s') -> task m s = s'.
Proof. unfold task. now intros ->. Qed.

(** Closures that run in a row before any load completes. *)
Lemma fold_before_load {A} v (hd : A -> Handler) (L : list A) : forall s,
  before_load s ->
  (v = None \/ Forall (fun a => forall m, hd a = SetMaterialColor m ->
                                 m < length (materials s)) L) ->
  before_load (fold_left (fun s a => task (call v (hd a)) s) L s).
Proof.
  induction L as [|a L IH]; intros s Hb Hv; cbn [fold_left]; [exact Hb|].
  destruct (call_before_load v (hd a) s Hb) as (s' & E & Hb' & Ls & Ms).
  { destruct Hv as [Hv|Hv]; [left; exact Hv | right].
    apply Forall_cons in Hv as [Ha _]. exact Ha. }
  rewrite (task_normal _ _ _ E). apply IH; [exact Hb'|].
  destruct Hv as [Hv|Hv]; [left; exact Hv | right].
  apply Forall_cons in Hv as [_ Hv]. rewrite Ms. exact Hv.
Qed.

Lemma dispatch_before_load t type v s : before_load s -> before_load (dispatch t type v s).
Proof.
  intros Hb. unfold dispatch. apply fold_before_load; [exact Hb|]. right.
  destruct Hb as (_ & _ & _ & H & _).
  apply Forall_forall. intros l Hl.
  apply list_elem_of_In, filter_In in Hl as [Hl _]. apply list_elem_of_In in Hl.
  unfold handlers_ok in H. rewrite Forall_forall in H. exact (H l Hl).
Qed.

(** [createScene] on a service without wheels: the scene holds its grid. *)
Lemma createScene_before_load cv s :
  wheels (svc s) = [] -> uncaught (env s) = [] -> inputs_present s ->
  handlers_ok s -> Forall (only_grid s) (draws (env s)) ->
  exists s', createScene cv s = (Normal tt, s') /\ before_load s'.
Proof.
  intros W U I H D.
  destruct (createScene_normal cv s I)
    as (s' & rd & cam & sc & so & go & m1 & m2 & m3 & E & Hsvc & Hso & Hbg & Hobj & Hch
        & Hgeo & Hmat & Henv & Hrc).
  exists s'. split; [exact E|].
  assert (K : keeps_geometry s s') by (eapply keeps_geometry_app; eauto).
  unfold before_load. rewrite Hsvc, Henv. cbn [wheels uncaught env set_loads set_listeners
    listeners draws].
  split; [exact W|]. split; [exact U|]. split; [|split; [|split]].
  - intros id Hid. rewrite Henv. cbn. auto.
  - unfold handlers_ok. rewrite Henv, Hmat, length_app. cbn [listeners set_loads set_listeners length].
    apply Forall_app. split.
    + eapply Forall_impl; [exact H|]. intros l Hl m Hm. specialize (Hl m Hm). lia.
    + repeat (apply Forall_cons; split); try (apply Forall_nil; trivial);
        intros m [= <-]; lia.
  - eapply Forall_impl; [exact D|]. intros d. apply only_grid_keeps, K.
  - exists rd, cam, sc, (S (length (objects s))), so. rewrite Hsvc, Hobj, Hso.
    cbn [renderer camera scene grid]. repeat split; auto.
    + apply list_lookup_middle. reflexivity.
    + exists go. split; [|exact Hgeo].
      rewrite Hobj, lookup_app_r by lia.
      replace (S (length (objects s)) - length (objects s))%nat with 1%nat by lia.
      reflexivity.
Qed.

Lemma animate_before_load s :
  before_load s -> exists s', animate s = (Normal tt, s') /\ before_load s'.
Proof.
  intros Hb. unfold animate, the_env. rewrite bind_gets.
  assert (Hadd : forall s1 t type h, before_load s1 ->
            (forall m, h <> SetMaterialColor m) ->
            before_load (with_env (fun b => set_listeners
                           (listeners b ++ [mkListener t type h]) b) s1)).
  { intros s1 t type h Hb1 Hh. pose proof Hb1 as (W & U & I & H & D & Sc).
    eapply before_load_kept; [exact Hb1 | apply keeps_geometry_objects; reflexivity
      | exact W | exact U | reflexivity | | |].
    - unfold handlers_ok. cbn. apply Forall_app. split; [exact H|].
      apply Forall_singleton. intros m Hm. cbn in Hm. destruct (Hh m Hm).
    - eapply draws_keep; [apply keeps_geometry_objects; reflexivity | exact D | reflexivity].
    - destruct Sc as (rd & cam & sc & g & so & Sc). exists rd, cam, sc, g, so. exact Sc. }
  destruct (readyState (env s)).
  - unfold addEventListener. rewrite !bind_modify. unfold modify.
    eexists. split; [reflexivity|]. apply Hadd; [apply Hadd; [exact Hb|] |]; discriminate.
  - destruct (render_before_load s Hb) as (s' & d & E & Hb' & _).
    rewrite (bind_normal _ _ _ _ _ E). unfold addEventListener, modify.
    eexists. split; [reflexivity|]. apply Hadd; [exact Hb' | discriminate].
  - destruct (render_before_load s Hb) as (s' & d & E & Hb' & _).
    rewrite (bind_normal _ _ _ _ _ E). unfold addEventListener, modify.
    eexists. split; [reflexivity|]. apply Hadd; [exact Hb' | discriminate].
Qed.

Lemma ngOnInit_before_load cv s :
  wheels (svc s) = [] -> uncaught (env s) = [] -> inputs_present s ->
  handlers_ok s -> Forall (only_grid s) (draws (env s)) ->
  exists s', ngOnInit cv s = (Normal tt, s') /\ before_load s'.
Proof.
  intros W U I H D. unfold ngOnInit.
  destruct (createScene_before_load cv s W U I H D) as (s1 & E1 & Hb1).
  rewrite (bind_normal _ _ _ _ _ E1). apply animate_before_load, Hb1.
Qed.

Lemma step_before_load e s :
  is_load e = false -> before_load s -> before_load (step e s).
Proof.
  intros He Hb. pose proof Hb as (W & U & I & H & D & Sc).
  destruct e as [cv| |now| |w h| |id type v|i gltf]; cbn [step]; [| | | | | | |discriminate].
  - destruct (ngOnInit_before_load cv s W U I H D) as (s' & E & Hb').
    rewrite (task_normal _ _ _ E). exact Hb'.
  - unfold task, ngOnDestroy, the_svc, cancelAnimationFrame. rewrite bind_gets.
    destruct (frameId (svc s)); cbn; [|exact Hb].
    eapply before_load_same; [exact Hb | reflexivity ..].
  - destruct (clock (env s) <=? now); [|exact Hb].
    eapply before_load_same; [exact Hb | reflexivity ..].
  - apply fold_before_load; [|left; reflexivity].
    eapply before_load_same; [exact Hb | reflexivity ..].
  - apply dispatch_before_load. eapply before_load_same; [exact Hb | reflexivity ..].
  - destruct (readyState (env s)); try exact Hb.
    apply dispatch_before_load. eapply before_load_same; [exact Hb | reflexivity ..].
  - apply dispatch_before_load, Hb.
Qed.

Lemma run_before_load evs : forall s,
  no_load evs -> before_load s -> before_load (run evs s).
Proof.
  induction evs as [|e evs IH]; intros s Hno Hb; [exact Hb|].
  apply Forall_cons in Hno as [He Hno].
  change (run (e :: evs) s) with (run evs (step e s)).
  apply IH; [exact Hno | apply step_before_load; assumption].
Qed.

(** C6: on a page that has the three colour inputs, after a component was
    created and through any events among which no load completes, no task
    has thrown, every draw call so far was of the grid and the background,
    and a call of [render] completes and draws the grid and the background. *)
Theorem render_without_model
    (ids : list string) (rs : ReadyState) (w h dpr now : float)
    (cv : ElementRef) (evs : list Event) :
  (forall id, id ∈ color_inputs -> id ∈ ids) ->
  no_load evs ->
  let s := run evs (step (ComponentInit cv) (boot (new_page ids rs w h dpr now))) in
  wheels (svc s) = [] /\
  uncaught (env s) = [] /\
  Forall (only_grid s) (draws (env s)) /\
  exists s' d,
    render s = (Normal tt, s') /\
    draws (env s') = d :: draws (env s) /\ only_grid s' d.
Proof.
  intros Hin Hno s.
  assert (Hb : before_load s).
  { apply run_before_load; [exact Hno|]. cbn [step].
    destruct (ngOnInit_before_load cv (boot (new_page ids rs w h dpr now)))
      as (s1 & E & Hb1); try reflexivity.
    - exact Hin.
    - constructor.
    - constructor.
    - rewrite (task_normal _ _ _ E). exact Hb1. }
  pose proof Hb as (W & U & _ & _ & D & _).
  destruct (render_before_load s Hb) as (s' & d & E & _ & Hd & Hg & _).
  repeat split; auto. exists s', d. auto.
Qed.

Lemma render_without_model_witness :
  let s := run [Tick 16; AnimationFrame; WindowResize 1024 768; Tick 33; AnimationFrame;
                InputEvent "glass-color" "input" (Some 0x336699%Z)]
             (step (ComponentInit sample_canvas) (boot sample_page)) in
  wheels (svc s) = [] /\
  uncaught (env s) = [] /\
  Forall (only_grid s) (draws (env s)) /\
  exists s' d,
    render s = (Normal tt, s') /\
    draws (env s') = d :: draws (env s) /\ only_grid s' d.
Proof.
  apply (render_without_model
           ["rendererCanvas"; "body-color"; "details-color"; "glass-color"]
           Complete 800 600 1 0 sample_canvas
           [Tick 16; AnimationFrame; WindowResize 1024 768; Tick 33; AnimationFrame;
            InputEvent "glass-color" "input" (Some 0x336699%Z)]).
  - intros id Hid. unfold color_inputs in Hid. rewrite !elem_of_cons in *.
    rewrite elem_of_nil in Hid. tauto.
  - repeat constructor.
Defined.

(** ** The colour inputs (C4) *)

Lemma grows_refl s : grows s s.
Proof. split; [exists []; now rewrite app_nil_r | reflexivity]. Qed.

Lemma grows_trans s1 s2 s3 : grows s1 s2 -> grows s2 s3 -> grows s1 s3.
Proof.
  intros [(n1 & L1) M1] [(n2 & L2) M2]. split; [|lia].
  exists (n1 ++ n2). rewrite L2, L1, app_assoc. reflexivity.
Qed.

#[local] Hint Resolve grows_refl grows_trans : respects.

Ltac grows_write :=
  unfold grows; intros; cbn;
  split; [first [ exists []; rewrite app_nil_r; reflexivity | eexists [_]; reflexivity ]
         | rewrite ?length_app, ?length_insert; cbn; lia].

Lemma render_grows : respects grows render.
Proof. unfold render. respects_tac; grows_write. Qed.

Lemma resize_grows : respects grows resize.
Proof. unfold resize. respects_tac; grows_write. Qed.

Lemma createScene_grows cv : respects grows (createScene cv).
Proof. unfold createScene. respects_tac; grows_write. Qed.

Lemma animate_grows : respects grows animate.
Proof. unfold animate. respects_tac; try grows_write; apply render_grows. Qed.

Lemma ngOnInit_grows cv : respects grows (ngOnInit cv).
Proof.
  unfold ngOnInit. apply respects_bind; [apply grows_trans | apply createScene_grows|].
  intros _. apply animate_grows.
Qed.

Lemma ngOnDestroy_grows : respects grows ngOnDestroy.
Proof. unfold ngOnDestroy. respects_tac; grows_write. Qed.

Lemma call_grows v h : respects grows (call v h).
Proof.
  destruct h as [m| |]; cbn [call];
    [destruct v; respects_tac; grows_write | apply render_grows | apply resize_grows].
Qed.

Lemma load_grows rq gltf :
  respects grows (let* g := build_node None gltf in onLoad rq g).
Proof.
  apply respects_bind; [apply grows_trans | |].
  - apply respects_build_node;
      [apply grows_refl | apply grows_trans | grows_write | grows_write | grows_write].
  - intros g. unfold onLoad. respects_tac; grows_write.
Qed.

Lemma task_grows m s : respects grows m -> grows s (task m s).
Proof.
  intros Hm. apply (respects_task grows grows_trans m Hm). grows_write.
Qed.

Lemma fold_grows {A} (f : State -> A -> State) (l : list A) :
  (forall s a, grows s (f s a)) -> forall s, grows s (fold_left f l s).
Proof.
  intros Hf. induction l as [|a l IH]; intros s; cbn [fold_left].
  - apply grows_refl.
  - eapply grows_trans; [apply Hf | apply IH].
Qed.

Lemma step_grows e s : grows s (step e s).
Proof.
  destruct e as [cv| |now| |w h| |id type v|i gltf]; cbn [step].
  - apply task_grows, ngOnInit_grows.
  - apply task_grows, ngOnDestroy_grows.
  - destruct (clock (env s) <=? now); [grows_write | apply grows_refl].
  - eapply grows_trans; [|apply fold_grows; intros; apply task_grows, call_grows].
    grows_write.
  - eapply grows_trans; [|apply fold_grows; intros; apply task_grows, call_grows].
    grows_write.
  - destruct (readyState (env s)); try apply grows_refl.
    eapply grows_trans; [|apply fold_grows; intros; apply task_grows, call_grows].
    grows_write.
  - apply fold_grows; intros; apply task_grows, call_grows.
  - destruct (loads (env s) !! i); [|apply grows_refl].
    eapply grows_trans; [|apply task_grows, load_grows]. grows_write.
Qed.

Lemma run_grows evs : forall s, grows s (run evs s).
Proof.
  induction evs as [|e evs IH]; intros s; [apply grows_refl|].
  change (run (e :: evs) s) with (run evs (step e s)).
  eapply grows_trans; [apply step_grows | apply IH].
Qed.

(** One listener called with the colour [v]: a material that has the colour
    keeps it, and the material of the listener gets it. *)
Lemma call_sets_color v h s :
  let s' := task (call (Some v) h) s in
  length (materials s') = length (materials s) /\
  (forall m, color_of s m = Some v -> color_of s' m = Some v) /\
  (forall m, h = SetMaterialColor m -> m < length (materials s) -> color_of s' m = Some v).
Proof.
  cbv zeta.
  assert (Hsame : forall mth, respects (same materials) mth ->
            materials (task mth s) = materials s).
  { intros mth Hm. apply (respects_task (same materials) (same_trans _) mth Hm).
    intros s' e. reflexivity. }
  destruct h as [m| |]; cbn [call].
  - unfold task, update_material.
    destruct (materials s !! m) as [mat|] eqn:Em; cbn.
    + rewrite length_insert. split; [reflexivity|]. split.
      * intros m' Hm'. unfold color_of in *. cbn.
        destruct (decide (m = m')) as [<-|Hne].
        -- rewrite list_lookup_insert_eq by (eapply lookup_lt_Some; eauto). reflexivity.
        -- rewrite list_lookup_insert_ne by exact Hne. exact Hm'.
      * intros m' [= <-] _. unfold color_of. cbn.
        rewrite list_lookup_insert_eq by (eapply lookup_lt_Some; eauto). reflexivity.
    + split; [reflexivity|]. split; [auto|].
      intros m' [= <-] Hlt. apply lookup_lt_is_Some in Hlt as [x Hx]. congruence.
  - unfold color_of. rewrite (Hsame render); [|unfold render; respects_tac; same_write].
    repeat split; auto. discriminate.
  - unfold color_of. rewrite (Hsame resize); [|unfold resize; respects_tac; same_write].
    repeat split; auto. discriminate.
Qed.

(** The listeners of an input run in a row with its value: the material of
    each of them has the colour in the end. *)
Lemma fold_sets_color v (L : list Listener) : forall s,
  let s' := fold_left (fun s l => task (call (Some v) (l_handler l)) s) L s in
  length (materials s') = length (materials s) /\
  (forall m, color_of s m = Some v -> color_of s' m = Some v) /\
  (forall l m, l ∈ L -> l_handler l = SetMaterialColor m -> m < length (materials s) ->
     color_of s' m = Some v).
Proof.
  induction L as [|l L IH]; intros s; cbn [fold_left].
  - repeat split; auto. intros l m Hl. inversion Hl.
  - destruct (call_sets_color v (l_handler l) s) as (Hlen & Hkeep & Hset).
    destruct (IH (task (call (Some v) (l_handler l)) s)) as (Hlen' & Hkeep' & Hset').
    cbv zeta in *. split; [congruence|]. split; [auto|].
    intros l' m Hl' Hh Hlt. apply elem_of_cons in Hl' as [->|Hl'].
    + apply Hkeep', Hset; assumption.
    + eapply Hset'; eauto. rewrite Hlen. exact Hlt.
Qed.

Lemma dispatch_sets_color id type v m s :
  mkListener (Element id) type (SetMaterialColor m) ∈ listeners (env s) ->
  m < length (materials s) ->
  color_of (step (InputEvent id type (Some v)) s) m = Some v.
Proof.
  intros Hin Hlt. cbn [step]. unfold dispatch.
  destruct (fold_sets_color v (List.filter (listens (Element id) type) (listeners (env s))) s)
    as (_ & _ & Hset).
  apply (Hset (mkListener (Element id) type (SetMaterialColor m)) m); [|reflexivity|exact Hlt].
  apply list_elem_of_In, filter_In. split; [apply list_elem_of_In, Hin|].
  unfold listens. cbn. rewrite !String.eqb_refl. reflexivity.
Qed.

(** A [createScene] that completes had the three inputs. *)
Lemma createScene_completes_inputs cv s s' :
  createScene cv s = (Normal tt, s') -> inputs_present s.
Proof.
  intros E. destruct (inputs_present_dec s) as [H|(id & Hid & Hout)]; [exact H|].
  destruct (createScene_without_input s cv id Hid Hout) as (what & s1 & E1 & _).
  congruence.
Qed.




(** ** The search by name never runs out of fuel *)

Lemma first_found_ext_in {A B} (f g : A -> option B) l :
  (forall a, a ∈ l -> f a = g a) -> first_found f l = first_found g l.
Proof.
  induction l as [|a l IH]; intros H; cbn; [reflexivity|].
  rewrite (H a) by left. rewrite IH; [reflexivity|].
  intros b Hb. apply H. now right.
Qed.

(** In a forward heap the search from [r] needs a depth of what lies
    behind [r] at most; more fuel does not change what it returns. *)
Lemma getObjectByName_rec_fuel h nm :
  forward h ->
  forall n r f1 f2,
    length h - r <= n -> n <= f1 -> n <= f2 ->
    getObjectByName_rec f1 h nm r = getObjectByName_rec f2 h nm r.
Proof.
  intros Hf. induction n as [|n IH]; intros r f1 f2 Hr H1 H2.
  - assert (Hnone : h !! r = None) by (apply lookup_ge_None; lia).
    destruct f1, f2; cbn; rewrite ?Hnone; reflexivity.
  - destruct f1 as [|f1]; [lia|]. destruct f2 as [|f2]; [lia|]. cbn.
    destruct (h !! r) as [o|] eqn:Ho; [|reflexivity].
    destruct (String.eqb (name o) nm); [reflexivity|].
    apply first_found_ext_in. intros c Hc.
    pose proof (Hf r o c Ho Hc). apply lookup_lt_Some in Ho.
    apply IH; lia.
Qed.

Lemma getObjectByName_enough_fuel h nm r fuel :
  forward h -> length h <= fuel ->
  getObjectByName_rec fuel h nm r = getObjectByName h r nm.
Proof.
  intros Hf Hfuel. unfold getObjectByName.
  apply (getObjectByName_rec_fuel h nm Hf (length h)); lia.
Qed.

(** *** The heaps of the program are forward *)

Lemma forward_app h o : children o = [] -> forward h -> forward (h ++ [o]).
Proof.
  intros Hc Hf r o' c Ho' Hin.
  destruct (decide (r < length h)) as [Hlt|Hge].
  - rewrite lookup_app_l in Ho' by exact Hlt. eauto.
  - rewrite lookup_app_r in Ho' by lia.
    destruct (r - length h)%nat; cbn in Ho'; [|discriminate].
    injection Ho' as <-. rewrite Hc in Hin. inversion Hin.
Qed.

Lemma forward_insert h r o o' :
  h !! r = Some o ->
  (forall c, c ∈ children o' -> r < c) ->
  forward h -> forward (<[r := o']> h).
Proof.
  intros Ho Hc Hf r' o1 c Ho1 Hin.
  destruct (decide (r = r')) as [<-|Hne].
  - rewrite list_lookup_insert_eq in Ho1 by (eapply lookup_lt_Some; eauto).
    injection Ho1 as <-. auto.
  - rewrite list_lookup_insert_ne in Ho1 by exact Hne. eauto.
Qed.

(** What the loader builds: the heap stays forward, the service is not
    touched, and the object of the node is the first new one. *)
Lemma build_node_forward : forall n par s,
  forward (objects s) ->
  forward (objects (snd (build_node par n s))) /\
  length (objects s) <= length (objects (snd (build_node par n s))) /\
  svc (snd (build_node par n s)) = svc s /\
  (forall r, fst (build_node par n s) = Normal r -> r = length (objects s)).
Proof.
  fix IH 1. intros [nm mat kids] par s Hf. cbn [build_node].
  (* the material *)
  set (mstep := match mat with
                | Some m => let* r := alloc_material m in ret (Some r)
                | None => ret None
                end).
  assert (Hm : exists m s1, mstep s = (Normal m, s1) /\ objects s1 = objects s /\ svc s1 = svc s).
  { subst mstep. destruct mat; eexists _, _; (split; [reflexivity|]); auto. }
  destruct Hm as (m & s1 & Em & Ho1 & Hs1).
  rewrite (bind_normal _ _ _ _ _ Em).
  (* the object *)
  set (o := set_material m (set_parent par (new_Object3D nm))).
  set (s2 := with_objects (fun h => h ++ [o]) s1).
  set (r := length (objects s1)).
  rewrite (bind_normal _ _ _ r s2 (eq_refl : alloc_object o s1 = (Normal r, s2))).
  assert (Hf2 : forward (objects s2)).
  { unfold s2. cbn. rewrite Ho1. apply forward_app; [reflexivity | exact Hf]. }
  (* the children *)
  assert (Hkids : forall l s3,
    forward (objects s3) ->
    let res := (fix build_kids (l : list GltfNode) : M State (list ref) :=
                  match l with
                  | [] => ret []
                  | k :: l' =>
                      let* c := build_node (Some r) k in
                      let* cs := build_kids l' in
                      ret (c :: cs)
                  end) l s3 in
    forward (objects (snd res)) /\
    length (objects s3) <= length (objects (snd res)) /\
    svc (snd res) = svc s3 /\
    (forall cs, fst res = Normal cs -> forall c, c ∈ cs -> length (objects s3) <= c)).
  { fix IHk 1. intros [|k l'] s3 Hf3; cbv zeta; cbv beta match fix.
    - cbn. split; [exact Hf3|]. split; [reflexivity|]. split; [reflexivity|].
      intros cs [= <-] c Hc. inversion Hc.
    - destruct (IH k (Some r) s3 Hf3) as (Hfk & Hlk & Hsk & Hrk).
      destruct (build_node (Some r) k s3) as [[c|e] s4] eqn:Ek; cbn [fst snd] in *.
      2:{ rewrite (bind_throw _ _ _ _ _ Ek). cbn [fst snd].
          split; [exact Hfk|]. split; [exact Hlk|]. split; [exact Hsk|].
          intros cs0 Hcs0. discriminate Hcs0. }
      rewrite (bind_normal _ _ _ _ _ Ek).
      specialize (IHk l' s4 Hfk). cbv zeta in IHk.
      destruct IHk as (Hfl & Hll & Hsl & Hrl).
      match goal with |- context [bind (?bk l') _ s4] =>
        destruct (bk l' s4) as [[cs|e] s5] eqn:Ekids end; cbn [fst snd] in *.
      2:{ rewrite (bind_throw _ _ _ _ _ Ekids). cbn [fst snd].
          split; [exact Hfl|]. split; [lia|]. split; [congruence|].
          intros cs0 Hcs0. discriminate Hcs0. }
      rewrite (bind_normal _ _ _ _ _ Ekids). cbn [ret fst snd].
      split; [exact Hfl|]. split; [lia|]. split; [congruence|].
      intros cs' [= <-] c' Hc'. apply elem_of_cons in Hc' as [->|Hc'].
      + rewrite (Hrk c eq_refl). lia.
      + specialize (Hrl cs eq_refl c' Hc'). lia. }
  specialize (Hkids kids s2 Hf2). cbv zeta in Hkids.
  destruct Hkids as (Hf3 & Hl3 & Hs3 & Hc3).
  match goal with |- context [bind (?bk kids) _ s2] =>
    destruct (bk kids s2) as [[cs|e] s3] eqn:Ekids end; cbn [fst snd] in *.
  2:{ rewrite (bind_throw _ _ _ _ _ Ekids). cbn [fst snd].
      unfold s2 in Hl3, Hs3. cbn in Hl3, Hs3. rewrite length_app in Hl3.
      split; [exact Hf3|]. split; [rewrite <- Ho1; lia|]. split; [congruence|].
      intros r0 Hr0. discriminate Hr0. }
  rewrite (bind_normal _ _ _ _ _ Ekids).
  assert (Hlen2 : length (objects s2) = S r).
  { unfold s2, r. cbn. rewrite length_app. cbn. lia. }
  destruct (update_object_cases r (set_children cs) s3) as [(o3 & Ho3 & E)|[Hn E]];
    rewrite ?(bind_normal _ _ _ _ _ E), ?(bind_throw _ _ _ _ _ E); cbn [fst snd ret].
  - cbn. rewrite length_insert. split; [|split; [|split]].
    + eapply forward_insert; [exact Ho3 | | exact Hf3].
      intros c Hc. cbn in Hc. specialize (Hc3 cs eq_refl c Hc). lia.
    + unfold r in Hlen2. rewrite <- Ho1. lia.
    + rewrite Hs3. unfold s2. cbn. exact Hs1.
    + intros r' [= <-]. unfold r. congruence.
  - split; [exact Hf3|]. split; [unfold r in Hlen2; rewrite <- Ho1; lia|].
    split; [rewrite Hs3; unfold s2; cbn; exact Hs1|]. intros r0 Hr0. discriminate Hr0.
Qed.

Lemma heap_grows_refl s : heap_grows s s.
Proof. unfold heap_grows. auto. Qed.

Lemma heap_grows_trans s1 s2 s3 : heap_grows s1 s2 -> heap_grows s2 s3 -> heap_grows s1 s3.
Proof.
  intros (F1 & L1 & S1) (F2 & L2 & S2). unfold heap_grows.
  split; [auto|]. split; [lia | congruence].
Qed.

#[local] Hint Resolve heap_grows_refl heap_grows_trans : respects.

Lemma heap_grows_objects s s' :
  objects s' = objects s -> scene (svc s') = scene (svc s) -> heap_grows s s'.
Proof. intros Eo Es. unfold heap_grows. rewrite Eo. auto. Qed.

Lemma heap_grows_alloc s o :
  children o = [] -> heap_grows s (with_objects (fun h => h ++ [o]) s).
Proof.
  intros Hc. unfold heap_grows. cbn. rewrite length_app. cbn.
  split; [apply forward_app, Hc|]. split; [lia | reflexivity].
Qed.

(** A write to an object that adds no child, or a child created later. *)
Lemma heap_grows_insert s r o o' :
  objects s !! r = Some o ->
  (forall c, c ∈ children o' -> c ∈ children o \/ r < c) ->
  heap_grows s (with_objects (fun h => <[r := o']> h) s).
Proof.
  intros Ho Hc. unfold heap_grows. cbn. rewrite length_insert.
  split; [|split; [lia | reflexivity]].
  intros Hf. eapply forward_insert; [exact Ho | | exact Hf].
  intros c Hin. destruct (Hc c Hin) as [Hold|Hnew]; [eapply Hf; eauto | exact Hnew].
Qed.

Ltac heap_grows_write :=
  first [ apply heap_grows_alloc; reflexivity
        | eapply heap_grows_insert; [eassumption | intros ? ?; left; assumption]
        | apply heap_grows_objects; reflexivity ].

Lemma render_heap_grows : respects heap_grows render.
Proof. unfold render. respects_tac; heap_grows_write. Qed.

Lemma resize_heap_grows : respects heap_grows resize.
Proof. unfold resize. respects_tac; heap_grows_write. Qed.

Lemma animate_heap_grows : respects heap_grows animate.
Proof. unfold animate. respects_tac; try heap_grows_write; apply render_heap_grows. Qed.

Lemma ngOnDestroy_heap_grows : respects heap_grows ngOnDestroy.
Proof. unfold ngOnDestroy. respects_tac; heap_grows_write. Qed.

Lemma call_heap_grows v h : respects heap_grows (call v h).
Proof.
  destruct h as [m| |]; cbn [call];
    [destruct v; respects_tac; heap_grows_write
    | apply render_heap_grows | apply resize_heap_grows].
Qed.

(** [add] of a child that was created after the parent. *)
Lemma Object3D_add_heap_grows par child :
  par < child -> respects heap_grows (Object3D_add par child).
Proof.
  intros Hlt. respects_tac;
    first [ heap_grows_write
          | eapply heap_grows_insert; [eassumption|]; cbn; intros c Hc;
            first [ left; apply list_elem_of_filter in Hc as [_ Hc]; exact Hc
                  | apply elem_of_app in Hc as [Hc|Hc];
                    [left; exact Hc | right; apply list_elem_of_singleton in Hc; subst; exact Hlt] ] ].
Qed.

Lemma createScene_heap_ok cv s :
  heap_ok s ->
  heap_ok (snd (createScene cv s)) /\
  length (objects s) <= length (objects (snd (createScene cv s))).
Proof.
  intros [Hf Hsc].
  destruct (inputs_present_dec s) as [Hin|(id & Hid & Hout)].
  - destruct (createScene_normal cv s Hin)
      as (s' & rd & cam & sc & so & go & m1 & m2 & m3 & E & Hsvc & Hso & Hbg & Hobj & Hch
          & Hgeo & Hmat & Henv & Hrc & Hchg).
    rewrite E. cbn [snd]. unfold heap_ok. rewrite Hobj, Hsvc, length_app. cbn [scene length].
    split; [split|lia].
    + change (objects s ++ [so; go]) with (objects s ++ [so] ++ [go]). rewrite app_assoc.
      apply forward_app; [exact Hchg|].
      intros r o c Ho Hc.
      destruct (decide (r < length (objects s))) as [Hlt|Hge].
      * rewrite lookup_app_l in Ho by exact Hlt. eauto.
      * rewrite lookup_app_r in Ho by lia.
        destruct (r - length (objects s))%nat eqn:Er; cbn in Ho; [|discriminate].
        injection Ho as <-. rewrite Hch in Hc. apply list_elem_of_singleton in Hc. lia.
    + intros sc' [= <-]. lia.
  - destruct (createScene_without_input s cv id Hid Hout) as (what & s' & E & Hsvc & Hobj & _).
    rewrite E. cbn [snd]. unfold heap_ok. rewrite Hobj, Hsvc. auto.
Qed.

Lemma getObjectByName_dangling h root nm :
  h !! root = None -> getObjectByName h root nm = None.
Proof.
  intros Hn. unfold getObjectByName. destruct (length h); cbn; [reflexivity|].
  rewrite Hn. reflexivity.
Qed.

(** The completion callback: the car model is below the object the loader
    returned, which was created after the scene; the shadow plane is
    created last. *)
Lemma onLoad_heap_grows rq g s :
  forward (objects s) ->
  (forall sc, scene (svc s) = Some sc -> scene_obj sc < g) ->
  heap_grows s (snd (onLoad rq g s)).
Proof.
  intros Hf Hsc. unfold onLoad.
  unfold read_object at 1. unfold bind at 1.
  destruct (objects s !! g) as [gs|] eqn:Eg; [|apply heap_grows_refl].
  unfold bind at 1.
  destruct (children gs !! 0%nat) as [car|] eqn:Ecar; cbn [deref ret throw];
    [|apply heap_grows_refl].
  assert (Hgcar : g < car).
  { eapply Hf; [exact Eg|]. eapply list_elem_of_lookup_2, Ecar. }
  unfold byName at 1. rewrite bind_gets. cbv beta.
  destruct (objects s !! car) as [co|] eqn:Eco.
  2:{ rewrite (getObjectByName_dangling _ _ _ Eco). apply heap_grows_refl. }
  apply lookup_lt_Some in Eco.
  (* the materials and the wheels *)
  assert (Hassign : forall what o m, respects heap_grows (assign_material what o m))
    by (intros; respects_tac; heap_grows_write).
  clear Eg.
  repeat match goal with
  | |- heap_grows _ (snd (bind (assign_material ?w ?o ?m) ?k ?st)) =>
      destruct (bind_respects_cases heap_grows (assign_material w o m) k st (Hassign w o m))
        as [(e & s1 & -> & G)|([] & s1 & -> & G)];
      [exact G | revert s1 G; intros s1 G;
                 apply (heap_grows_trans _ s1); [exact G|];
                 assert (Hf1 : forward (objects s1)) by (apply G, Hf);
                 assert (Eco1 : car < length (objects s1)) by (destruct G as (_ & L & _); lia);
                 assert (Hsc1 : forall sc, scene (svc s1) = Some sc -> scene_obj sc < g)
                   by (destruct G as (_ & _ & S); rewrite S; exact Hsc);
                 clear Hf Eco Hsc G; clear s;
                 rename s1 into s, Hf1 into Hf, Eco1 into Eco, Hsc1 into Hsc;
                 unfold byName at 1; rewrite bind_gets; cbv beta]
  end.
  unfold byName. rewrite ?bind_gets, bind_modify.
  match goal with |- heap_grows s (snd (?tail ?st)) => set (s7 := st) end.
  apply (heap_grows_trans _ s7); [apply heap_grows_objects; reflexivity|].
  assert (Hf7 : forward (objects s7)) by exact Hf.
  assert (Eco7 : car < length (objects s7)) by exact Eco.
  assert (Hsc7 : forall sc, scene (svc s7) = Some sc -> scene_obj sc < car).
  { intros sc Hs. specialize (Hsc sc Hs). lia. }
  clearbody s7. clear Hf Eco Hsc s.
  (* the shadow plane *)
  unfold alloc_material at 1. unfold bind at 1.
  unfold alloc_object at 1. unfold bind at 1.
  cbn [objects with_materials with_objects materials].
  set (mesh := length (objects s7)).
  match goal with |- heap_grows s7 (snd (?rest ?st)) => set (s9 := st) end.
  assert (G9 : heap_grows s7 s9).
  { subst s9. eapply heap_grows_trans; [|apply heap_grows_alloc; reflexivity].
    apply heap_grows_objects; reflexivity. }
  apply (heap_grows_trans _ s9); [exact G9|].
  assert (Hsc9 : scene (svc s9) = scene (svc s7)) by reflexivity.
  clearbody s9.
  match goal with |- heap_grows s9 (snd (bind ?u1 (fun _ => bind ?u2 (fun _ => bind ?a ?k)) s9)) =>
    destruct (bind_respects_cases heap_grows u1 (fun _ => bind u2 (fun _ => bind a k)) s9)
      as [(e & s10 & -> & G10)|([] & s10 & -> & G10)];
      [respects_tac; heap_grows_write | exact G10 |];
    apply (heap_grows_trans _ s10); [exact G10|];
    destruct (bind_respects_cases heap_grows u2 (fun _ => bind a k) s10)
      as [(e & s11 & -> & G11)|([] & s11 & -> & G11)];
      [respects_tac; heap_grows_write | exact G11 |];
    apply (heap_grows_trans _ s11); [exact G11|];
    destruct (bind_respects_cases heap_grows a k s11)
      as [(e & s12 & -> & G12)|([] & s12 & -> & G12)];
      [apply Object3D_add_heap_grows; exact Eco7 | exact G12 |];
    apply (heap_grows_trans _ s12); [exact G12|]
  end.
  assert (Hsc12 : scene (svc s12) = scene (svc s7)).
  { destruct G10 as (_ & _ & S10), G11 as (_ & _ & S11), G12 as (_ & _ & S12). congruence. }
  unfold the_svc. rewrite bind_gets.
  destruct (scene (svc s12)) as [sc|] eqn:Esc; cbn [deref]; [|apply heap_grows_refl].
  rewrite bind_ret. apply Object3D_add_heap_grows. apply Hsc7. congruence.
Qed.

(** *** Every state the event loop reaches has a forward heap *)

Lemma heap_grows_ok s s' : heap_grows s s' -> heap_ok s -> heap_ok s'.
Proof.
  intros (F & L & S) [Hf Hsc]. split; [auto|].
  intros sc Hs. rewrite S in Hs. specialize (Hsc sc Hs). lia.
Qed.

Lemma task_heap_grows m s : respects heap_grows m -> heap_grows s (task m s).
Proof.
  intros Hm. apply (respects_task heap_grows heap_grows_trans m Hm).
  intros; apply heap_grows_objects; reflexivity.
Qed.

Lemma fold_heap_grows {A} (f : State -> A -> State) (l : list A) :
  (forall s a, heap_grows s (f s a)) -> forall s, heap_grows s (fold_left f l s).
Proof.
  intros Hf. induction l as [|a l IH]; intros s; cbn [fold_left].
  - apply heap_grows_refl.
  - eapply heap_grows_trans; [apply Hf | apply IH].
Qed.

Lemma ngOnInit_heap_ok cv s : heap_ok s -> heap_ok (task (ngOnInit cv) s).
Proof.
  intros H. destruct (createScene_heap_ok cv s H) as [H1 _].
  unfold task, ngOnInit, bind.
  destruct (createScene cv s) as [[[]|e] s1]; cbn [snd] in H1; [|exact H1].
  pose proof (animate_heap_grows s1) as G.
  destruct (animate s1) as [[[]|e] s2]; cbn [snd] in G;
    exact (heap_grows_ok _ _ G H1).
Qed.

(** The objects of the file are created after the scene, so the completion
    callback adds the car below it. *)
Lemma load_heap_ok rq gltf s :
  heap_ok s -> heap_ok (task (let* g := build_node None gltf in onLoad rq g) s).
Proof.
  intros [Hf Hsc].
  destruct (build_node_forward gltf None s Hf) as (F1 & L1 & S1 & R1).
  unfold task, bind.
  destruct (build_node None gltf s) as [[g|e] s1]; cbn [fst snd] in *.
  - specialize (R1 g eq_refl). subst g.
    assert (H1 : heap_ok s1).
    { split; [exact F1|]. intros sc Hs. rewrite S1 in Hs. specialize (Hsc _ Hs). lia. }
    assert (G : heap_grows s1 (snd (onLoad rq (length (objects s)) s1))).
    { apply onLoad_heap_grows; [exact F1|]. intros sc Hs. rewrite S1 in Hs. exact (Hsc _ Hs). }
    destruct (onLoad rq (length (objects s)) s1) as [[[]|e] s2]; cbn [snd] in G;
      exact (heap_grows_ok _ _ G H1).
  - split; [exact F1|]. intros sc Hs. cbn in Hs. rewrite S1 in Hs.
    specialize (Hsc _ Hs). cbn. lia.
Qed.

Lemma dispatch_heap_grows t type v s : heap_grows s (dispatch t type v s).
Proof.
  unfold dispatch. apply fold_heap_grows.
  intros s0 l. apply task_heap_grows, call_heap_grows.
Qed.

Lemma step_heap_ok e s : heap_ok s -> heap_ok (step e s).
Proof.
  intros H. destruct e as [cv| |now| |w h| |id type v|i gltf]; cbn [step].
  - apply ngOnInit_heap_ok, H.
  - exact (heap_grows_ok _ _ (task_heap_grows _ s ngOnDestroy_heap_grows) H).
  - destruct (clock (env s) <=? now); exact H.
  - refine (heap_grows_ok (with_env _ s) _ (fold_heap_grows _ _ _ _) H).
    intros s0 c. apply task_heap_grows, call_heap_grows.
  - exact (heap_grows_ok (with_env _ s) _ (dispatch_heap_grows _ _ _ _) H).
  - destruct (readyState (env s)); try exact H.
    exact (heap_grows_ok (with_env _ s) _ (dispatch_heap_grows _ _ _ _) H).
  - exact (heap_grows_ok _ _ (dispatch_heap_grows _ _ _ _) H).
  - destruct (loads (env s) !! i) as [rq|]; [|exact H].
    apply load_heap_ok. exact H.
Qed.

Lemma boot_heap_ok page : heap_ok (boot page).
Proof.
  split; [|intros sc Hs; discriminate Hs].
  intros r o c Hr. discriminate Hr.
Qed.

Lemma run_heap_ok evs : forall s, heap_ok s -> heap_ok (run evs s).
Proof.
  induction evs as [|e evs IH]; intros s H; [exact H|].
  change (run (e :: evs) s) with (run evs (step e s)).
  apply IH, step_heap_ok, H.
Qed.

(** X18: the scene graph of every state the program reaches is a forest in
    the order of creation: [scene.add(grid)], [carModel.add(mesh)] and
    [scene.add(carModel)] add an object to one created before it. The scene
    of the service is an object of the heap, and a search by name has seen
    every object below its root before its bound, the size of the heap,
    is reached. *)
Theorem scene_graph_stays_forest (page : Browser) (evs : list Event) :
  let s := run evs (boot page) in
  forward (objects s) /\
  (forall sc, scene (svc s) = Some sc -> is_Some (objects s !! scene_obj sc)) /\
  (forall fuel root nm, length (objects s) <= fuel ->
     getObjectByName_rec fuel (objects s) nm root = getObjectByName (objects s) root nm).
Proof.
  intros s. destruct (run_heap_ok evs (boot page) (boot_heap_ok page)) as [Hf Hsc].
  fold s in Hf, Hsc. split; [exact Hf|]. split.
  - intros sc Hs. apply lookup_lt_is_Some, Hsc, Hs.
  - intros fuel root nm Hfuel. apply getObjectByName_enough_fuel; assumption.
Qed.

(** * More of the service *)

(** ** When [createScene] completes *)

(** X1: [createScene] completes exactly when the three colour inputs are
    in the document, whatever the state of the service; the only error it
    throws is the TypeError of a call on the null that [getElementById]
    returned. *)
Theorem createScene_completes_iff_inputs (cv : ElementRef) (s : State) :
  (completed (createScene cv s) = true <-> inputs_present s) /\
  (forall e s', createScene cv s = (Throw e, s') -> exists what, e = TypeError what).
Proof.
  destruct (inputs_present_dec s) as [Hin|(id & Hid & Hout)].
  - destruct (createScene_normal cv s Hin) as (s1 & rd & cam & sc & so & go & m1 & m2 & m3 & E & _).
    rewrite E. split; [split; auto|]. intros e s' H. discriminate H.
  - destruct (createScene_without_input s cv id Hid Hout) as (what & s1 & E & _).
    rewrite E. split.
    + split; [intros H; discriminate H|]. intros Hin. destruct (Hout (Hin id Hid)).
    + intros e s' [= <- _]. eauto.
Qed.

(** ** Teardown *)

Lemma filter_filter_same {A} (P : A -> Prop) `{forall x, Decision (P x)} (l : list A) :
  filter P (filter P l) = filter P l.
Proof.
  induction l as [|a l IH]; [reflexivity|].
  rewrite filter_cons. destruct (decide (P a)) as [Ha|Ha]; [|exact IH].
  rewrite filter_cons. destruct (decide (P a)); [|contradiction]. now rewrite IH.
Qed.

(** X2: [ngOnDestroy] never throws. It takes the frame whose handle is in
    [frameId] out of the queue and does nothing else: the handle stays in
    [frameId], no listener is removed, no load is abandoned, no object or
    material is released. A second call changes nothing. *)
Theorem ngOnDestroy_releases_frame_only (s : State) :
  exists s',
    ngOnDestroy s = (Normal tt, s') /\
    svc s' = svc s /\ objects s' = objects s /\ materials s' = materials s /\
    listeners (env s') = listeners (env s) /\ loads (env s') = loads (env s) /\
    raf_next (env s') = raf_next (env s) /\
    (forall c, c ∈ raf_queue (env s') <->
               c ∈ raf_queue (env s) /\ frameId (svc s) <> Some (fst c)) /\
    ngOnDestroy s' = (Normal tt, s').
Proof.
  destruct s as [[cv rd cam sc ct g ws [id|]] h ms [d rs w hh dpr t ls q n lds dr un] k];
    unfold ngOnDestroy, the_svc, cancelAnimationFrame; rewrite bind_gets; cbn.
  - eexists. split; [reflexivity|]. cbn. repeat (split; [reflexivity|]). split.
    + intros c. rewrite list_elem_of_filter. split; intros [H1 H2]; split; auto; congruence.
    + unfold modify, with_env, set_raf. cbn. rewrite filter_filter_same. reflexivity.
  - eexists. split; [reflexivity|]. cbn. repeat (split; [reflexivity|]). split.
    + intros c. split; [intros Hc; split; [exact Hc | discriminate] | intros [Hc _]; exact Hc].
    + reflexivity.
Qed.

(** ** The wheel list is never shortened *)

Lemma wheels_grow_refl s : wheels_grow s s.
Proof. exists []. now rewrite app_nil_r. Qed.

Lemma wheels_grow_trans s1 s2 s3 : wheels_grow s1 s2 -> wheels_grow s2 s3 -> wheels_grow s1 s3.
Proof. intros [n1 E1] [n2 E2]. exists (n1 ++ n2). rewrite E2, E1, app_assoc. reflexivity. Qed.

#[local] Hint Resolve wheels_grow_refl wheels_grow_trans : respects.

Ltac wheels_grow_write :=
  first [ apply wheels_grow_refl
        | exists []; cbn; rewrite app_nil_r; reflexivity
        | eexists; cbn; reflexivity ].

Lemma render_wheels_grow : respects wheels_grow render.
Proof. unfold render. respects_tac; wheels_grow_write. Qed.

Lemma resize_wheels_grow : respects wheels_grow resize.
Proof. unfold resize. respects_tac; wheels_grow_write. Qed.

Lemma ngOnInit_wheels_grow cv : respects wheels_grow (ngOnInit cv).
Proof.
  unfold ngOnInit, createScene, animate.
  respects_tac; try wheels_grow_write; apply render_wheels_grow.
Qed.

Lemma ngOnDestroy_wheels_grow : respects wheels_grow ngOnDestroy.
Proof. unfold ngOnDestroy. respects_tac; wheels_grow_write. Qed.

Lemma call_wheels_grow v h : respects wheels_grow (call v h).
Proof.
  destruct h as [m| |]; cbn [call];
    [destruct v; respects_tac; wheels_grow_write
    | apply render_wheels_grow | apply resize_wheels_grow].
Qed.

Lemma load_wheels_grow rq gltf :
  respects wheels_grow (let* g := build_node None gltf in onLoad rq g).
Proof.
  apply respects_bind; [apply wheels_grow_trans | |].
  - apply respects_build_node;
      [apply wheels_grow_refl | apply wheels_grow_trans | | | ]; intros; wheels_grow_write.
  - intros g. unfold onLoad. respects_tac; wheels_grow_write.
Qed.

Lemma task_wheels_grow m s : respects wheels_grow m -> wheels_grow s (task m s).
Proof.
  intros Hm. apply (respects_task wheels_grow wheels_grow_trans m Hm).
  intros; wheels_grow_write.
Qed.

Lemma fold_wheels_grow {A} (f : State -> A -> State) (l : list A) :
  (forall s a, wheels_grow s (f s a)) -> forall s, wheels_grow s (fold_left f l s).
Proof.
  intros Hf. induction l as [|a l IH]; intros s; cbn [fold_left].
  - apply wheels_grow_refl.
  - eapply wheels_grow_trans; [apply Hf | apply IH].
Qed.

Lemma dispatch_wheels_grow t type v s : wheels_grow s (dispatch t type v s).
Proof.
  unfold dispatch. apply fold_wheels_grow.
  intros s0 l. apply task_wheels_grow, call_wheels_grow.
Qed.

Lemma step_wheels_grow e s : wheels_grow s (step e s).
Proof.
  destruct e as [cv| |now| |w h| |id type v|i gltf]; cbn [step].
  - apply task_wheels_grow, ngOnInit_wheels_grow.
  - apply task_wheels_grow, ngOnDestroy_wheels_grow.
  - destruct (clock (env s) <=? now); wheels_grow_write.
  - apply (wheels_grow_trans _ (with_env (fun b => set_raf [] (raf_next b) b) s));
      [wheels_grow_write|].
    apply fold_wheels_grow. intros s0 c. apply task_wheels_grow, call_wheels_grow.
  - apply (wheels_grow_trans _ (with_env (set_inner w h) s)); [wheels_grow_write|].
    apply dispatch_wheels_grow.
  - destruct (readyState (env s)); try apply wheels_grow_refl.
    apply (wheels_grow_trans _ (with_env (set_readyState Interactive) s));
      [wheels_grow_write|].
    apply dispatch_wheels_grow.
  - apply dispatch_wheels_grow.
  - destruct (loads (env s) !! i) as [rq|]; [|apply wheels_grow_refl].
    apply (wheels_grow_trans _ (with_env (fun b => set_loads (remove_nth i (loads b)) b) s));
      [wheels_grow_write|].
    apply task_wheels_grow, load_wheels_grow.
Qed.

Lemma run_wheels_grow evs : forall s, wheels_grow s (run evs s).
Proof.
  induction evs as [|e evs IH]; intros s; [apply wheels_grow_refl|].
  change (run (e :: evs) s) with (run evs (step e s)).
  eapply wheels_grow_trans; [apply step_wheels_grow | apply IH].
Qed.

(** X3: the wheel list is append-only. Whatever happens (components are
    created, loads complete, the service is destroyed), the entries the
    list holds stay where they are; entries are only added at its end. *)
Theorem wheels_append_only (evs : list Event) (s : State) :
  exists new, wheels (svc (run evs s)) = wheels (svc s) ++ new.
Proof. exact (run_wheels_grow evs s). Qed.

(** ** The camera and the renderer agree *)

(** What [createScene] makes of the canvas and of the window. *)
Lemma createScene_view (cv : ElementRef) (s : State) :
  inputs_present s ->
  let s' := snd (createScene cv s) in
  let w := innerWidth (env s) in
  let h := innerHeight (env s) in
  canvas (svc s') = Some (nativeElement cv) /\
  renderer (svc s') = Some
    (set_toneMappingExposure 0.85
      (set_toneMapping ACESFilmicToneMapping
        (set_outputEncoding sRGBEncoding
          (setSize w h
            (setPixelRatio (devicePixelRatio (env s))
              (new_WebGLRenderer (nativeElement cv) true true)))))) /\
  camera (svc s') = Some
    (set_lookAt (mkVector3 0 0.5 0)
      (set_position (mkVector3 4.25 1.4 (-4.5))
        (new_PerspectiveCamera 40 (w / h) 0.1 100))) /\
  controls (svc s') = Some (mkControls (mkVector3 0 0.5 0)) /\
  scene (svc s') = Some
    (mkScene (length (objects s)) (Some 0xeeeeee%Z) (Some RoomEnvironmentMap)
       (Some (mkFog 0xeeeeee%Z 10 50))) /\
  (innerWidth (env s'), innerHeight (env s')) = (w, h).
Proof.
  intros Hin. destruct (inputs_present_decide s Hin) as (Hb & Hd & Hg). clear Hin.
  destruct s as [[cv0 rd cam sc ct gg ws f] h ms [d rs w hh dpr t ls q n lds dr un] k].
  cbn [env dom] in Hb, Hd, Hg.
  unfold createScene, alloc_material, alloc_object, getElementById, listen, addEventListener,
    Object3D_add, update_object, read_object.
  plumb. rewrite Hb. plumb. rewrite Hd. plumb. rewrite Hg. plumb.
  rewrite (list_lookup_middle (h ++ [_]) [] _ _ eq_refl). plumb.
  cbn [parent set_geometry new_Object3D]. plumb.
  rewrite (list_lookup_middle (h ++ [_]) [] _ _ eq_refl). plumb.
  rewrite list_lookup_insert_ne by (rewrite length_app; cbn; lia).
  rewrite lookup_app_l by (rewrite length_app; cbn; lia).
  rewrite (list_lookup_middle h [] _ _ eq_refl). plumb.
  repeat split; reflexivity.
Qed.

Lemma render_window : respects (same window_view) render.
Proof. unfold render. respects_tac; same_write. Qed.

Lemma ngOnDestroy_window : respects (same window_view) ngOnDestroy.
Proof. unfold ngOnDestroy. respects_tac; same_write. Qed.

Lemma animate_window : respects (same window_view) animate.
Proof. unfold animate. respects_tac; try same_write; apply render_window. Qed.

Lemma load_window rq gltf :
  respects (same window_view) (let* g := build_node None gltf in onLoad rq g).
Proof.
  apply respects_bind; [apply same_trans | |].
  - apply same_build_node; reflexivity.
  - intros g. unfold onLoad. respects_tac; same_write.
Qed.

Lemma task_window m s :
  respects (same window_view) m -> window_view (task m s) = window_view s.
Proof.
  intros Hm. apply (respects_task (same window_view) (same_trans window_view) m Hm).
  intros; reflexivity.
Qed.

(** [resize] on a service that has its camera and its renderer. *)
Lemma resize_ready s :
  sync_ready s ->
  exists s',
    resize s = (Normal tt, s') /\ sync_ready s' /\
    sized (innerWidth (env s)) (innerHeight (env s)) s' /\
    env s' = env s.
Proof.
  intros (cam & rd & Hc & Hr & _).
  destruct s as [[cv0 rd0 cam0 sc ct gg ws f] h ms b k]. cbn in Hc, Hr. subst.
  eexists. split; [reflexivity|]. cbn.
  split; [|split; [|reflexivity]]; eexists _, _; cbn; repeat split; reflexivity.
Qed.

Lemma resize_in_sync s : in_sync s -> in_sync (snd (resize s)).
Proof.
  intros [[Hc Hr]|H].
  - left. destruct s as [[cv0 rd0 cam0 sc ct gg ws f] h ms b k]. cbn in Hc, Hr. subst.
    cbn. auto.
  - right. destruct (resize_ready s H) as (s' & E & H' & _). rewrite E. exact H'.
Qed.

Lemma createScene_in_sync cv s : in_sync s -> in_sync (snd (createScene cv s)).
Proof.
  intros H. destruct (inputs_present_dec s) as [Hin|(id & Hid & Hout)].
  - right. destruct (createScene_view cv s Hin) as (_ & Hr & Hc & _).
    eexists _, _. split; [exact Hc|]. split; [exact Hr|]. cbn. auto.
  - destruct (createScene_without_input s cv id Hid Hout) as (what & s1 & E & Hs & _).
    rewrite E. cbn [snd]. unfold in_sync, sync_ready in *. rewrite Hs. exact H.
Qed.

Lemma createScene_ready cv s : sync_ready s -> sync_ready (snd (createScene cv s)).
Proof.
  intros H. destruct (inputs_present_dec s) as [Hin|(id & Hid & Hout)].
  - destruct (createScene_view cv s Hin) as (_ & Hr & Hc & _).
    eexists _, _. split; [exact Hc|]. split; [exact Hr|]. cbn. auto.
  - destruct (createScene_without_input s cv id Hid Hout) as (what & s1 & E & Hs & _).
    rewrite E. cbn [snd]. unfold sync_ready in *. rewrite Hs. exact H.
Qed.

(** A property of the camera and the renderer that [createScene] and
    [resize] keep holds in every state that follows. *)
Section ViewInvariant.
Variable P : State -> Prop.
Hypothesis P_view : forall s s', window_view s' = window_view s -> P s -> P s'.
Hypothesis P_window : forall s f, P s -> P (with_env f s).
Hypothesis P_createScene : forall cv s, P s -> P (snd (createScene cv s)).
Hypothesis P_resize : forall s, P s -> P (snd (resize s)).

Lemma view_task (m : M State unit) s : P (snd (m s)) -> P (task m s).
Proof.
  unfold task. destruct (m s) as [[a|e] s']; cbn [snd]; [auto|]. apply P_window.
Qed.

Lemma view_call v h s : P s -> P (task (call v h) s).
Proof.
  intros H. apply view_task. destruct h as [m| |]; cbn [call].
  - eapply P_view; [|exact H].
    assert (Hm : respects (same window_view) (call v (SetMaterialColor m)))
      by (cbn [call]; destruct v; respects_tac; same_write).
    exact (Hm s).
  - eapply P_view; [apply render_window | exact H].
  - apply P_resize, H.
Qed.

Lemma view_fold {A} v (hd : A -> Handler) (L : list A) : forall s,
  P s -> P (fold_left (fun s a => task (call v (hd a)) s) L s).
Proof.
  induction L as [|a L IH]; intros s H; cbn [fold_left]; [exact H|].
  apply IH, view_call, H.
Qed.

Lemma view_step e s : P s -> P (step e s).
Proof.
  intros H. destruct e as [cv| |now| |w h| |id type v|i gltf]; cbn [step].
  - apply view_task. unfold ngOnInit, bind.
    pose proof (P_createScene cv s H) as H1.
    destruct (createScene cv s) as [[[]|e] s1]; cbn [snd] in *; [|exact H1].
    eapply P_view; [apply animate_window | exact H1].
  - apply view_task. eapply P_view; [apply ngOnDestroy_window | exact H].
  - destruct (clock (env s) <=? now); [apply P_window|]; exact H.
  - apply view_fold, P_window, H.
  - apply view_fold, P_window, H.
  - destruct (readyState (env s)); try exact H. apply view_fold, P_window, H.
  - apply view_fold, H.
  - destruct (loads (env s) !! i) as [rq|]; [|exact H].
    apply view_task. eapply P_view; [apply load_window|]. apply P_window, H.
Qed.

Lemma view_run evs : forall s, P s -> P (run evs s).
Proof.
  induction evs as [|e evs IH]; intros s H; [exact H|].
  change (run (e :: evs) s) with (run evs (step e s)). apply IH, view_step, H.
Qed.
End ViewInvariant.

Lemma sync_ready_view s s' : window_view s' = window_view s -> sync_ready s -> sync_ready s'.
Proof. intros [= Hc Hr _ _]. unfold sync_ready. rewrite Hc, Hr. auto. Qed.

Lemma in_sync_view s s' : window_view s' = window_view s -> in_sync s -> in_sync s'.
Proof. intros [= Hc Hr _ _]. unfold in_sync, sync_ready. rewrite Hc, Hr. auto. Qed.

Lemma resize_keeps_ready s : sync_ready s -> sync_ready (snd (resize s)).
Proof. intros H. destruct (resize_ready s H) as (s' & E & H' & _). rewrite E. exact H'. Qed.

(** X4: in every state the program reaches the camera and the renderer
    agree. Either the service has neither, or it has both, the aspect of
    the camera is the width of the renderer's output by its height, and the
    projection matrix is the one of the camera's present field of view,
    aspect and planes: [createScene] and [resize] write both sides, and no
    task ends between the two writes. *)
Theorem camera_and_renderer_agree (page : Browser) (evs : list Event) :
  in_sync (run evs (boot page)).
Proof.
  apply (view_run in_sync).
  - exact in_sync_view.
  - intros s f H. exact H.
  - exact createScene_in_sync.
  - exact resize_in_sync.
  - left. split; reflexivity.
Qed.

(** ** A resize of the window *)

Lemma sized_view w h s s' : window_view s' = window_view s -> sized w h s -> sized w h s'.
Proof. intros [= Hc Hr _ _]. unfold sized. rewrite Hc, Hr. auto. Qed.

Lemma call_window v h : h <> CallResize -> respects (same window_view) (call v h).
Proof.
  intros Hh. destruct h as [m| |]; cbn [call];
    [destruct v; respects_tac; same_write | apply render_window | congruence].
Qed.

(** One listener called while the window has the inner size (w, h). *)
Lemma call_resize_sized v h0 s w h :
  sync_ready s -> innerWidth (env s) = w -> innerHeight (env s) = h ->
  let s1 := task (call v h0) s in
  sync_ready s1 /\ innerWidth (env s1) = w /\ innerHeight (env s1) = h /\
  (h0 = CallResize \/ sized w h s -> sized w h s1).
Proof.
  intros Hr Hw Hh s1.
  assert (Hcase : h0 = CallResize \/ h0 <> CallResize)
    by (destruct h0; auto; right; discriminate).
  destruct Hcase as [->|Hne].
  - destruct (resize_ready s Hr) as (s' & E & Hr' & Hs & He).
    subst s1. cbn [call]. rewrite (task_normal _ _ _ E).
    rewrite He, Hw, Hh in *. auto.
  - pose proof (task_window _ s (call_window v h0 Hne)) as V. fold s1 in V.
    split; [exact (sync_ready_view _ _ V Hr)|].
    injection V as _ _ Vw Vh. rewrite Vw, Vh.
    split; [exact Hw|]. split; [exact Hh|].
    intros [->|Hs]; [congruence|].
    apply (sized_view w h s); [|exact Hs].
    apply (task_window _ s (call_window v h0 Hne)).
Qed.

Lemma fold_resize_sized v (L : list Listener) w h : forall s,
  sync_ready s -> innerWidth (env s) = w -> innerHeight (env s) = h ->
  (sized w h s \/ exists l, l ∈ L /\ l_handler l = CallResize) ->
  sized w h (fold_left (fun s l => task (call v (l_handler l)) s) L s).
Proof.
  induction L as [|a L IH]; intros s Hr Hw Hh Hs; cbn [fold_left].
  - destruct Hs as [Hs|(l & Hl & _)]; [exact Hs | inversion Hl].
  - destruct (call_resize_sized v (l_handler a) s w h Hr Hw Hh) as (Hr1 & Hw1 & Hh1 & Hs1).
    apply IH; [exact Hr1 | exact Hw1 | exact Hh1 |].
    destruct Hs as [Hs|(l & Hl & Hc)]; [left; apply Hs1; auto|].
    apply elem_of_cons in Hl as [->|Hl]; [left; apply Hs1; auto | right; eauto].
Qed.

(** An [animate] that completes has added the listener for [resize]. *)
Lemma animate_adds_resize s s' :
  animate s = (Normal tt, s') ->
  mkListener Window "resize" CallResize ∈ listeners (env s').
Proof.
  intros H. unfold animate in H.
  apply bind_inv in H as (rs & s0 & _ & H).
  apply bind_inv in H as ([] & s1 & _ & H).
  unfold addEventListener, modify in H. injection H as <-.
  cbn. apply elem_of_app. right. apply list_elem_of_singleton. reflexivity.
Qed.

(** X5: once a component was created (its [ngOnInit] completed), a resize
    of the window to (w, h) leaves the camera with the aspect w / h, its
    projection matrix computed from it, and the renderer with the output
    size (w, h), whatever happened in between: the listener that [animate]
    added is still there and the service still has its camera. *)
Theorem window_resize_resizes
    (cv : ElementRef) (s0 s1 : State) (evs : list Event) (w h : float) :
  ngOnInit cv s0 = (Normal tt, s1) ->
  sized w h (step (WindowResize w h) (run evs s1)).
Proof.
  intros H. unfold ngOnInit in H.
  apply bind_inv in H as ([] & sc & Hc & Ha).
  (* the camera and the renderer *)
  assert (Hr1 : sync_ready s1).
  { pose proof (createScene_completes_inputs cv s0 sc Hc) as Hin.
    destruct (createScene_view cv s0 Hin) as (_ & Hrd & Hcam & _).
    rewrite Hc in Hrd, Hcam. cbn [snd] in Hrd, Hcam.
    apply (sync_ready_view sc).
    - pose proof (animate_window sc) as V. rewrite Ha in V. exact V.
    - eexists _, _. split; [exact Hcam|]. split; [exact Hrd|]. cbn. auto. }
  assert (Hr : sync_ready (run evs s1)).
  { apply (view_run sync_ready);
      [exact sync_ready_view | intros s f Hs; exact Hs | exact createScene_ready
      | exact resize_keeps_ready | exact Hr1]. }
  (* the listener *)
  assert (Hl : mkListener Window "resize" CallResize ∈ listeners (env (run evs s1))).
  { destruct (run_grows evs s1) as [[new ->] _].
    apply elem_of_app. left. exact (animate_adds_resize sc s1 Ha). }
  cbn [step]. unfold dispatch.
  apply fold_resize_sized; [exact Hr | reflexivity | reflexivity |].
  right. exists (mkListener Window "resize" CallResize). split; [|reflexivity].
  apply list_elem_of_In, filter_In. split; [apply list_elem_of_In, Hl | reflexivity].
Qed.

Lemma window_resize_resizes_witness :
  sized 1024 768
    (step (WindowResize 1024 768)
       (run [Tick 16; AnimationFrame; GltfLoaded 0 ferrari; ComponentInit sample_canvas;
             WindowResize 640 480; Tick 33; AnimationFrame]
          sample_running)).
Proof.
  apply (window_resize_resizes sample_canvas (boot sample_page) sample_running).
  vm_compute. reflexivity.
Defined.

(** ** The handle the service holds *)

(** [render] requests no frame, or one that it records. *)
Lemma render_frames (s : State) :
  let s' := snd (render s) in
  frames_view s' = frames_view s \/
  frames_view s' =
    (raf_queue (env s) ++ [(raf_next (env s), CallRender)], S (raf_next (env s)),
     Some (raf_next (env s))).
Proof.
  set (P := fun s1 =>
    frames_view s1 = frames_view s \/
    frames_view s1 =
      (raf_queue (env s) ++ [(raf_next (env s), CallRender)], S (raf_next (env s)),
       Some (raf_next (env s)))).
  change (P (snd (render s))).
  unfold render. rewrite bind_modify.
  unfold the_env at 1. rewrite bind_gets.
  unfold the_svc at 1. rewrite bind_gets.
  match goal with |- context [bind (for_each ?b ?l) ?k ?st] =>
    assert (Hloop : respects (same frames_view) (for_each b l))
      by (unfold rotate_wheel; respects_tac; same_write);
    destruct (bind_respects_cases (same frames_view) (for_each b l) k st Hloop)
      as [(e & s1 & -> & V1)|([] & s1 & -> & V1)]
  end.
  { left. exact V1. }
  unfold the_svc at 1. rewrite bind_gets.
  destruct (grid (svc s1)) as [g|]; [|left; exact V1].
  cbn [deref]. rewrite bind_ret.
  match goal with |- context [bind (update_object ?r ?f) ?k ?st] =>
    assert (Hgrid : respects (same frames_view) (update_object r f))
      by (respects_tac; same_write);
    destruct (bind_respects_cases (same frames_view) (update_object r f) k st Hgrid)
      as [(e & s2 & -> & V2)|([] & s2 & -> & V2)]
  end.
  { left. etransitivity; [exact V2 | exact V1]. }
  assert (V : frames_view s2 = frames_view s) by (etransitivity; [exact V2 | exact V1]).
  injection V as Q N F.
  unfold requestAnimationFrame at 1. unfold bind at 1. rewrite bind_modify.
  match goal with |- P (snd (?post ?st)) =>
    assert (Hr : respects (same frames_view) post) by (respects_tac; same_write);
    pose proof (Hr st) as Hpost;
    generalize dependent (snd (post st))
  end.
  intros s3 Hpost. right. rewrite Hpost. unfold frames_view. cbn. rewrite Q, N. reflexivity.
Qed.

Lemma newest_frame_view s s' : frames_view s' = frames_view s -> newest_frame s -> newest_frame s'.
Proof. intros [= Q N F]. unfold newest_frame. rewrite Q, N, F. auto. Qed.

Lemma quiet_frames_view s s' : quiet_view s' = quiet_view s -> frames_view s' = frames_view s.
Proof.
  unfold quiet_view, loop_view, frames_view. intros [= Q N F _ _ _ _ _]. congruence.
Qed.

Lemma task_frames_view m s : frames_view (task m s) = frames_view (snd (m s)).
Proof. unfold task. destruct (m s) as [[a|e] s']; reflexivity. Qed.

Lemma render_newest s : newest_frame s -> newest_frame (snd (render s)).
Proof.
  intros H. destruct (render_frames s) as [V|V]; [exact (newest_frame_view _ _ V H)|].
  destruct H as (Hnd & Hlt & _). injection V as Q N F.
  unfold newest_frame. rewrite Q, N, F. split; [|split; [|reflexivity]].
  - rewrite fmap_app. apply NoDup_app. split; [exact Hnd|]. split.
    + intros x Hx Hin. apply list_elem_of_singleton in Hin. subst x.
      apply list_elem_of_fmap in Hx as (c & Hc & Hin).
      rewrite Forall_forall in Hlt. specialize (Hlt c Hin). cbn in Hc. lia.
    + apply NoDup_singleton.
  - apply Forall_app. split.
    + eapply Forall_impl; [exact Hlt|]. intros c Hc. cbn in *. lia.
    + apply Forall_singleton. cbn. lia.
Qed.

Lemma handles_filter (q : list (nat * Handler)) (id : nat) :
  NoDup (fst <$> q) -> NoDup (fst <$> filter (fun c => fst c <> id) q).
Proof.
  induction q as [|a q IH]; [auto|]. cbn [fmap list_fmap]. intros Hnd.
  apply NoDup_cons in Hnd as [Ha Hnd]. rewrite filter_cons.
  destruct (decide (fst a <> id)); [|auto].
  cbn [fmap list_fmap]. apply NoDup_cons. split; [|auto].
  intros Hin. apply Ha.
  apply list_elem_of_fmap in Hin as (c & Hc & Hin).
  apply list_elem_of_filter in Hin as [_ Hin].
  apply list_elem_of_fmap. eauto.
Qed.

Lemma ngOnDestroy_newest s : newest_frame s -> newest_frame (snd (ngOnDestroy s)).
Proof.
  intros (Hnd & Hlt & Hf).
  unfold ngOnDestroy, the_svc, cancelAnimationFrame. rewrite bind_gets.
  destruct (frameId (svc s)) as [id|] eqn:E; cbn; unfold newest_frame; cbn; rewrite E.
  - split; [apply handles_filter, Hnd|]. split; [|exact Hf].
    apply Forall_forall. intros c Hc. apply list_elem_of_filter in Hc as [_ Hc].
    rewrite Forall_forall in Hlt. auto.
  - auto.
Qed.

Lemma call_newest v h s : newest_frame s -> newest_frame (task (call v h) s).
Proof.
  intros H. apply (newest_frame_view (snd (call v h s))); [apply task_frames_view|].
  destruct h as [m| |].
  - eapply newest_frame_view; [|exact H].
    apply quiet_frames_view. apply (call_quiet v (SetMaterialColor m)). discriminate.
  - apply render_newest, H.
  - eapply newest_frame_view; [|exact H]. apply quiet_frames_view, resize_quiet.
Qed.

Lemma fold_newest {A} v (hd : A -> Handler) (L : list A) : forall s,
  newest_frame s -> newest_frame (fold_left (fun s a => task (call v (hd a)) s) L s).
Proof.
  induction L as [|a L IH]; intros s H; cbn [fold_left]; [exact H|].
  apply IH, call_newest, H.
Qed.

Lemma step_newest e s : newest_frame s -> newest_frame (step e s).
Proof.
  intros H. destruct e as [cv| |now| |w h| |id type v|i gltf]; cbn [step].
  - apply (newest_frame_view (snd (ngOnInit cv s))); [apply task_frames_view|].
    unfold ngOnInit, bind.
    pose proof (createScene_same_loop cv s) as V. unfold same in V.
    injection V as Q N F _ _ _ _.
    assert (H1 : newest_frame (snd (createScene cv s))).
    { apply (newest_frame_view s); [|exact H]. unfold frames_view. congruence. }
    clear Q N F.
    destruct (createScene cv s) as [[[]|e] s1]; cbn [snd] in *; [|exact H1].
    unfold animate, the_env. rewrite bind_gets.
    destruct (readyState (env s1)); unfold addEventListener.
    + cbn. exact H1.
    + pose proof (render_newest s1 H1) as H2. unfold bind.
      destruct (render s1) as [[[]|e] s2]; cbn [snd] in *; exact H2.
    + pose proof (render_newest s1 H1) as H2. unfold bind.
      destruct (render s1) as [[[]|e] s2]; cbn [snd] in *; exact H2.
  - apply (newest_frame_view (snd (ngOnDestroy s))); [apply task_frames_view|].
    apply ngOnDestroy_newest, H.
  - destruct (clock (env s) <=? now); exact H.
  - apply fold_newest. destruct H as (_ & _ & Hf).
    unfold newest_frame. cbn. split; [apply NoDup_nil; trivial|]. split; [constructor|].
    destruct (frameId (svc s)); auto.
  - apply fold_newest. exact H.
  - destruct (readyState (env s)); try exact H. apply fold_newest. exact H.
  - apply fold_newest. exact H.
  - destruct (loads (env s) !! i) as [rq|]; [|exact H].
    eapply newest_frame_view; [|exact H].
    etransitivity; [apply quiet_frames_view, task_quiet, load_quiet | reflexivity].
Qed.

Lemma run_newest evs : forall s, newest_frame s -> newest_frame (run evs s).
Proof.
  induction evs as [|e evs IH]; intros s H; [exact H|].
  change (run (e :: evs) s) with (run evs (step e s)). apply IH, step_newest, H.
Qed.

(** A filter that drops one handle drops one frame at most. *)
Lemma one_frame_dropped (q : list (nat * Handler)) (id : nat) :
  NoDup (fst <$> q) -> length q <= S (length (filter (fun c => fst c <> id) q)).
Proof.
  induction q as [|a q IH]; [cbn; lia|]. cbn [fmap list_fmap]. intros Hnd.
  apply NoDup_cons in Hnd as [Ha Hnd]. rewrite filter_cons.
  destruct (decide (fst a <> id)) as [Hne|He]; [cbn; specialize (IH Hnd); lia|].
  assert (Hall : filter (fun c : nat * Handler => fst c <> id) q = q).
  { clear IH Hnd. induction q as [|b q IH]; [reflexivity|].
    rewrite filter_cons. destruct (decide (fst b <> id)) as [_|Hb].
    - f_equal. apply IH. intros Hin. apply Ha. cbn. apply elem_of_cons. auto.
    - exfalso. apply Ha. cbn. apply elem_of_cons. left.
      destruct (decide (fst a = id)); [|contradiction].
      destruct (decide (fst b = id)); [congruence|contradiction]. }
  rewrite Hall. cbn. lia.
Qed.

(** X6: on a page that was just opened, in every state the program
    reaches, the handles of the frames in the queue are distinct and
    [frameId] is the handle that was issued last (none if [render] never
    requested a frame). So [ngOnDestroy] cancels the frame requested last
    and no other: every other frame of the queue is still there after the
    teardown, and the queue is shorter by one at most. *)
Theorem frameId_is_newest_frame
    (ids : list string) (rs : ReadyState) (w h dpr now : float) (evs : list Event) :
  let s := run evs (boot (new_page ids rs w h dpr now)) in
  let sd := step ServiceDestroy s in
  newest_frame s /\
  (forall c, c ∈ raf_queue (env s) -> S (fst c) <> raf_next (env s) ->
             c ∈ raf_queue (env sd)) /\
  length (raf_queue (env s)) <= S (length (raf_queue (env sd))).
Proof.
  intros s sd.
  assert (H : newest_frame s).
  { apply run_newest. split; [apply NoDup_nil; trivial|]. split; [constructor | reflexivity]. }
  split; [exact H|].
  destruct (ngOnDestroy_effect s) as [Hq _]. cbv zeta in Hq.
  destruct H as (Hnd & _ & Hf). subst sd. cbn [step]. rewrite Hq.
  destruct (frameId (svc s)) as [id|].
  - split; [|apply one_frame_dropped, Hnd].
    intros c Hc Hne. apply list_elem_of_filter. split; [lia | exact Hc].
  - split; [auto | lia].
Qed.

(** ** What a call of [render] does *)

Lemma is_Some_insert {A} (h : list A) (r r' : nat) (x : A) :
  is_Some (<[r := x]> h !! r') <-> is_Some (h !! r').
Proof. rewrite !lookup_lt_is_Some, length_insert. reflexivity. Qed.

Lemma is_object_insert_inv s r o w :
  is_object (with_objects (fun h => <[r := o]> h) s) w -> is_object s w.
Proof. destruct w as [r'|]; cbn; [apply is_Some_insert | auto]. Qed.

(** The loop over the wheels completes when every entry is an object, and
    throws at the first that is not; it writes to the angles of objects
    only. *)
Lemma rotate_wheels_cases x ws : forall s,
  (Forall (is_object s) ws /\
   exists s', for_each (rotate_wheel x) ws s = (Normal tt, s') /\
     svc s' = svc s /\ env s' = env s /\ render_calls s' = render_calls s /\
     (forall r, children <$> objects s' !! r = children <$> objects s !! r)) \/
  (~ Forall (is_object s) ws /\
   exists e s', for_each (rotate_wheel x) ws s = (Throw e, s') /\
     svc s' = svc s /\ env s' = env s /\ render_calls s' = render_calls s).
Proof.
  induction ws as [|a ws IH]; intros s; cbn [for_each].
  - left. split; [constructor|]. exists s. repeat split; auto.
  - destruct a as [r|].
    2:{ right. split; [intros H; apply Forall_cons in H as [[] _]|].
        exists (TypeError "this.wheels[i]"), s. repeat split. }
    assert (Hhead : rotate_wheel x (Some r) s = update_object r (set_rotation_x x) s)
      by reflexivity.
    destruct (update_object_cases r (set_rotation_x x) s) as [(o & Ho & E)|[Hn E]];
      rewrite <- Hhead in E.
    2:{ right. split.
        - intros H. apply Forall_cons in H as [[o Ho] _]. cbn in Ho. congruence.
        - exists (Dangling r), s. rewrite (bind_throw _ _ _ _ _ E). repeat split. }
    rewrite (bind_normal _ _ _ _ _ E).
    set (s1 := with_objects (fun h => <[r := set_rotation_x x o]> h) s) in *.
    destruct (IH s1) as [(HF & s' & E1 & Hs & He & Hrc & Hch)|(HF & e & s' & E1 & Hs & He & Hrc)].
    + left. split.
      * apply Forall_cons. split; [cbn; eauto|].
        eapply Forall_impl; [exact HF|]. intros w. apply is_object_insert_inv.
      * exists s'. split; [exact E1|]. repeat split; auto.
        intros r'. rewrite Hch. unfold s1. cbn [objects with_objects].
        destruct (decide (r = r')) as [<-|Hne].
        -- rewrite list_lookup_insert_eq by (eapply lookup_lt_Some; eauto).
           rewrite Ho. reflexivity.
        -- rewrite list_lookup_insert_ne by exact Hne. reflexivity.
    + right. split.
      * intros H. apply HF. apply Forall_cons in H as [_ H].
        eapply Forall_impl; [exact H|]. intros w. apply is_object_insert.
      * exists e, s'. auto.
Qed.

(** The request of the next frame and the draw call. *)
Lemma render_draw_cases (s : State) :
  let m := (let* id := requestAnimationFrame CallRender in
            modify (with_svc (set_frameId (Some id))) ;;;
            let* r := the_svc renderer in
            let* _ := deref "this.renderer" r in
            let* sc := the_svc scene in
            let* sc := deref "this.scene" sc in
            let* cam := the_svc camera in
            let* cam := deref "this.camera" cam in
            renderer_render sc cam) in
  (can_draw s /\
   exists s' sc so cam,
     m s = (Normal tt, s') /\ frames_view s' = one_more_frame s /\
     scene (svc s) = Some sc /\ objects s !! scene_obj sc = Some so /\
     camera (svc s) = Some cam /\
     draws (env s') = mkDraw sc (children so) cam :: draws (env s) /\
     objects s' = objects s /\ render_calls s' = render_calls s) \/
  (~ can_draw s /\
   exists e s', m s = (Throw e, s') /\ frames_view s' = one_more_frame s /\
     draws (env s') = draws (env s) /\ render_calls s' = render_calls s).
Proof.
  destruct s as [[cv rd cam sc ct gg ws f] h ms [d rs w hh dpr t ls q n lds dr un] k].
  unfold can_draw, one_more_frame, frames_view, requestAnimationFrame, renderer_render,
    read_object.
  plumb.
  destruct rd as [rd|];
    [|right; split; [intros ([x Hx] & _); discriminate Hx | eexists _, _; repeat split]].
  plumb. destruct sc as [sc|];
    [|right; split; [intros (_ & _ & x & Hx & _); discriminate Hx | eexists _, _; repeat split]].
  plumb. destruct cam as [cam|];
    [|right; split; [intros (_ & [x Hx] & _); discriminate Hx | eexists _, _; repeat split]].
  plumb. destruct (h !! scene_obj sc) as [so|] eqn:Eso.
  - left. split; [repeat split; eauto|]. eexists _, sc, so, cam. repeat split; eauto.
  - right. split.
    + intros (_ & _ & x & [= <-] & [so Hso]). congruence.
    + eexists _, _. repeat split.
Qed.

Lemma can_draw_same s s' :
  svc s' = svc s ->
  (forall r, children <$> objects s' !! r = children <$> objects s !! r) ->
  can_draw s' <-> can_draw s.
Proof.
  intros Hs Hch. unfold can_draw. rewrite Hs.
  assert (Hdom : forall r, is_Some (objects s' !! r) <-> is_Some (objects s !! r)).
  { intros r. rewrite <- !(fmap_is_Some children), Hch. reflexivity. }
  split; intros (Hr & Hc & sc & Hsc & Ho); (split; [exact Hr|]; split; [exact Hc|]);
    exists sc; (split; [exact Hsc|]); apply Hdom, Ho.
Qed.

(** A call of [render], in full: it completes with one frame requested and
    one draw call, or throws at the draw call with the frame requested, or
    throws at a wheel or at the grid with no frame requested. *)
Lemma render_cases (s : State) :
  (can_rotate s /\ can_draw s /\
   exists s' sc so cam,
     render s = (Normal tt, s') /\ frames_view s' = one_more_frame s /\
     scene (svc s) = Some sc /\ objects s !! scene_obj sc = Some so /\
     camera (svc s) = Some cam /\
     draws (env s') = mkDraw sc (children so) cam :: draws (env s) /\
     render_calls s' = S (render_calls s)) \/
  (can_rotate s /\ ~ can_draw s /\
   exists e s', render s = (Throw e, s') /\ frames_view s' = one_more_frame s /\
     draws (env s') = draws (env s) /\ render_calls s' = S (render_calls s)) \/
  (~ can_rotate s /\
   exists e s', render s = (Throw e, s') /\ drawn_view s' = drawn_view s /\
     render_calls s' = S (render_calls s)).
Proof.
  pose proof (eq_refl (render s)) as Hr. unfold render at 2 in Hr.
  rewrite bind_modify in Hr. unfold the_env at 1 in Hr. rewrite bind_gets in Hr.
  unfold the_svc at 1 in Hr. rewrite bind_gets in Hr.
  match type of Hr with context [bind (for_each (rotate_wheel ?x) ?l) ?k ?st] =>
    destruct (rotate_wheels_cases x l st)
      as [(HF & s1 & E1 & Hs1 & He1 & Hrc1 & Hch1)|(HF & e & s1 & E1 & Hs1 & He1 & Hrc1)]
  end.
  2:{ rewrite (bind_throw _ _ _ _ _ E1) in Hr.
      right. right. split; [intros [H _]; apply HF; exact H|].
      exists e, s1. split; [exact Hr|].
      unfold drawn_view, frames_view. rewrite Hs1, He1, Hrc1. split; reflexivity. }
  rewrite (bind_normal _ _ _ _ _ E1) in Hr. cbv beta in Hr.
  change (svc s1 = svc s) in Hs1. change (env s1 = env s) in He1.
  change (render_calls s1 = S (render_calls s)) in Hrc1.
  change (forall r, children <$> objects s1 !! r = children <$> objects s !! r) in Hch1.
  change (Forall (is_object s) (wheels (svc s))) in HF.
  unfold the_svc at 1 in Hr. rewrite bind_gets, Hs1 in Hr.
  destruct (grid (svc s)) as [g|] eqn:Eg.
  2:{ right. right. split; [intros [_ (g & Hg & _)]; congruence|].
      exists (TypeError "this.grid"), s1. split; [exact Hr|].
      unfold drawn_view, frames_view. rewrite Hs1, He1, Hrc1. auto. }
  cbn [deref] in Hr. rewrite bind_ret in Hr.
  match type of Hr with context [bind (update_object g ?f) ?k s1] =>
    destruct (update_object_cases g f s1) as [(o & Ho & E2)|[Hn E2]]
  end.
  2:{ rewrite (bind_throw _ _ _ _ _ E2) in Hr.
      right. right. split.
      - intros [_ (g' & Hg' & Hg)]. assert (g' = g) as -> by congruence.
        apply (fmap_is_Some children) in Hg. rewrite <- Hch1, Hn in Hg.
        destruct Hg as [x Hx]. discriminate Hx.
      - exists (Dangling g), s1. split; [exact Hr|].
        unfold drawn_view, frames_view. rewrite Hs1, He1, Hrc1. auto. }
  rewrite (bind_normal _ _ _ _ _ E2) in Hr. cbv beta in Hr.
  match type of E2 with _ = (_, ?st) => set (s2 := st) in * end.
  assert (Hrot : can_rotate s).
  { split; [exact HF|]. exists g. split; [exact Eg|].
    apply (fmap_is_Some children). rewrite <- (Hch1 g), Ho. eauto. }
  assert (Hch2 : forall r, children <$> objects s2 !! r = children <$> objects s !! r).
  { intros r. rewrite <- (Hch1 r). unfold s2. cbn [objects with_objects].
    destruct (decide (g = r)) as [<-|Hne].
    - rewrite list_lookup_insert_eq by (eapply lookup_lt_Some; eauto).
      rewrite Ho. reflexivity.
    - rewrite list_lookup_insert_ne by exact Hne. reflexivity. }
  assert (Hs2 : svc s2 = svc s) by exact Hs1.
  assert (He2 : env s2 = env s) by exact He1.
  assert (Hrc2 : render_calls s2 = S (render_calls s)) by exact Hrc1.
  assert (Hf2 : one_more_frame s2 = one_more_frame s)
    by (unfold one_more_frame; rewrite He2; reflexivity).
  destruct (render_draw_cases s2)
    as [(Hd & s' & sc & so & cam & E3 & F3 & Hsc & Hso & Hcam & D3 & O3 & RC3)
       |(Hd & e & s' & E3 & F3 & D3 & RC3)];
    cbv zeta in E3; rewrite E3 in Hr.
  - left. split; [exact Hrot|]. split; [apply (can_draw_same s s2); assumption|].
    rewrite Hs2 in Hsc, Hcam.
    assert (Hso' : exists so0, objects s !! scene_obj sc = Some so0 /\
                               children so0 = children so).
    { specialize (Hch2 (scene_obj sc)). rewrite Hso in Hch2. cbn in Hch2.
      destruct (objects s !! scene_obj sc) as [so0|]; [|discriminate Hch2].
      injection Hch2 as Hc. eauto. }
    destruct Hso' as (so0 & Hso0 & Hc0).
    exists s', sc, so0, cam. rewrite Hc0, F3, D3, RC3, Hf2, He2, Hrc2. auto 10.
  - right. left. split; [exact Hrot|].
    split; [intros H; apply Hd, (can_draw_same s s2); assumption|].
    exists e, s'. rewrite F3, D3, RC3, Hf2, He2, Hrc2. auto.
Qed.

(** X7: when every entry of the wheel list is an object, the grid is one,
    and the service has its renderer, camera and scene, [render] completes:
    it has requested one frame, whose handle is the next one of the browser
    and is now in [frameId], and has issued one draw call, of the scene
    with the children it had and the camera. *)
Theorem render_requests_and_draws (s : State) :
  can_rotate s -> can_draw s ->
  exists s' sc so cam,
    render s = (Normal tt, s') /\
    scene (svc s) = Some sc /\ objects s !! scene_obj sc = Some so /\
    camera (svc s) = Some cam /\
    raf_queue (env s') = raf_queue (env s) ++ [(raf_next (env s), CallRender)] /\
    raf_next (env s') = S (raf_next (env s)) /\
    frameId (svc s') = Some (raf_next (env s)) /\
    draws (env s') = mkDraw sc (children so) cam :: draws (env s) /\
    render_calls s' = S (render_calls s).
Proof.
  intros Hrot Hdraw.
  destruct (render_cases s)
    as [(_ & _ & s' & sc & so & cam & E & F & Hsc & Hso & Hcam & D & RC)
       |[(_ & Hn & _)|(Hn & _)]]; [|contradiction|contradiction].
  injection F as Q N Fid. exists s', sc, so, cam. auto 10.
Qed.

Lemma render_requests_and_draws_witness :
  let s := run [Tick 1500] sample_loaded in
  exists s' sc so cam,
    render s = (Normal tt, s') /\
    scene (svc s) = Some sc /\ objects s !! scene_obj sc = Some so /\
    camera (svc s) = Some cam /\
    raf_queue (env s') = raf_queue (env s) ++ [(raf_next (env s), CallRender)] /\
    raf_next (env s') = S (raf_next (env s)) /\
    frameId (svc s') = Some (raf_next (env s)) /\
    draws (env s') = mkDraw sc (children so) cam :: draws (env s) /\
    render_calls s' = S (render_calls s).
Proof.
  intros s. apply (render_requests_and_draws s).
  - split; [vm_compute; repeat constructor; eexists; reflexivity|].
    exists 1%nat. split; [reflexivity | vm_compute; eexists; reflexivity].
  - split; [vm_compute; eexists; reflexivity|].
    split; [vm_compute; eexists; reflexivity|].
    eexists. split; [vm_compute; reflexivity | vm_compute; eexists; reflexivity].
Defined.

(** X8: when an entry of the wheel list is not an object, or the service
    has no grid (as before [createScene]), [render] throws before it
    requests the next frame: the queue, the next handle, [frameId] and the
    draw calls are as they were. The loop is not continued by this call. *)
Theorem render_stops_without_wheel_or_grid (s : State) :
  ~ can_rotate s ->
  exists e s',
    render s = (Throw e, s') /\
    raf_queue (env s') = raf_queue (env s) /\ raf_next (env s') = raf_next (env s) /\
    frameId (svc s') = frameId (svc s) /\ draws (env s') = draws (env s) /\
    render_calls s' = S (render_calls s).
Proof.
  intros Hn.
  destruct (render_cases s) as [(H & _)|[(H & _)|(_ & e & s' & E & V & RC)]];
    [contradiction|contradiction|].
  injection V as Q N F D. exists e, s'. auto 10.
Qed.

Lemma render_stops_without_wheel_or_grid_witness :
  let s := boot sample_page in
  exists e s',
    render s = (Throw e, s') /\
    raf_queue (env s') = raf_queue (env s) /\ raf_next (env s') = raf_next (env s) /\
    frameId (svc s') = frameId (svc s) /\ draws (env s') = draws (env s) /\
    render_calls s' = S (render_calls s).
Proof.
  intros s. apply (render_stops_without_wheel_or_grid s).
  intros [_ (g & Hg & _)]. discriminate Hg.
Defined.

(** ** A model without one of the wheels *)

Lemma render_undefined_wheel s :
  None ∈ wheels (svc s) ->
  exists e s', render s = (Throw e, s') /\ drawn_view s' = drawn_view s.
Proof.
  intros Hin.
  assert (Hn : ~ can_rotate s).
  { intros [HF _]. rewrite Forall_forall in HF. exact (HF None Hin). }
  destruct (render_cases s) as [(H & _)|[(H & _)|(_ & e & s' & E & V & _)]];
    [contradiction|contradiction|eauto].
Qed.

Lemma undefined_wheel_kept s s' : wheels_grow s s' -> None ∈ wheels (svc s) -> None ∈ wheels (svc s').
Proof. intros [new ->] H. apply elem_of_app. auto. Qed.

(** The callbacks of a display refresh when the wheel list holds
    [undefined]: each one throws, none requests a frame. *)
Lemma refresh_undefined_wheel (q : list (nat * Handler)) : forall s,
  None ∈ wheels (svc s) ->
  Forall (fun c => snd c = CallRender) q ->
  drawn_view (fold_left (fun s c => task (call None (snd c)) s) q s) = drawn_view s.
Proof.
  induction q as [|c q IH]; intros s Hin Hq; cbn [fold_left]; [reflexivity|].
  apply Forall_cons in Hq as [Hc Hq]. rewrite Hc. cbn [call].
  destruct (render_undefined_wheel s Hin) as (e & s' & E & V).
  assert (V1 : drawn_view (task render s) = drawn_view s).
  { unfold task. rewrite E. rewrite <- V. reflexivity. }
  rewrite IH; [exact V1 | | exact Hq].
  apply (undefined_wheel_kept s); [|exact Hin]. apply task_wheels_grow, render_wheels_grow.
Qed.

(** X9: the completion callback pushes what [getObjectByName] returned.
    When the model has no object of one of the four wheel names, the
    callback completes all the same and the wheel list holds [undefined]
    for good. From then on, whatever else happens, every call of [render]
    throws at that entry before it requests a frame or draws; at the next
    display refresh the pending calls of [render] throw and the queue
    stays empty: the animation has stopped. *)
Theorem undefined_wheel_ends_the_loop
    (s s' : State) (rq : LoadRequest) (g car : ref) (gs : Object3D) (nm : string)
    (evs : list Event) :
  onLoad rq g s = (Normal tt, s') ->
  objects s !! g = Some gs -> children gs !! 0%nat = Some car ->
  nm ∈ wheel_names -> getObjectByName (objects s) car nm = None ->
  let s1 := run evs s' in
  None ∈ wheels (svc s1) /\
  (exists e s2, render s1 = (Throw e, s2) /\
     frames_view s2 = frames_view s1 /\ draws (env s2) = draws (env s1)) /\
  (Forall (fun c => snd c = CallRender) (raf_queue (env s1)) ->
   raf_queue (env (step AnimationFrame s1)) = [] /\
   draws (env (step AnimationFrame s1)) = draws (env s1)).
Proof.
  intros H Hg Hcar Hnm Hnone s1.
  destruct (onLoad_normal s s' rq g H) as (gs' & car' & rs & Hg' & Hcar' & Hw & _).
  assert (gs' = gs) as -> by congruence. assert (car' = car) as -> by congruence.
  assert (Hin : None ∈ wheels (svc s1)).
  { apply (undefined_wheel_kept s'); [apply run_wheels_grow|].
    rewrite Hw. apply elem_of_app. right.
    apply list_elem_of_fmap. exists nm. auto. }
  split; [exact Hin|]. split.
  - destruct (render_undefined_wheel s1 Hin) as (e & s2 & E & V).
    injection V as Q N F D. exists e, s2. unfold frames_view. rewrite Q, N, F, D. auto.
  - intros Hq. cbn [step].
    pose proof (refresh_undefined_wheel (raf_queue (env s1))
                  (with_env (fun b => set_raf [] (raf_next b) b) s1) Hin Hq) as V.
    injection V as Q _ _ D. auto.
Qed.

Lemma undefined_wheel_ends_the_loop_witness :
  let s1 := run [Tick 16; AnimationFrame; WindowResize 1024 768]
              (snd (onLoad sample_request 2 sample_parsed_three_wheels)) in
  None ∈ wheels (svc s1) /\
  (exists e s2, render s1 = (Throw e, s2) /\
     frames_view s2 = frames_view s1 /\ draws (env s2) = draws (env s1)) /\
  (Forall (fun c => snd c = CallRender) (raf_queue (env s1)) ->
   raf_queue (env (step AnimationFrame s1)) = [] /\
   draws (env (step AnimationFrame s1)) = draws (env s1)).
Proof.
  eapply (undefined_wheel_ends_the_loop sample_parsed_three_wheels _ sample_request 2 3 _
            "wheel_rr").
  - vm_compute. reflexivity.
  - vm_compute. reflexivity.
  - vm_compute. reflexivity.
  - apply (list_elem_of_lookup_2 _ 3). reflexivity.
  - vm_compute. reflexivity.
Defined.

(** ** The creation of a component *)

Lemma is_object_app s s' new w :
  objects s' = objects s ++ new -> is_object s w -> is_object s' w.
Proof.
  intros E. destruct w as [r|]; cbn; [|auto]. intros [o Ho].
  rewrite E. exists o. apply lookup_app_l_Some, Ho.
Qed.

(** [createScene], with what it adds to the page. *)
Lemma createScene_page (cv : ElementRef) (s : State) :
  inputs_present s ->
  exists s' rd cam sc so go,
    createScene cv s = (Normal tt, s') /\
    renderer (svc s') = Some rd /\ camera (svc s') = Some cam /\
    scene (svc s') = Some sc /\ scene_obj sc = length (objects s) /\
    grid (svc s') = Some (S (length (objects s))) /\
    wheels (svc s') = wheels (svc s) /\ frameId (svc s') = frameId (svc s) /\
    objects s' = objects s ++ [so; go] /\ children so = [S (length (objects s))] /\
    listeners (env s') = listeners (env s) ++ color_listeners (length (materials s)) /\
    loads (env s') = loads (env s) ++ [car_request (length (materials s))] /\
    (readyState (env s'), dom (env s'), raf_queue (env s'), raf_next (env s'),
     draws (env s'), uncaught (env s'), render_calls s')
    = (readyState (env s), dom (env s), raf_queue (env s), raf_next (env s),
       draws (env s), uncaught (env s), render_calls s).
Proof.
  intros Hin.
  destruct (createScene_normal cv s Hin)
    as (s' & rd & cam & sc & so & go & m1 & m2 & m3 & E & Hsvc & Hso & _ & Hobj & Hch
        & _ & _ & Henv & Hrc & _).
  exists s', rd, cam, sc, so, go. rewrite Hsvc, Henv, Hrc. cbn.
  repeat split; auto.
Qed.

(** X10: on a page whose document is loaded and has the three colour
    inputs, when every entry of the wheel list is an object, [ngOnInit]
    completes: it has added the three colour listeners and the listener
    for [resize], started one load, called [render] once, requested one
    frame and drawn once, the new scene with the new grid as its only
    child, whatever an earlier scene of the service held. *)
Theorem ngOnInit_starts_a_loop (cv : ElementRef) (s : State) :
  inputs_present s ->
  readyState (env s) <> Loading ->
  Forall (is_object s) (wheels (svc s)) ->
  exists s' d,
    ngOnInit cv s = (Normal tt, s') /\
    listeners (env s') =
      listeners (env s) ++ color_listeners (length (materials s)) ++
      [mkListener Window "resize" CallResize] /\
    loads (env s') = loads (env s) ++ [car_request (length (materials s))] /\
    render_calls s' = S (render_calls s) /\
    raf_queue (env s') = raf_queue (env s) ++ [(raf_next (env s), CallRender)] /\
    frameId (svc s') = Some (raf_next (env s)) /\
    draws (env s') = d :: draws (env s) /\
    scene (svc s') = Some (d_scene d) /\
    grid (svc s') = Some (S (length (objects s))) /\
    d_children d = [S (length (objects s))].
Proof.
  intros Hin Hrs HF.
  destruct (createScene_page cv s Hin)
    as (s1 & rd & cam & sc & so & go & E & Hrd & Hcam & Hsc & Hso & Hg & Hw & Hf & Hobj
        & Hch & Hl & Hld & Hv).
  injection Hv as RS D Q N DR U RC.
  unfold ngOnInit. rewrite (bind_normal _ _ _ _ _ E).
  assert (Hrot : can_rotate s1).
  { split.
    - rewrite Hw. eapply Forall_impl; [exact HF|]. intros w. apply (is_object_app s s1 _ w Hobj).
    - exists (S (length (objects s))). split; [exact Hg|]. rewrite Hobj.
      exists go. rewrite lookup_app_r by lia.
      replace (S (length (objects s)) - length (objects s))%nat with 1%nat by lia.
      reflexivity. }
  assert (Hlook : objects s1 !! scene_obj sc = Some so).
  { rewrite Hobj, Hso. apply (list_lookup_middle (objects s) [go] so). reflexivity. }
  assert (Hdraw : can_draw s1).
  { split; [rewrite Hrd; eauto|]. split; [rewrite Hcam; eauto|].
    exists sc. rewrite Hlook. eauto. }
  destruct (render_cases s1)
    as [(_ & _ & s2 & sc' & so' & cam' & Er & F & Hsc' & Hso' & Hcam' & Dr & RCr)
       |[(_ & Hn & _)|(Hn & _)]]; [|contradiction|contradiction].
  assert (sc' = sc) as -> by congruence. assert (so' = so) as -> by congruence.
  injection F as Q2 N2 F2.
  pose proof (render_loop s1) as (L2 & _). cbv zeta in L2. rewrite Er in L2. cbn [snd] in L2.
  pose proof (render_same_cars s1) as C2. rewrite Er in C2.
  unfold same, cars_view in C2. cbn [snd] in C2. injection C2 as _ LD2 _.
  assert (Hsvc2 : scene (svc s2) = scene (svc s1) /\ grid (svc s2) = grid (svc s1)).
  { assert (Hr : respects (same (fun s => (scene (svc s), grid (svc s)))) render)
      by (unfold render; respects_tac; same_write).
    specialize (Hr s1). rewrite Er in Hr. injection Hr as -> ->. auto. }
  destruct Hsvc2 as [Hsc2 Hg2].
  unfold animate, the_env. rewrite bind_gets, RS.
  eexists _, (mkDraw sc (children so) cam').
  split.
  { destruct (readyState (env s)); [congruence| |];
      rewrite (bind_normal _ _ _ _ _ Er); reflexivity. }
  cbn. rewrite L2, LD2, RCr, Q2, F2, Dr, Hsc2, Hg2, Hl, Hld, RC, Q, N, DR, Hsc, Hg, Hch.
  rewrite <- app_assoc. auto 10.
Qed.

Lemma ngOnInit_starts_a_loop_witness :
  let s := run [Tick 16; AnimationFrame; GltfLoaded 0 ferrari] sample_running in
  exists s' d,
    ngOnInit sample_canvas s = (Normal tt, s') /\
    listeners (env s') =
      listeners (env s) ++ color_listeners (length (materials s)) ++
      [mkListener Window "resize" CallResize] /\
    loads (env s') = loads (env s) ++ [car_request (length (materials s))] /\
    render_calls s' = S (render_calls s) /\
    raf_queue (env s') = raf_queue (env s) ++ [(raf_next (env s), CallRender)] /\
    frameId (svc s') = Some (raf_next (env s)) /\
    draws (env s') = d :: draws (env s) /\
    scene (svc s') = Some (d_scene d) /\
    grid (svc s') = Some (S (length (objects s))) /\
    d_children d = [S (length (objects s))].
Proof.
  intros s. apply (ngOnInit_starts_a_loop sample_canvas s).
  - intros id Hid.
    assert (Hd : dom (env s)
                 = ["rendererCanvas"; "body-color"; "details-color"; "glass-color"])
      by (vm_compute; reflexivity).
    rewrite Hd. unfold color_inputs in Hid. rewrite !elem_of_cons in *. tauto.
  - vm_compute. discriminate.
  - vm_compute. repeat constructor; eexists; reflexivity.
Defined.

(** ** A document that is still loading *)

(** While the document is loading [ngOnInit] renders nothing: [animate]
    leaves the first call of [render] to a listener. *)
Lemma ngOnInit_loading (cv : ElementRef) (s : State) :
  inputs_present s ->
  readyState (env s) = Loading ->
  exists s',
    ngOnInit cv s = (Normal tt, s') /\
    listeners (env s') =
      listeners (env s) ++ color_listeners (length (materials s)) ++
      [mkListener Window "DOMContentLoaded" CallRender;
       mkListener Window "resize" CallResize] /\
    (readyState (env s'), dom (env s'), raf_queue (env s'), raf_next (env s'),
     draws (env s'), uncaught (env s'), render_calls s', frameId (svc s'))
    = (readyState (env s), dom (env s), raf_queue (env s), raf_next (env s),
       draws (env s), uncaught (env s), render_calls s, frameId (svc s)).
Proof.
  intros Hin Hrs.
  destruct (createScene_page cv s Hin)
    as (s1 & rd & cam & sc & so & go & E & _ & _ & _ & _ & _ & _ & Hf & _ & _ & Hl & _ & Hv).
  injection Hv as RS D Q N DR U RC.
  unfold ngOnInit. rewrite (bind_normal _ _ _ _ _ E).
  unfold animate, the_env. rewrite bind_gets, RS, Hrs.
  eexists. split; [reflexivity|]. cbn.
  rewrite Hl, RS, D, Q, N, DR, U, RC, Hf, Hrs, <- !app_assoc. auto.
Qed.

Lemma waiting_view k s s' : quiet_view s' = quiet_view s -> waiting k s -> waiting k s'.
Proof.
  unfold quiet_view, loop_view. intros [= Q N F L RS D RC DR].
  unfold waiting, inputs_present. rewrite Q, L, RS, D, RC, DR. auto.
Qed.

Lemma waiting_step e k s :
  is_content_loaded e = false -> waiting k s ->
  waiting (k + (if is_init e then 1 else 0)) (step e s).
Proof.
  intros He Hs. pose proof Hs as (Hrs & Hin & Hq & Hrc & Hdr & HF & Hk).
  destruct e as [cv| |now| |w h| |id type v|i gltf]; cbn [step is_init];
    try discriminate He; rewrite ?Nat.add_0_r.
  - destruct (ngOnInit_loading cv s Hin Hrs) as (s' & E & Hl & Hv).
    rewrite (task_normal _ _ _ E). injection Hv as RS D Q N DR U RC F.
    unfold waiting, inputs_present. rewrite Hl, RS, D, Q, DR, RC.
    repeat split; auto.
    + apply Forall_app. split; [exact HF|].
      repeat (apply Forall_cons; split; [intros H; cbn in *; auto; discriminate H|]).
      constructor.
    + rewrite List.filter_app, length_app, Hk. reflexivity.
  - eapply waiting_view; [|exact Hs].
    destruct (ngOnDestroy_effect s) as [Hq' Hv]. cbv zeta in *.
    injection Hv as N F L RS D RC DR.
    unfold quiet_view, loop_view. rewrite Hq', N, F, L, RS, D, RC, DR, Hq.
    destruct (frameId (svc s)); reflexivity.
  - destruct (clock (env s) <=? now); [|exact Hs].
    eapply waiting_view; [|exact Hs]. reflexivity.
  - rewrite Hq. cbn [fold_left]. eapply waiting_view; [|exact Hs].
    unfold quiet_view, loop_view. cbn. rewrite Hq. reflexivity.
  - eapply waiting_view; [|exact Hs].
    etransitivity; [apply dispatch_quiet|]; [exact HF | congruence | reflexivity].
  - eapply waiting_view; [|exact Hs]. apply dispatch_quiet; [exact HF | congruence].
  - destruct (loads (env s) !! i) as [rq|]; [|exact Hs].
    eapply waiting_view; [|exact Hs].
    etransitivity; [apply task_quiet, load_quiet | reflexivity].
Qed.

Lemma waiting_run evs : forall k s,
  Forall (fun e => is_content_loaded e = false) evs -> waiting k s ->
  waiting (k + count_init evs) (run evs s).
Proof.
  induction evs as [|e evs IH]; intros k s Hno Hs.
  - unfold count_init. cbn. rewrite Nat.add_0_r. exact Hs.
  - apply Forall_cons in Hno as [He Hno].
    change (run (e :: evs) s) with (run evs (step e s)).
    pose proof (IH _ _ Hno (waiting_step e k s He Hs)) as H.
    replace (k + count_init (e :: evs))%nat
      with (k + (if is_init e then 1 else 0) + count_init evs)%nat; [exact H|].
    unfold count_init. cbn [List.filter]. destruct (is_init e); cbn [length]; lia.
Qed.

(** Every call of [render] is counted, however it ends. *)
Lemma task_render_counted s : render_calls (task render s) = S (render_calls s).
Proof.
  unfold task.
  destruct (render_cases s)
    as [(_ & _ & s' & sc & so & cam & E & _ & _ & _ & _ & _ & RC)
       |[(_ & _ & e & s' & E & _ & _ & RC)|(_ & e & s' & E & _ & RC)]];
    rewrite E; exact RC.
Qed.

Lemma fold_render_calls v (L : list Listener) : forall s,
  render_calls (fold_left (fun s l => task (call v (l_handler l)) s) L s)
  = (render_calls s + length (List.filter starts_render L))%nat.
Proof.
  induction L as [|l L IH]; intros s; cbn [fold_left List.filter]; [cbn; lia|].
  rewrite IH. unfold starts_render at 2.
  destruct (l_handler l) as [m| |] eqn:Eh; cbn [call length].
  - assert (V : quiet_view (task (call v (SetMaterialColor m)) s) = quiet_view s)
      by (apply task_quiet, call_quiet; discriminate).
    apply (f_equal (fun q => snd (fst q))) in V. unfold quiet_view in V.
    cbn [fst snd call] in V. rewrite V. reflexivity.
  - rewrite task_render_counted. lia.
  - assert (V : quiet_view (task (call v CallResize) s) = quiet_view s)
      by (apply task_quiet, call_quiet; discriminate).
    apply (f_equal (fun q => snd (fst q))) in V. unfold quiet_view in V.
    cbn [fst snd call] in V. rewrite V. reflexivity.
Qed.

Lemma filter_starts_render t type (ls : list Listener) :
  Forall render_listener_ok ls -> (t, type) = (Window, "DOMContentLoaded") ->
  List.filter starts_render (List.filter (listens t type) ls) = List.filter starts_render ls.
Proof.
  intros HF [= -> ->]. induction HF as [|l ls Hl _ IH]; [reflexivity|].
  cbn [List.filter]. destruct (starts_render l) eqn:Es.
  - destruct (Hl Es) as [Ht Hty]. unfold listens at 1. rewrite Ht, Hty. cbn.
    rewrite Es, IH. reflexivity.
  - destruct (listens Window "DOMContentLoaded" l); cbn [List.filter]; rewrite ?Es; exact IH.
Qed.



(** ** A component on a page without one of the inputs *)

Lemma adds_color_listeners_refl s : adds_color_listeners s s.
Proof. exists []. rewrite app_nil_r. auto. Qed.

Lemma adds_color_listeners_trans s1 s2 s3 :
  adds_color_listeners s1 s2 -> adds_color_listeners s2 s3 -> adds_color_listeners s1 s3.
Proof.
  intros (n1 & E1 & F1) (n2 & E2 & F2). exists (n1 ++ n2).
  rewrite E2, E1, app_assoc. split; [reflexivity | apply Forall_app; auto].
Qed.

#[local] Hint Resolve adds_color_listeners_refl adds_color_listeners_trans : respects.

Lemma createScene_color_listeners cv : respects adds_color_listeners (createScene cv).
Proof.
  unfold createScene. respects_tac;
    first [ exists []; cbn; rewrite app_nil_r; split; [reflexivity | constructor]
          | eexists [_]; cbn; split; [reflexivity | repeat constructor; eexists; reflexivity] ].
Qed.

(** X12: when one of the colour inputs is missing from the document, the
    creation of a component ends in [createScene]: [animate] is not
    reached. The error goes to the console; [render] is not called, no
    frame is requested, nothing is drawn, no load is started, the service
    keeps the fields it had, and the only listeners that were added are
    those of the colour inputs found before the missing one. *)
Theorem ngOnInit_without_input_starts_nothing (cv : ElementRef) (s : State) (id : string) :
  id ∈ color_inputs ->
  id ∉ dom (env s) ->
  let s' := step (ComponentInit cv) s in
  (exists what, uncaught (env s') = TypeError what :: uncaught (env s)) /\
  svc s' = svc s /\ objects s' = objects s /\ loads (env s') = loads (env s) /\
  render_calls s' = render_calls s /\ draws (env s') = draws (env s) /\
  raf_queue (env s') = raf_queue (env s) /\ raf_next (env s') = raf_next (env s) /\
  adds_color_listeners s s'.
Proof.
  intros Hid Hout s'.
  destruct (createScene_without_input s cv id Hid Hout) as (what & s1 & E & Hs & Ho & Hl).
  pose proof (createScene_same_loop cv s) as V. rewrite E in V.
  unfold same in V. cbn [snd] in V. injection V as Q N F RS D RC DR.
  pose proof (createScene_same_uncaught cv s) as U. rewrite E in U.
  unfold same in U. cbn [snd] in U. injection U as _ U.
  pose proof (createScene_color_listeners cv s) as L. rewrite E in L. cbn [snd] in L.
  subst s'. cbn [step]. unfold task, ngOnInit. rewrite (bind_throw _ _ _ _ _ E).
  cbn. rewrite U, Hs, Ho, Hl, RC, DR, Q, N. repeat split; eauto.
Qed.

Lemma ngOnInit_without_input_starts_nothing_witness :
  let s := boot (new_page ["rendererCanvas"; "body-color"; "details-color"] Complete 800 600 1 0) in
  let s' := step (ComponentInit sample_canvas) s in
  (exists what, uncaught (env s') = TypeError what :: uncaught (env s)) /\
  svc s' = svc s /\ objects s' = objects s /\ loads (env s') = loads (env s) /\
  render_calls s' = render_calls s /\ draws (env s') = draws (env s) /\
  raf_queue (env s') = raf_queue (env s) /\ raf_next (env s') = raf_next (env s) /\
  adds_color_listeners s s'.
Proof.
  intros s.
  apply (ngOnInit_without_input_starts_nothing sample_canvas s "glass-color").
  - unfold color_inputs. rewrite !elem_of_cons. auto.
  - vm_compute. intros H. repeat (apply elem_of_cons in H as [H|H]; [discriminate|]).
    inversion H.
Defined.

(** ** The scroll of the grid *)

Lemma opp_involutive (x : float) : - (- x) = x.
Proof.
  rewrite <- (SF2Prim_Prim2SF (- (- x))). rewrite !opp_spec.
  replace (SFopp (SFopp (Prim2SF x))) with (Prim2SF x); [apply SF2Prim_Prim2SF|].
  destruct (Prim2SF x); cbn; rewrite ?negb_involutive; reflexivity.
Qed.

(** X13: a call of [render] that gets past the wheels leaves the grid at
    [(now / 1000) % 5] along the z axis, [now] being the clock in
    milliseconds: the two negations of the source cancel exactly, and the
    position depends on the clock alone. *)
Theorem render_scrolls_grid (s : State) (now : float) (g : ref) :
  clock (env s) = now ->
  can_rotate s ->
  grid (svc s) = Some g ->
  position_of (snd (render s)) g = Some (JsNum.rem (now / 1000) 5).
Proof.
  intros Hnow [HF (g' & Hg' & Hobj)] Hg. assert (g' = g) as -> by congruence.
  unfold render. rewrite bind_modify.
  unfold the_env at 1. rewrite bind_gets.
  unfold the_svc at 1. rewrite bind_gets.
  match goal with |- context [bind (for_each (rotate_wheel ?x) ?l) ?k ?st] =>
    destruct (rotate_wheels_cases x l st)
      as [(_ & s1 & E1 & Hs1 & He1 & _ & Hch1)|(HF' & _)]; [|contradiction]
  end.
  rewrite (bind_normal _ _ _ _ _ E1). cbv beta.
  change (svc s1 = svc s) in Hs1.
  change (forall r, children <$> objects s1 !! r = children <$> objects s !! r) in Hch1.
  unfold the_svc at 1. rewrite bind_gets, Hs1, Hg. cbn [deref]. rewrite bind_ret.
  cbn [env count_render]. rewrite Hnow, div_opp_l, opp_involutive.
  destruct (update_object_cases g (set_position_z (JsNum.rem (now / 1000) 5)) s1)
    as [(o & Ho & E2)|[Hn _]].
  2:{ apply (fmap_is_Some children) in Hobj. rewrite <- Hch1, Hn in Hobj.
      destruct Hobj as [x Hx]. discriminate Hx. }
  rewrite (bind_normal _ _ _ _ _ E2). cbv beta.
  match goal with |- position_of (snd (?post ?st)) g = _ =>
    assert (Hr : respects (same objects) post) by (respects_tac; same_write);
    specialize (Hr st); unfold same in Hr
  end.
  unfold position_of. rewrite Hr. cbn [objects with_objects].
  rewrite list_lookup_insert_eq by (eapply lookup_lt_Some; eauto). reflexivity.
Qed.

Lemma render_scrolls_grid_witness :
  position_of (snd (render (run [Tick 7250] sample_loaded))) 1
  = Some (JsNum.rem (7250 / 1000) 5).
Proof.
  apply (render_scrolls_grid (run [Tick 7250] sample_loaded) 7250 1).
  - vm_compute. reflexivity.
  - split; [vm_compute; repeat constructor; eexists; reflexivity|].
    exists 1%nat. split; [reflexivity | vm_compute; eexists; reflexivity].
  - reflexivity.
Defined.

(** ** The car and its shadow in the scene *)

Lemma update_object_normal r f s o :
  objects s !! r = Some o ->
  update_object r f s = (Normal tt, with_objects (fun h => <[r := f o]> h) s).
Proof.
  intros Ho. unfold update_object, read_object, bind, modify. rewrite Ho. reflexivity.
Qed.

(** [par.add(child)] of a child that has no parent. *)
Lemma Object3D_add_fresh par child s c q :
  objects s !! child = Some c -> parent c = None ->
  objects s !! par = Some q -> par <> child ->
  Object3D_add par child s =
    (Normal tt,
     with_objects (fun h =>
       <[par := set_children (children q ++ [child]) q]>
         (<[child := set_parent (Some par) c]> h)) s).
Proof.
  intros Hc Hp Hq Hne. unfold Object3D_add.
  unfold read_object at 1. unfold bind at 1. rewrite Hc, Hp. rewrite bind_ret.
  rewrite (bind_normal _ _ _ _ _ (update_object_normal child _ s c Hc)).
  rewrite (update_object_normal par _ _ q); [reflexivity|].
  cbn [objects with_objects]. rewrite list_lookup_insert_ne by congruence. exact Hq.
Qed.

(** [par.add(child)] of a child of another object: the child moves. *)
Lemma Object3D_add_moves par child old s c p q :
  objects s !! child = Some c -> parent c = Some old ->
  objects s !! old = Some p -> objects s !! par = Some q ->
  old <> child -> par <> child -> par <> old ->
  Object3D_add par child s =
    (Normal tt,
     with_objects (fun h =>
       <[par := set_children (children q ++ [child]) q]>
         (<[child := set_parent (Some par) c]>
            (<[old := remove_child child p]> h))) s).
Proof.
  intros Hc Hp Ho Hq H1 H2 H3. unfold Object3D_add.
  unfold read_object at 1. unfold bind at 1. rewrite Hc, Hp.
  rewrite (bind_normal _ _ _ _ _ (update_object_normal old _ s p Ho)).
  set (s1 := with_objects _ s).
  assert (Hc1 : objects s1 !! child = Some c).
  { unfold s1. cbn [objects with_objects].
    rewrite list_lookup_insert_ne by congruence. exact Hc. }
  rewrite (bind_normal _ _ _ _ _ (update_object_normal child _ s1 c Hc1)).
  rewrite (update_object_normal par _ _ q); [reflexivity|].
  unfold s1. cbn [objects with_objects].
  rewrite !list_lookup_insert_ne by congruence. exact Hq.
Qed.

Lemma assign_material_shape what o m : respects (same shape_view) (assign_material what o m).
Proof.
  unfold assign_material. respects_tac.
  unfold same, shape_view. cbn [objects with_objects materials svc].
  rewrite list_fmap_insert. f_equal. f_equal. apply list_insert_id.
  rewrite list_lookup_fmap. match goal with H : objects _ !! _ = Some _ |- _ => rewrite H end.
  reflexivity.
Qed.

(** The callback up to its comment [shadow]: it changes materials of
    objects and the wheel list, nothing of the scene graph. *)
Lemma onLoad_head (s s' : State) (rq : LoadRequest) (g : ref) :
  onLoad rq g s = (Normal tt, s') ->
  exists gs car s7,
    objects s !! g = Some gs /\ children gs !! 0%nat = Some car /\
    shape_view s7 = shape_view s /\ env s7 = env s /\
    onLoad_shadow_and_add rq car s7 = (Normal tt, s').
Proof.
  intros H. unfold onLoad in H.
  apply bind_inv in H as (gs & s0 & Hg & H).
  unfold read_object in Hg. destruct (objects s !! g) as [gs0|] eqn:Egs; [|discriminate].
  injection Hg as -> <-.
  apply bind_inv in H as (car & s00 & Hc & H).
  destruct (children gs !! 0%nat) as [car0|] eqn:Ecar; [|discriminate].
  injection Hc as -> <-.
  assert (Henv : forall what o m, respects (same env) (assign_material what o m))
    by (intros; unfold assign_material; respects_tac; same_write).
  unfold byName in H.
  rewrite bind_gets in H. apply bind_inv in H as ([] & s1 & A1 & H).
  match type of A1 with assign_material ?w ?o ?m ?st = _ =>
    pose proof (assign_material_shape w o m st) as V1;
    pose proof (Henv w o m st) as W1; rewrite A1 in V1, W1
  end.
  rewrite bind_gets in H. apply bind_inv in H as ([] & s2 & A2 & H).
  match type of A2 with assign_material ?w ?o ?m ?st = _ =>
    pose proof (assign_material_shape w o m st) as V2;
    pose proof (Henv w o m st) as W2; rewrite A2 in V2, W2
  end.
  rewrite bind_gets in H. apply bind_inv in H as ([] & s3 & A3 & H).
  match type of A3 with assign_material ?w ?o ?m ?st = _ =>
    pose proof (assign_material_shape w o m st) as V3;
    pose proof (Henv w o m st) as W3; rewrite A3 in V3, W3
  end.
  rewrite bind_gets in H. apply bind_inv in H as ([] & s4 & A4 & H).
  match type of A4 with assign_material ?w ?o ?m ?st = _ =>
    pose proof (assign_material_shape w o m st) as V4;
    pose proof (Henv w o m st) as W4; rewrite A4 in V4, W4
  end.
  rewrite bind_gets in H. apply bind_inv in H as ([] & s5 & A5 & H).
  match type of A5 with assign_material ?w ?o ?m ?st = _ =>
    pose proof (assign_material_shape w o m st) as V5;
    pose proof (Henv w o m st) as W5; rewrite A5 in V5, W5
  end.
  rewrite bind_gets in H. apply bind_inv in H as ([] & s6 & A6 & H).
  match type of A6 with assign_material ?w ?o ?m ?st = _ =>
    pose proof (assign_material_shape w o m st) as V6;
    pose proof (Henv w o m st) as W6; rewrite A6 in V6, W6
  end.
  rewrite !bind_gets, bind_modify in H.
  unfold same in *. cbn [snd] in *.
  match type of H with _ ?st = _ => exists gs, car, st end.
  split; [reflexivity|]. split; [exact Ecar|].
  split; [|split; [|exact H]].
  - transitivity (shape_view s6); [reflexivity|]. congruence.
  - transitivity (env s6); [reflexivity|]. congruence.
Qed.

Lemma insert_last {A} (h : list A) (a b : A) : <[length h := b]> (h ++ [a]) = h ++ [b].
Proof. rewrite <- (Nat.add_0_r (length h)), insert_app_r. reflexivity. Qed.

Lemma bind_alloc_material {B} m (k : ref -> M State B) s :
  bind (alloc_material m) k s
  = k (length (materials s)) (with_materials (fun h => h ++ [m]) s).
Proof. reflexivity. Qed.

Lemma bind_alloc_object {B} o (k : ref -> M State B) s :
  bind (alloc_object o) k s
  = k (length (objects s)) (with_objects (fun h => h ++ [o]) s).
Proof. reflexivity. Qed.

(** The end of the callback on a car that is the child of the object [g]
    the loader returned. *)
Lemma shadow_and_add (rq : LoadRequest) (car g : ref) (s : State) co gs sc so :
  objects s !! car = Some co -> parent co = Some g ->
  objects s !! g = Some gs ->
  scene (svc s) = Some sc -> objects s !! scene_obj sc = Some so ->
  g <> car -> scene_obj sc <> car -> scene_obj sc <> g ->
  let mesh := length (objects s) in
  exists s',
    onLoad_shadow_and_add rq car s = (Normal tt, s') /\
    objects s' !! scene_obj sc = Some (set_children (children so ++ [car]) so) /\
    objects s' !! car =
      Some (set_parent (Some (scene_obj sc)) (set_children (children co ++ [mesh]) co)) /\
    objects s' !! g = Some (remove_child car gs) /\
    objects s' !! mesh = Some (shadow_plane car (length (materials s))) /\
    length (objects s') = S (length (objects s)) /\
    (forall r, r <> scene_obj sc -> r <> car -> r <> g -> r <> mesh ->
               objects s' !! r = objects s !! r) /\
    materials s' = materials s ++ [shadow_material rq] /\
    svc s' = svc s /\ env s' = env s.
Proof.
  intros Hco Hpar Hgs Hsc Hso N1 N2 N3 mesh.
  assert (Lcar : car < length (objects s)) by (eapply lookup_lt_Some; eauto).
  assert (Lg : g < length (objects s)) by (eapply lookup_lt_Some; eauto).
  assert (Lsc : scene_obj sc < length (objects s)) by (eapply lookup_lt_Some; eauto).
  unfold onLoad_shadow_and_add.
  rewrite bind_alloc_material, bind_alloc_object.
  cbn [objects materials with_materials with_objects]. fold mesh.
  set (m0 := set_geometry _ _).
  set (sa := with_objects _ (with_materials _ s)).
  assert (Ha : objects sa = objects s ++ [m0]) by reflexivity.
  assert (Hma : materials sa = materials s ++ [shadow_material rq]) by reflexivity.
  assert (Hsa : svc sa = svc s) by reflexivity.
  assert (Hea : env sa = env s) by reflexivity.
  clearbody sa.
  (* the two writes to the plane *)
  assert (L0 : objects sa !! mesh = Some m0)
    by (rewrite Ha; apply (list_lookup_middle (objects s) [] m0); reflexivity).
  rewrite (bind_normal _ _ _ _ _ (update_object_normal mesh _ sa m0 L0)).
  set (sb := with_objects _ sa).
  assert (L1 : objects sb !! mesh = Some (set_rotation_x ((- JsNum.PI) / 2) m0)).
  { unfold sb. cbn [objects with_objects]. apply list_lookup_insert_eq.
    eapply lookup_lt_Some, L0. }
  rewrite (bind_normal _ _ _ _ _ (update_object_normal mesh _ sb _ L1)).
  set (sc0 := with_objects _ sb).
  set (m2 := set_renderOrder 2%Z (set_rotation_x ((- JsNum.PI) / 2) m0)).
  assert (Hc : objects sc0 = objects s ++ [m2]).
  { unfold sc0, sb. cbn [objects with_objects]. rewrite Ha.
    unfold mesh. rewrite !insert_last. reflexivity. }
  assert (Hmc : materials sc0 = materials s ++ [shadow_material rq]) by exact Hma.
  assert (Hsc0 : svc sc0 = svc s) by exact Hsa.
  assert (Hec : env sc0 = env s) by exact Hea.
  clearbody sc0. clear L0 L1 sb Ha Hma Hsa Hea sa.
  (* the plane goes to the car *)
  assert (L2 : objects sc0 !! mesh = Some m2)
    by (rewrite Hc; apply (list_lookup_middle (objects s) [] m2); reflexivity).
  assert (L3 : objects sc0 !! car = Some co)
    by (rewrite Hc, lookup_app_l by exact Lcar; exact Hco).
  rewrite (bind_normal _ _ _ _ _
             (Object3D_add_fresh car mesh sc0 m2 co L2 eq_refl L3 ltac:(unfold mesh; lia))).
  set (sd := with_objects _ sc0).
  set (co1 := set_children (children co ++ [mesh]) co).
  set (m3 := set_parent (Some car) m2).
  assert (Hd : objects sd = <[car := co1]> (objects s) ++ [m3]).
  { unfold sd. cbn [objects with_objects]. rewrite Hc.
    unfold mesh. rewrite insert_last.
    rewrite insert_app_l by exact Lcar. reflexivity. }
  assert (Hmd : materials sd = materials s ++ [shadow_material rq]) by exact Hmc.
  assert (Hsd : svc sd = svc s) by exact Hsc0.
  assert (Hed : env sd = env s) by exact Hec.
  clearbody sd. clear L2 L3 Hc Hmc Hsc0 Hec sc0.
  (* the car goes to the scene *)
  unfold the_svc. rewrite bind_gets, Hsd, Hsc. cbn [deref]. rewrite bind_ret.
  assert (Len : length (<[car := co1]> (objects s)) = length (objects s))
    by apply length_insert.
  assert (L4 : objects sd !! car = Some co1).
  { rewrite Hd, lookup_app_l by (rewrite Len; exact Lcar).
    apply list_lookup_insert_eq, Lcar. }
  assert (L5 : objects sd !! g = Some gs).
  { rewrite Hd, lookup_app_l by (rewrite Len; exact Lg).
    rewrite list_lookup_insert_ne by congruence. exact Hgs. }
  assert (L6 : objects sd !! scene_obj sc = Some so).
  { rewrite Hd, lookup_app_l by (rewrite Len; exact Lsc).
    rewrite list_lookup_insert_ne by congruence. exact Hso. }
  rewrite (Object3D_add_moves (scene_obj sc) car g sd co1 gs so L4 Hpar L5 L6 N1 N2 N3).
  eexists. split; [reflexivity|].
  cbn [objects with_objects materials with_materials svc env].
  assert (Lend : objects sd !! mesh = Some m3).
  { rewrite Hd. apply (list_lookup_middle _ [] m3). rewrite Len. reflexivity. }
  assert (Lsd : length (objects sd) = S (length (objects s))).
  { rewrite Hd, length_app, Len. cbn. lia. }
  repeat split.
  - apply list_lookup_insert_eq. rewrite !length_insert, Lsd. lia.
  - rewrite list_lookup_insert_ne by congruence.
    apply list_lookup_insert_eq. rewrite !length_insert, Lsd. lia.
  - rewrite !list_lookup_insert_ne by congruence.
    apply list_lookup_insert_eq. rewrite Lsd. lia.
  - rewrite !list_lookup_insert_ne by (unfold mesh; lia). exact Lend.
  - rewrite !length_insert. exact Lsd.
  - intros r R1 R2 R3 R4. rewrite !list_lookup_insert_ne by congruence.
    rewrite Hd. destruct (decide (r < length (objects s))) as [Hlt|Hge].
    + rewrite lookup_app_l by (rewrite Len; exact Hlt).
      rewrite list_lookup_insert_ne by congruence. reflexivity.
    + rewrite (lookup_ge_None_2 (objects s)) by lia.
      apply lookup_ge_None_2. rewrite length_app, Len. cbn. unfold mesh in R4. lia.
  - exact Hmd.
  - exact Hsd.
  - exact Hed.
Qed.

(** *** What the loader builds *)

Lemma parents_ok_extend lo h1 h2 :
  parents_ok lo h1 ->
  (forall i, i < length h1 -> h2 !! i = h1 !! i) ->
  parents_ok (length h1) h2 ->
  parents_ok lo h2.
Proof.
  intros K1 Hpre K2 r o c Hr Ho Hc.
  destruct (decide (r < length h1)) as [Hlt|Hge]; [|apply (K2 r o c); [lia | auto | auto]].
  rewrite (Hpre r Hlt) in Ho.
  destruct (K1 r o c Hr Ho Hc) as (co & Hco & Hp).
  exists co. split; [|exact Hp]. rewrite Hpre; [exact Hco|]. eapply lookup_lt_Some, Hco.
Qed.

(** The loader never fails: it returns the object of the node, the first
    it creates, with the parent it was given; it leaves the objects that
    were there alone; and every child listed by an object it creates has
    that object as its parent. *)
Lemma build_node_family : forall n par s,
  exists s1,
    build_node par n s = (Normal (length (objects s)), s1) /\
    length (objects s) < length (objects s1) /\
    (forall i, i < length (objects s) -> objects s1 !! i = objects s !! i) /\
    (exists o, objects s1 !! length (objects s) = Some o /\ parent o = par /\
               forall c, c ∈ children o -> length (objects s) < c) /\
    parents_ok (length (objects s)) (objects s1).
Proof.
  fix IH 1. intros [nm mat kids] par s. cbn [build_node].
  (* the material *)
  set (mstep := match mat with
                | Some m => let* r := alloc_material m in ret (Some r)
                | None => ret None
                end).
  assert (Hm : exists m s1, mstep s = (Normal m, s1) /\ objects s1 = objects s).
  { subst mstep. destruct mat; eexists _, _; (split; [reflexivity|]); auto. }
  destruct Hm as (m & s1 & Em & Ho1).
  rewrite (bind_normal _ _ _ _ _ Em).
  (* the object *)
  set (o := set_material m (set_parent par (new_Object3D nm))).
  set (s2 := with_objects (fun h => h ++ [o]) s1).
  set (r := length (objects s1)).
  rewrite (bind_normal _ _ _ r s2 (eq_refl : alloc_object o s1 = (Normal r, s2))).
  assert (Hr : r = length (objects s)) by (unfold r; congruence).
  assert (Hobj2 : objects s2 = objects s ++ [o]) by (unfold s2; cbn; congruence).
  assert (Hlen2 : length (objects s2) = S r) by (rewrite Hobj2, length_app, Hr; cbn; lia).
  (* the children *)
  assert (Hkids : forall l s3,
    exists cs s4,
      (fix build_kids (l : list GltfNode) : M State (list ref) :=
         match l with
         | [] => ret []
         | k :: l' =>
             let* c := build_node (Some r) k in
             let* cs := build_kids l' in
             ret (c :: cs)
         end) l s3 = (Normal cs, s4) /\
      length (objects s3) <= length (objects s4) /\
      (forall i, i < length (objects s3) -> objects s4 !! i = objects s3 !! i) /\
      (forall c, c ∈ cs -> length (objects s3) <= c /\
                           exists co, objects s4 !! c = Some co /\ parent co = Some r) /\
      parents_ok (length (objects s3)) (objects s4)).
  { fix IHk 1. intros [|k l'] s3; cbv beta match fix.
    - exists [], s3. split; [reflexivity|]. split; [lia|]. split; [auto|]. split.
      + intros c Hc. inversion Hc.
      + intros r0 o0 c Hr0 Ho0. apply lookup_lt_Some in Ho0. lia.
    - destruct (IH k (Some r) s3) as (s4 & Ek & Hl4 & Hp4 & (co & Hco & Hpar & _) & K4).
      rewrite (bind_normal _ _ _ _ _ Ek).
      destruct (IHk l' s4) as (cs & s5 & Ekids & Hl5 & Hp5 & Hc5 & K5).
      rewrite (bind_normal _ _ _ _ _ Ekids).
      exists (length (objects s3) :: cs), s5. split; [reflexivity|].
      split; [lia|]. split; [|split].
      + intros i Hi. rewrite Hp5 by lia. apply Hp4, Hi.
      + intros c Hc. apply elem_of_cons in Hc as [->|Hc].
        * split; [lia|]. exists co. rewrite Hp5 by exact Hl4. auto.
        * destruct (Hc5 c Hc) as [Hle Hex]. split; [lia | exact Hex].
      + apply (parents_ok_extend _ (objects s4)); assumption. }
  destruct (Hkids kids s2) as (cs & s3 & Ekids & Hl3 & Hp3 & Hc3 & K3).
  rewrite (bind_normal _ _ _ _ _ Ekids).
  assert (Hroot : objects s3 !! r = Some o).
  { rewrite Hp3 by lia. rewrite Hobj2, Hr. apply (list_lookup_middle (objects s) [] o).
    reflexivity. }
  rewrite (bind_normal _ _ _ _ _ (update_object_normal r _ s3 o Hroot)). cbn [ret].
  rewrite <- Hr. eexists. split; [reflexivity|]. cbn [objects with_objects].
  rewrite length_insert. split; [lia|]. split; [|split].
  - intros i Hi. rewrite list_lookup_insert_ne by lia. rewrite Hp3 by lia.
    rewrite Hobj2. apply lookup_app_l. lia.
  - exists (set_children cs o). split; [apply list_lookup_insert_eq; lia|].
    split; [reflexivity|]. intros c Hc. cbn in Hc. destruct (Hc3 c Hc) as [Hle _]. lia.
  - intros r0 o0 c Hr0 Ho0 Hc.
    destruct (decide (r0 = r)) as [->|Hne].
    + rewrite list_lookup_insert_eq in Ho0 by lia. injection Ho0 as <-. cbn in Hc.
      destruct (Hc3 c Hc) as [Hle (co & Hco & Hpar)].
      exists co. rewrite list_lookup_insert_ne by lia. auto.
    + rewrite list_lookup_insert_ne in Ho0 by congruence.
      destruct (K3 r0 o0 c ltac:(lia) Ho0 Hc) as (co & Hco & Hpar).
      destruct (decide (c = r)) as [->|Hcr].
      * exists (set_children cs o). rewrite list_lookup_insert_eq by lia.
        split; [reflexivity|]. assert (co = o) as -> by congruence. exact Hpar.
      * exists co. rewrite list_lookup_insert_ne by congruence. auto.
Qed.

Lemma shape_lookup s s' r o :
  shape_view s' = shape_view s -> objects s !! r = Some o ->
  exists o', objects s' !! r = Some o' /\ parent o' = parent o /\ children o' = children o.
Proof.
  intros [= Hsk _ _] Ho. apply (f_equal (fun l => l !! r)) in Hsk.
  rewrite !list_lookup_fmap, Ho in Hsk. cbn in Hsk.
  destruct (objects s' !! r) as [o'|]; [|discriminate Hsk].
  injection Hsk as Hp Hc. eauto.
Qed.

(** X14: when the file of a pending load arrives and its callback
    completes, the car model (the first child of the scene of the file) is
    the last child of the scene the service holds at that moment,
    whichever [createScene] started the load, and that scene is its
    parent; the other children of the scene are as they were. The last
    child of the car is a new plane with the shadow texture, turned by
    [-PI / 2] about the x axis, with render order 2. *)
Theorem load_adds_the_car_to_the_scene
    (s : State) (i : nat) (rq : LoadRequest) (gltf : GltfNode) (sc : Scene) (so : Object3D) :
  loads (env s) !! i = Some rq ->
  scene (svc s) = Some sc ->
  objects s !! scene_obj sc = Some so ->
  let s' := step (GltfLoaded i gltf) s in
  uncaught (env s') = uncaught (env s) ->
  exists car co' so' mesh mat,
    scene (svc s') = Some sc /\
    objects s' !! scene_obj sc = Some so' /\ children so' = children so ++ [car] /\
    S (length (objects s)) <= car /\
    objects s' !! car = Some co' /\ parent co' = Some (scene_obj sc) /\
    last (children co') = Some mesh /\
    objects s' !! mesh = Some (shadow_plane car mat) /\
    materials s' !! mat = Some (shadow_material rq).
Proof.
  intros Hload Hsc Hso s' Hun. subst s'. cbn [step] in *. rewrite Hload in *.
  set (s0 := with_env (fun b => set_loads (remove_nth i (loads b)) b) s) in *.
  destruct (build_node_family gltf None s0)
    as (s1 & E & Hlen & Hpre & (gs0 & Hgs0 & _ & Hkid) & K).
  change (objects s0) with (objects s) in *.
  set (g := length (objects s)) in *.
  assert (Hsvc1 : svc s1 = svc s).
  { pose proof (same_build_node svc gltf None (fun _ _ => eq_refl) (fun _ _ => eq_refl) s0) as V.
    rewrite E in V. exact V. }
  assert (Hu1 : uncaught (env s1) = uncaught (env s)).
  { pose proof (same_build_node (fun s => uncaught (env s)) gltf None
                  (fun _ _ => eq_refl) (fun _ _ => eq_refl) s0) as V.
    rewrite E in V. exact V. }
  unfold task in *. rewrite (bind_normal _ _ _ _ _ E) in *.
  pose proof (onLoad_same_loads rq g s1) as V. unfold same in V.
  destruct (onLoad rq g s1) as [[[]|e] s2] eqn:EL; cbn [snd] in V; injection V as _ U2.
  2:{ cbn in Hun. rewrite U2, Hu1 in Hun.
      apply (f_equal length) in Hun. cbn in Hun. lia. }
  destruct (onLoad_head s1 s2 rq g EL) as (gs & car & s7 & Hg & Hcar & Hshape & _ & Etail).
  assert (gs0 = gs) as -> by congruence.
  assert (Hin : car ∈ children gs) by (eapply list_elem_of_lookup_2, Hcar).
  pose proof (Hkid car Hin) as Hgc.
  destruct (K g gs car ltac:(lia) Hg Hin) as (co & Hco & Hpar).
  assert (Lsc : scene_obj sc < g) by (eapply lookup_lt_Some, Hso).
  assert (Hso1 : objects s1 !! scene_obj sc = Some so) by (rewrite Hpre by exact Lsc; exact Hso).
  destruct (shape_lookup s1 s7 car co Hshape Hco) as (co7 & Hco7 & Hp7 & Hc7).
  destruct (shape_lookup s1 s7 g gs Hshape Hg) as (gs7 & Hgs7 & _ & _).
  destruct (shape_lookup s1 s7 (scene_obj sc) so Hshape Hso1) as (so7 & Hso7 & _ & Hcs7).
  pose proof Hshape as [= _ Hmat7 Hsc7].
  destruct (shadow_and_add rq car g s7 co7 gs7 sc so7 Hco7 ltac:(congruence) Hgs7
              ltac:(rewrite Hsc7, Hsvc1; exact Hsc) Hso7
              ltac:(lia) ltac:(lia) ltac:(lia))
    as (s2' & E2 & L1 & L2 & _ & L4 & _ & _ & Hm & Hs2 & _).
  cbv zeta in *. assert (s2' = s2) as -> by congruence.
  exists car, (set_parent (Some (scene_obj sc))
                 (set_children (children co7 ++ [length (objects s7)]) co7)),
    (set_children (children so7 ++ [car]) so7), (length (objects s7)), (length (materials s7)).
  split; [rewrite Hs2, Hsc7, Hsvc1; exact Hsc|].
  split; [exact L1|]. split; [cbn; rewrite Hcs7; reflexivity|].
  split; [lia|]. split; [exact L2|]. split; [reflexivity|].
  split; [cbn; apply last_snoc|]. split; [exact L4|].
  rewrite Hm. apply (list_lookup_middle _ [] _). reflexivity.
Qed.

Lemma load_adds_the_car_to_the_scene_witness :
  let s := run [Tick 16; AnimationFrame; ComponentInit sample_canvas] sample_running in
  let s' := step (GltfLoaded 0 ferrari) s in
  exists sc so,
    scene (svc s) = Some sc /\ objects s !! scene_obj sc = Some so /\
    exists car co' so' mesh mat,
      scene (svc s') = Some sc /\
      objects s' !! scene_obj sc = Some so' /\ children so' = children so ++ [car] /\
      S (length (objects s)) <= car /\
      objects s' !! car = Some co' /\ parent co' = Some (scene_obj sc) /\
      last (children co') = Some mesh /\
      objects s' !! mesh = Some (shadow_plane car mat) /\
      materials s' !! mat = Some (shadow_material (car_request 0)).
Proof.
  intros s s'. eexists _, _.
  split; [vm_compute; reflexivity|]. split; [vm_compute; reflexivity|].
  apply (load_adds_the_car_to_the_scene s 0 (car_request 0) ferrari);
    vm_compute; reflexivity.
Defined.

(** ** What a colour input changes *)

Lemma places_listeners_refl s : places_listeners s s.
Proof. exists []. rewrite app_nil_r. auto. Qed.

Lemma places_listeners_trans s1 s2 s3 :
  places_listeners s1 s2 -> places_listeners s2 s3 -> places_listeners s1 s3.
Proof.
  intros (n1 & E1 & F1) (n2 & E2 & F2). exists (n1 ++ n2).
  rewrite E2, E1, app_assoc. split; [reflexivity | apply Forall_app; auto].
Qed.

#[local] Hint Resolve places_listeners_refl places_listeners_trans : respects.

Ltac places_listeners_write :=
  first [ exists []; cbn; rewrite app_nil_r; split; [reflexivity | constructor]
        | eexists [_]; cbn; split;
          [reflexivity
          | apply Forall_singleton;
            first [left; eexists; reflexivity | right; reflexivity] ] ].

Lemma render_places : respects places_listeners render.
Proof. unfold render. respects_tac; places_listeners_write. Qed.

Lemma resize_places : respects places_listeners resize.
Proof. unfold resize. respects_tac; places_listeners_write. Qed.

Lemma ngOnInit_places cv : respects places_listeners (ngOnInit cv).
Proof.
  unfold ngOnInit, createScene, animate.
  respects_tac; try places_listeners_write; apply render_places.
Qed.

Lemma ngOnDestroy_places : respects places_listeners ngOnDestroy.
Proof. unfold ngOnDestroy. respects_tac; places_listeners_write. Qed.

Lemma call_places v h : respects places_listeners (call v h).
Proof.
  destruct h as [m| |]; cbn [call];
    [destruct v; respects_tac; places_listeners_write
    | apply render_places | apply resize_places].
Qed.

Lemma load_places rq gltf :
  respects places_listeners (let* g := build_node None gltf in onLoad rq g).
Proof.
  apply respects_bind; [apply places_listeners_trans | |].
  - apply respects_build_node;
      [apply places_listeners_refl | apply places_listeners_trans | | | ];
      intros; places_listeners_write.
  - intros g. unfold onLoad. respects_tac; places_listeners_write.
Qed.

Lemma task_places m s : respects places_listeners m -> places_listeners s (task m s).
Proof.
  intros Hm. apply (respects_task places_listeners places_listeners_trans m Hm).
  intros; places_listeners_write.
Qed.

Lemma fold_places {A} (f : State -> A -> State) (l : list A) :
  (forall s a, places_listeners s (f s a)) -> forall s, places_listeners s (fold_left f l s).
Proof.
  intros Hf. induction l as [|a l IH]; intros s; cbn [fold_left].
  - apply places_listeners_refl.
  - eapply places_listeners_trans; [apply Hf | apply IH].
Qed.

Lemma step_places e s : places_listeners s (step e s).
Proof.
  assert (Hd : forall t type v s, places_listeners s (dispatch t type v s)).
  { intros. unfold dispatch. apply fold_places. intros. apply task_places, call_places. }
  destruct e as [cv| |now| |w h| |id type v|i gltf]; cbn [step].
  - apply task_places, ngOnInit_places.
  - apply task_places, ngOnDestroy_places.
  - destruct (clock (env s) <=? now); places_listeners_write.
  - apply (places_listeners_trans _ (with_env (fun b => set_raf [] (raf_next b) b) s));
      [places_listeners_write|].
    apply fold_places. intros. apply task_places, call_places.
  - apply (places_listeners_trans _ (with_env (set_inner w h) s));
      [places_listeners_write | apply Hd].
  - destruct (readyState (env s)); try apply places_listeners_refl.
    apply (places_listeners_trans _ (with_env (set_readyState Interactive) s));
      [places_listeners_write | apply Hd].
  - apply Hd.
  - destruct (loads (env s) !! i) as [rq|]; [|apply places_listeners_refl].
    apply (places_listeners_trans _ (with_env (fun b => set_loads (remove_nth i (loads b)) b) s));
      [places_listeners_write|].
    apply task_places, load_places.
Qed.

Lemma run_places evs : forall s, places_listeners s (run evs s).
Proof.
  induction evs as [|e evs IH]; intros s; [apply places_listeners_refl|].
  change (run (e :: evs) s) with (run evs (step e s)).
  eapply places_listeners_trans; [apply step_places | apply IH].
Qed.

(** One colour listener called: the colour of its material may change, and
    nothing else but the console. *)
Lemma call_color v m s :
  let s' := task (call v (SetMaterialColor m)) s in
  colorless_view s' = colorless_view s /\
  forall m', m' <> m -> materials s' !! m' = materials s !! m'.
Proof.
  cbn [call]. unfold task. destruct v as [c|]; [|cbn; auto].
  unfold update_material. destruct (materials s !! m) as [mat|] eqn:Em; [|cbn; auto].
  cbn. split.
  - unfold colorless_view. cbn. rewrite list_fmap_insert.
    rewrite list_insert_id; [reflexivity|]. rewrite list_lookup_fmap, Em. reflexivity.
  - intros m' Hne. apply list_lookup_insert_ne. congruence.
Qed.

Lemma fold_color v (L : list Listener) : forall s,
  Forall (fun l => exists m, l_handler l = SetMaterialColor m) L ->
  let s' := fold_left (fun s l => task (call v (l_handler l)) s) L s in
  colorless_view s' = colorless_view s /\
  forall m, (forall l, l ∈ L -> l_handler l <> SetMaterialColor m) ->
            materials s' !! m = materials s !! m.
Proof.
  induction L as [|l L IH]; intros s HF; cbn [fold_left]; [cbv zeta; auto|].
  apply Forall_cons in HF as [(m0 & Hm0) HF]. rewrite Hm0.
  destruct (call_color v m0 s) as [V1 K1]. cbv zeta in *.
  destruct (IH (task (call v (SetMaterialColor m0)) s) HF) as [V2 K2].
  split; [congruence|]. intros m Hm.
  rewrite K2 by (intros l' Hl'; apply Hm, elem_of_cons; auto).
  apply K1. intros ->. apply (Hm l); [apply elem_of_cons; auto | exact Hm0].
Qed.


(** ** A model without one of the meshes *)

(** An assignment of a material: a TypeError when the mesh was not found,
    and otherwise a write to the material of an object. *)
Lemma assign_material_cases what car nm m s :
  (getObjectByName (objects s) car nm = None /\
   assign_material what (getObjectByName (objects s) car nm) m s
   = (Throw (TypeError what), s)) \/
  (exists r s1,
     getObjectByName (objects s) car nm = Some r /\
     assign_material what (getObjectByName (objects s) car nm) m s = (Normal tt, s1) /\
     shape_view s1 = shape_view s /\ svc s1 = svc s /\ env s1 = env s /\
     (forall root nm',
        getObjectByName (objects s1) root nm' = getObjectByName (objects s) root nm')).
Proof.
  destruct (getObjectByName (objects s) car nm) as [r|] eqn:Hfind; [right | left; auto].
  destruct (getObjectByName_name _ _ _ _ Hfind) as (o & Ho & Hn).
  exists r, (with_objects (fun h => <[r := set_material (Some m) o]> h) s).
  assert (E : assign_material what (Some r) m s
              = (Normal tt, with_objects (fun h => <[r := set_material (Some m) o]> h) s))
    by (apply (update_object_normal r _ s o Ho)).
  split; [reflexivity|]. split; [exact E|].
  pose proof (assign_material_shape what (Some r) m s) as V. rewrite E in V.
  split; [exact V|]. split; [reflexivity|]. split; [reflexivity|].
  intros root nm'. cbn. eapply getObjectByName_insert; eauto.
Qed.

(** The callback up to its comment [shadow], in full: it throws at the
    first of the six meshes that is missing, or goes on to the shadow. *)
Lemma onLoad_cases (s : State) (rq : LoadRequest) (g car : ref) (gs : Object3D) :
  objects s !! g = Some gs -> children gs !! 0%nat = Some car ->
  (exists what s',
     onLoad rq g s = (Throw (TypeError what), s') /\
     what ∈ (fst <$> material_targets rq) /\
     getObjectByName (objects s) car what = None /\
     svc s' = svc s /\ shape_view s' = shape_view s /\ env s' = env s) \/
  (exists s7,
     (forall nm, nm ∈ (fst <$> material_targets rq) ->
                 is_Some (getObjectByName (objects s) car nm)) /\
     shape_view s7 = shape_view s /\ env s7 = env s /\
     grid (svc s7) = grid (svc s) /\
     onLoad rq g s = onLoad_shadow_and_add rq car s7).
Proof.
  intros Hg Hcar.
  pose proof (eq_refl (onLoad rq g s)) as Hr. unfold onLoad at 2 in Hr.
  unfold read_object at 1 in Hr. unfold bind at 1 in Hr. rewrite Hg in Hr.
  unfold bind at 1 in Hr. rewrite Hcar in Hr. cbn [deref ret] in Hr.
  assert (Hin : forall x, x ∈ ["body"; "rim_fl"; "rim_fr"; "rim_rl"; "rim_rr"; "glass"] ->
                          x ∈ (fst <$> material_targets rq)) by (intros x Hx; exact Hx).
  unfold byName at 1 in Hr. rewrite bind_gets in Hr. cbv beta in Hr.
  destruct (assign_material_cases "body" car "body" (lr_bodyMaterial rq) s)
    as [[N E]|(r1 & s1 & F1 & E & V1 & S1 & E1 & L1)].
  { rewrite (bind_throw _ _ _ _ _ E) in Hr. left. exists "body", s. split; [exact Hr|].
    split; [apply Hin; rewrite !elem_of_cons; auto 10|]. auto. }
  rewrite (bind_normal _ _ _ _ _ E) in Hr. cbv beta in Hr. clear E.
  pose proof L1 as L1'. clear L1.
  unfold byName at 1 in Hr. rewrite bind_gets in Hr. cbv beta in Hr.
  destruct (assign_material_cases "rim_fl" car "rim_fl" (lr_detailsMaterial rq) s1)
    as [[N E]|(r2 & s2 & F2 & E & V2 & S2 & E2 & L2)].
  { rewrite (bind_throw _ _ _ _ _ E) in Hr. left. exists "rim_fl", s1. split; [exact Hr|].
    split; [apply Hin; rewrite !elem_of_cons; auto 10|]. rewrite L1' in N. auto. }
  rewrite (bind_normal _ _ _ _ _ E) in Hr. cbv beta in Hr. clear E.
  rewrite S1 in S2. rewrite V1 in V2. rewrite E1 in E2.
  assert (L2' : forall root nm', getObjectByName (objects s2) root nm'
                                  = getObjectByName (objects s) root nm')
    by (intros; rewrite L2; apply L1').
  clear L2.
  rewrite L1' in F2.
  unfold byName at 1 in Hr. rewrite bind_gets in Hr. cbv beta in Hr.
  destruct (assign_material_cases "rim_fr" car "rim_fr" (lr_detailsMaterial rq) s2)
    as [[N E]|(r3 & s3 & F3 & E & V3 & S3 & E3 & L3)].
  { rewrite (bind_throw _ _ _ _ _ E) in Hr. left. exists "rim_fr", s2. split; [exact Hr|].
    split; [apply Hin; rewrite !elem_of_cons; auto 10|]. rewrite L2' in N. auto. }
  rewrite (bind_normal _ _ _ _ _ E) in Hr. cbv beta in Hr. clear E.
  rewrite S2 in S3. rewrite V2 in V3. rewrite E2 in E3.
  assert (L3' : forall root nm', getObjectByName (objects s3) root nm'
                                  = getObjectByName (objects s) root nm')
    by (intros; rewrite L3; apply L2').
  clear L3.
  rewrite L2' in F3.
  unfold byName at 1 in Hr. rewrite bind_gets in Hr. cbv beta in Hr.
  destruct (assign_material_cases "rim_rl" car "rim_rl" (lr_detailsMaterial rq) s3)
    as [[N E]|(r4 & s4 & F4 & E & V4 & S4 & E4 & L4)].
  { rewrite (bind_throw _ _ _ _ _ E) in Hr. left. exists "rim_rl", s3. split; [exact Hr|].
    split; [apply Hin; rewrite !elem_of_cons; auto 10|]. rewrite L3' in N. auto. }
  rewrite (bind_normal _ _ _ _ _ E) in Hr. cbv beta in Hr. clear E.
  rewrite S3 in S4. rewrite V3 in V4. rewrite E3 in E4.
  assert (L4' : forall root nm', getObjectByName (objects s4) root nm'
                                  = getObjectByName (objects s) root nm')
    by (intros; rewrite L4; apply L3').
  clear L4.
  rewrite L3' in F4.
  unfold byName at 1 in Hr. rewrite bind_gets in Hr. cbv beta in Hr.
  destruct (assign_material_cases "rim_rr" car "rim_rr" (lr_detailsMaterial rq) s4)
    as [[N E]|(r5 & s5 & F5 & E & V5 & S5 & E5 & L5)].
  { rewrite (bind_throw _ _ _ _ _ E) in Hr. left. exists "rim_rr", s4. split; [exact Hr|].
    split; [apply Hin; rewrite !elem_of_cons; auto 10|]. rewrite L4' in N. auto. }
  rewrite (bind_normal _ _ _ _ _ E) in Hr. cbv beta in Hr. clear E.
  rewrite S4 in S5. rewrite V4 in V5. rewrite E4 in E5.
  assert (L5' : forall root nm', getObjectByName (objects s5) root nm'
                                  = getObjectByName (objects s) root nm')
    by (intros; rewrite L5; apply L4').
  clear L5.
  rewrite L4' in F5.
  unfold byName at 1 in Hr. rewrite bind_gets in Hr. cbv beta in Hr.
  destruct (assign_material_cases "glass" car "glass" (lr_glassMaterial rq) s5)
    as [[N E]|(r6 & s6 & F6 & E & V6 & S6 & E6 & L6)].
  { rewrite (bind_throw _ _ _ _ _ E) in Hr. left. exists "glass", s5. split; [exact Hr|].
    split; [apply Hin; rewrite !elem_of_cons; auto 10|]. rewrite L5' in N. auto. }
  rewrite (bind_normal _ _ _ _ _ E) in Hr. cbv beta in Hr. clear E.
  rewrite S5 in S6. rewrite V5 in V6. rewrite E5 in E6.
  assert (L6' : forall root nm', getObjectByName (objects s6) root nm'
                                  = getObjectByName (objects s) root nm')
    by (intros; rewrite L6; apply L5').
  clear L6.
  rewrite L5' in F6.
  right. unfold byName in Hr. rewrite !bind_gets, bind_modify in Hr.
  match type of Hr with _ = _ ?st => exists st end.
  split.
  { intros nm Hnm. unfold material_targets in Hnm. cbn in Hnm. rewrite !elem_of_cons in Hnm.
    destruct Hnm as [->|[->|[->|[->|[->|[->|Hnm]]]]]]; eauto. inversion Hnm. }
  split; [exact V6|]. split; [exact E6|]. split; [cbn; rewrite S6; reflexivity|].
  exact Hr.
Qed.

(** X16: when the car model has no object of one of the six mesh names,
    the completion callback throws a TypeError at the first assignment
    whose mesh is missing. The meshes found before it have their new
    materials; no wheel is registered, no shadow plane is made, the car is
    not added to the scene, and nothing of the page changes. *)
Theorem missing_mesh_aborts_the_callback
    (s : State) (rq : LoadRequest) (g car : ref) (gs : Object3D) (nm : string) :
  objects s !! g = Some gs -> children gs !! 0%nat = Some car ->
  nm ∈ (fst <$> material_targets rq) ->
  getObjectByName (objects s) car nm = None ->
  exists what s',
    onLoad rq g s = (Throw (TypeError what), s') /\
    what ∈ (fst <$> material_targets rq) /\
    getObjectByName (objects s) car what = None /\
    wheels (svc s') = wheels (svc s) /\ shape_view s' = shape_view s /\ env s' = env s.
Proof.
  intros Hg Hcar Hnm Hnone.
  destruct (onLoad_cases s rq g car gs Hg Hcar)
    as [(what & s' & E & Hw & Hm & Hs & Hv & He)|(s7 & Hall & _)].
  - exists what, s'. rewrite Hs. auto 10.
  - destruct (Hall nm Hnm) as [r Hr]. congruence.
Qed.

Lemma missing_mesh_aborts_the_callback_witness :
  let s := snd (build_node None (Node "Scene" None [Node "RootNode" None
                  [mesh_node "body" 0x111111%Z; mesh_node "rim_fl" 0x444444%Z]])
                  sample_running) in
  exists what s',
    onLoad sample_request 2 s = (Throw (TypeError what), s') /\
    what ∈ (fst <$> material_targets sample_request) /\
    getObjectByName (objects s) 3 what = None /\
    wheels (svc s') = wheels (svc s) /\ shape_view s' = shape_view s /\ env s' = env s.
Proof.
  intros s.
  eapply (missing_mesh_aborts_the_callback s sample_request 2 3 _ "glass").
  - vm_compute. reflexivity.
  - vm_compute. reflexivity.
  - apply (list_elem_of_lookup_2 _ 5). reflexivity.
  - vm_compute. reflexivity.
Defined.

(** ** The scene keeps its grid and its cars *)

Lemma scene_extends_refl s : scene_extends s s.
Proof.
  split; [reflexivity|]. split; [reflexivity|].
  intros sc so _ Hso. exists so, []. rewrite app_nil_r. auto.
Qed.

Lemma scene_extends_trans s1 s2 s3 :
  scene_extends s1 s2 -> scene_extends s2 s3 -> scene_extends s1 s3.
Proof.
  intros (Hs1 & Hg1 & H1) (Hs2 & Hg2 & H2).
  split; [congruence|]. split; [congruence|].
  intros sc so Hsc Hso. destruct (H1 sc so Hsc Hso) as (so2 & x1 & Hso2 & Hc2).
  destruct (H2 sc so2 ltac:(congruence) Hso2) as (so3 & x2 & Hso3 & Hc3).
  exists so3, (x1 ++ x2). rewrite Hc3, Hc2, app_assoc. auto.
Qed.

Lemma scene_extends_graph s s' : graph_view s' = graph_view s -> scene_extends s s'.
Proof.
  intros [= Hch Hsc Hg]. split; [exact Hsc|]. split; [exact Hg|].
  intros sc so _ Hso. apply (f_equal (fun l => l !! scene_obj sc)) in Hch.
  rewrite !list_lookup_fmap, Hso in Hch. cbn in Hch.
  destruct (objects s' !! scene_obj sc) as [so'|]; [|discriminate Hch].
  injection Hch as Hc. exists so', []. rewrite app_nil_r. auto.
Qed.

Lemma grid_first_extends s s' : scene_extends s s' -> grid_first s -> grid_first s'.
Proof.
  intros (Hs & Hg & H). unfold grid_first. rewrite Hs, Hg.
  destruct (scene (svc s)) as [sc|], (grid (svc s)) as [g|]; auto.
  intros (so & rest & Hso & Hc).
  destruct (H sc so eq_refl Hso) as (so' & extra & Hso' & Hc').
  exists so', (rest ++ extra). rewrite Hc', Hc. auto.
Qed.

(** A write to a field of an object that is not its list of children. *)
Ltac graph_write :=
  first
    [ unfold same; intros; reflexivity
    | unfold same, graph_view; cbn [objects with_objects svc];
      rewrite list_fmap_insert; f_equal; f_equal; apply list_insert_id;
      rewrite list_lookup_fmap;
      match goal with H : objects _ !! _ = Some _ |- _ => rewrite H end;
      reflexivity ].

Lemma render_graph : respects (same graph_view) render.
Proof. unfold render. respects_tac; graph_write. Qed.

Lemma resize_graph : respects (same graph_view) resize.
Proof. unfold resize. respects_tac; graph_write. Qed.

Lemma animate_graph : respects (same graph_view) animate.
Proof. unfold animate. respects_tac; try graph_write; apply render_graph. Qed.

Lemma ngOnDestroy_graph : respects (same graph_view) ngOnDestroy.
Proof. unfold ngOnDestroy. respects_tac; graph_write. Qed.

Lemma call_graph v h : respects (same graph_view) (call v h).
Proof.
  destruct h as [m| |]; cbn [call];
    [destruct v; respects_tac; graph_write | apply render_graph | apply resize_graph].
Qed.

Lemma task_graph m s : respects (same graph_view) m -> graph_view (task m s) = graph_view s.
Proof.
  intros Hm. apply (respects_task (same graph_view) (same_trans graph_view) m Hm).
  intros; reflexivity.
Qed.

Lemma fold_graph {A} v (hd : A -> Handler) (L : list A) : forall s,
  graph_view (fold_left (fun s a => task (call v (hd a)) s) L s) = graph_view s.
Proof.
  induction L as [|a L IH]; intros s; cbn [fold_left]; [reflexivity|].
  rewrite IH. apply task_graph, call_graph.
Qed.

Lemma shape_graph s s' : shape_view s' = shape_view s -> svc s' = svc s ->
  graph_view s' = graph_view s.
Proof.
  intros [= Hsk _ _] Hs. unfold graph_view. rewrite Hs. f_equal. f_equal.
  apply (f_equal (fmap snd)) in Hsk. rewrite <- !list_fmap_compose in Hsk. exact Hsk.
Qed.

(** The arrival of a file: the scene gets the car at its end, or is left
    as it was when the callback throws. *)
Lemma load_scene_extends rq gltf s :
  scene_extends s (task (let* g := build_node None gltf in onLoad rq g) s).
Proof.
  destruct (build_node_family gltf None s)
    as (s1 & E & Hlen & Hpre & (gs & Hg & _ & Hkid) & K).
  set (g := length (objects s)) in *.
  assert (Hsvc1 : svc s1 = svc s).
  { pose proof (same_build_node svc gltf None (fun _ _ => eq_refl) (fun _ _ => eq_refl) s) as V.
    rewrite E in V. exact V. }
  assert (H1 : scene_extends s s1).
  { split; [rewrite Hsvc1; reflexivity|]. split; [rewrite Hsvc1; reflexivity|].
    intros sc so _ Hso. exists so, []. rewrite app_nil_r. split; [|reflexivity].
    rewrite Hpre; [exact Hso|]. eapply lookup_lt_Some, Hso. }
  assert (Htask : forall s2, scene_extends s1 s2 ->
            forall e, scene_extends s (with_env (fun b => set_uncaught (e :: uncaught b) b) s2)).
  { intros s2 H2 e. eapply scene_extends_trans; [exact H1|].
    eapply scene_extends_trans; [exact H2|]. apply scene_extends_graph. reflexivity. }
  unfold task. rewrite (bind_normal _ _ _ _ _ E).
  destruct (children gs !! 0%nat) as [car|] eqn:Hcar.
  2:{ assert (El : onLoad rq g s1 = (Throw (TypeError "carModel"), s1)).
      { unfold onLoad. unfold read_object at 1. unfold bind at 1. rewrite Hg.
        unfold bind at 1. rewrite Hcar. reflexivity. }
      rewrite El. apply Htask, scene_extends_refl. }
  destruct (onLoad_cases s1 rq g car gs Hg Hcar)
    as [(what & s2 & El & _ & _ & Hs2 & Hv2 & _)|(s7 & _ & Hv7 & _ & Hg7 & El)].
  { rewrite El. apply Htask, scene_extends_graph, shape_graph; assumption. }
  rewrite El.
  assert (Hsvc : respects (same (fun s => (scene (svc s), grid (svc s))))
                   (onLoad_shadow_and_add rq car))
    by (unfold onLoad_shadow_and_add; respects_tac; same_write).
  specialize (Hsvc s7). unfold same in Hsvc. injection Hsvc as Hsc' Hg'.
  pose proof Hv7 as [= _ _ Hsc7].
  assert (Hfin : forall s2, snd (onLoad_shadow_and_add rq car s7) = s2 ->
            (forall sc so, scene (svc s1) = Some sc -> objects s1 !! scene_obj sc = Some so ->
               exists so' extra, objects s2 !! scene_obj sc = Some so' /\
                                 children so' = children so ++ extra) ->
            scene_extends s1 s2).
  { intros s2 <- H. split; [congruence|]. split; [congruence|]. exact H. }
  assert (Hin : car ∈ children gs) by (eapply list_elem_of_lookup_2, Hcar).
  pose proof (Hkid car Hin) as Hgc.
  destruct (K g gs car ltac:(lia) Hg Hin) as (co & Hco & Hpar).
  destruct (shape_lookup s1 s7 car co Hv7 Hco) as (co7 & Hco7 & Hp7 & _).
  destruct (shape_lookup s1 s7 g gs Hv7 Hg) as (gs7 & Hgs7 & _ & _).
  destruct (scene (svc s1)) as [sc|] eqn:Hsc1.
  2:{ destruct (onLoad_shadow_and_add rq car s7) as [[[]|e] s2] eqn:Et; cbn [snd] in *.
      - eapply scene_extends_trans; [exact H1|]. apply (Hfin s2 eq_refl).
        intros sc so Hx. discriminate Hx.
      - apply Htask. apply (Hfin s2 eq_refl). intros sc so Hx. discriminate Hx. }
  destruct (objects s1 !! scene_obj sc) as [so|] eqn:Hso1.
  2:{ destruct (onLoad_shadow_and_add rq car s7) as [[[]|e] s2] eqn:Et; cbn [snd] in *.
      - eapply scene_extends_trans; [exact H1|]. apply (Hfin s2 eq_refl).
        intros sc' so' [= <-] Hx. congruence.
      - apply Htask. apply (Hfin s2 eq_refl). intros sc' so' [= <-] Hx. congruence. }
  (* the scene is an object that was there before the file was parsed *)
  destruct (decide (scene_obj sc < g)) as [Lsc|Lsc].
  2:{ (* not so in any state the program reaches: the scene would be an object of the file *)
      destruct (onLoad_shadow_and_add rq car s7) as [[[]|e] s2] eqn:Et; cbn [snd] in *.
      - split; [congruence|]. split; [congruence|].
        intros sc' so' Hsc0 Hso0. exfalso. apply Lsc. rewrite Hsvc1 in Hsc1.
        assert (sc' = sc) as -> by congruence. eapply lookup_lt_Some, Hso0.
      - split; [cbn; congruence|]. split; [cbn; congruence|].
        intros sc' so' Hsc0 Hso0. exfalso. apply Lsc. rewrite Hsvc1 in Hsc1.
        assert (sc' = sc) as -> by congruence. eapply lookup_lt_Some, Hso0. }
  destruct (shape_lookup s1 s7 (scene_obj sc) so Hv7 Hso1) as (so7 & Hso7 & _ & Hcs7).
  destruct (shadow_and_add rq car g s7 co7 gs7 sc so7 Hco7 ltac:(congruence) Hgs7
              ltac:(congruence) Hso7 ltac:(lia) ltac:(lia) ltac:(lia))
    as (s2 & E2 & L1 & _).
  cbv zeta in *. rewrite E2 in *. cbn [snd] in *.
  eapply scene_extends_trans; [exact H1|]. apply (Hfin s2 eq_refl).
  intros sc' so' [= <-] Hx. assert (so' = so) as -> by congruence.
  eexists _, [car]. split; [exact L1|]. cbn. rewrite Hcs7. reflexivity.
Qed.

Lemma step_scene_extends e s : is_init e = false -> scene_extends s (step e s).
Proof.
  intros He. destruct e as [cv| |now| |w h| |id type v|i gltf]; cbn [step];
    try discriminate He.
  - apply scene_extends_graph, task_graph, ngOnDestroy_graph.
  - destruct (clock (env s) <=? now); apply scene_extends_graph; reflexivity.
  - apply scene_extends_graph. rewrite fold_graph. reflexivity.
  - apply scene_extends_graph. unfold dispatch. rewrite fold_graph. reflexivity.
  - destruct (readyState (env s)); try apply scene_extends_refl.
    apply scene_extends_graph. unfold dispatch. rewrite fold_graph. reflexivity.
  - apply scene_extends_graph. unfold dispatch. rewrite fold_graph. reflexivity.
  - destruct (loads (env s) !! i) as [rq|]; [|apply scene_extends_refl].
    apply (scene_extends_trans _ (with_env (fun b => set_loads (remove_nth i (loads b)) b) s));
      [apply scene_extends_graph; reflexivity | apply load_scene_extends].
Qed.

Lemma ngOnInit_grid_first cv s : grid_first s -> grid_first (task (ngOnInit cv) s).
Proof.
  intros H.
  assert (Hview : forall s1 s2, graph_view s2 = graph_view s1 -> grid_first s1 -> grid_first s2).
  { intros s1 s2 V. apply grid_first_extends, scene_extends_graph, V. }
  assert (H1 : grid_first (snd (createScene cv s))).
  { destruct (inputs_present_dec s) as [Hin|(id & Hid & Hout)].
    - destruct (createScene_page cv s Hin)
        as (s1 & rd & cam & sc & so & go & E & _ & _ & Hsc & Hso & Hg & _ & _ & Hobj & Hch & _).
      rewrite E. cbn [snd]. unfold grid_first. rewrite Hsc, Hg.
      exists so, []. split; [|exact Hch].
      rewrite Hobj, Hso. apply (list_lookup_middle (objects s) [go] so). reflexivity.
    - destruct (createScene_without_input s cv id Hid Hout) as (what & s1 & E & Hs & Ho & _).
      rewrite E. cbn [snd]. unfold grid_first in *. rewrite Hs, Ho. exact H. }
  unfold task, ngOnInit, bind.
  destruct (createScene cv s) as [[[]|e] s1]; cbn [snd] in H1; [|exact H1].
  pose proof (animate_graph s1) as V. unfold same in V.
  destruct (animate s1) as [[[]|e] s2]; cbn [snd] in V;
    apply (Hview s1); auto.
Qed.

Lemma run_grid_first evs : forall s, grid_first s -> grid_first (run evs s).
Proof.
  induction evs as [|e evs IH]; intros s H; [exact H|].
  change (run (e :: evs) s) with (run evs (step e s)). apply IH.
  destruct (is_init e) eqn:He.
  - destruct e; try discriminate He. apply ngOnInit_grid_first, H.
  - exact (grid_first_extends _ _ (step_scene_extends e s He) H).
Qed.

(** X17: in every state the program reaches, the scene of the service
    lists the grid of the service first. No event but the creation of a
    component, which makes a new scene, takes a child out of the scene or
    changes the order of its children: a load whose callback completes adds
    the car after them, and everything else leaves them as they are. *)
Theorem scene_keeps_grid_and_cars (page : Browser) (evs : list Event) (e : Event) :
  let s := run evs (boot page) in
  grid_first s /\ (is_init e = false -> scene_extends s (step e s)).
Proof.
  intros s. split.
  - apply run_grid_first. exact I.
  - apply step_scene_extends.
Qed.

(** ** The errors a task can end with *)

Lemma sizes_grow_refl s : sizes_grow s s.
Proof. split; lia. Qed.

Lemma sizes_grow_trans s1 s2 s3 : sizes_grow s1 s2 -> sizes_grow s2 s3 -> sizes_grow s1 s3.
Proof. intros [] []. split; lia. Qed.

#[local] Hint Resolve sizes_grow_refl sizes_grow_trans : respects.

Ltac sizes_write :=
  unfold sizes_grow; intros; cbn; rewrite ?length_app, ?length_insert; cbn; lia.

Ltac refs_write :=
  unfold same, refs_view; intros; cbn; rewrite ?length_insert; reflexivity.

Lemma render_refs : respects (same refs_view) render.
Proof. unfold render. respects_tac; refs_write. Qed.

Lemma ngOnDestroy_refs : respects (same refs_view) ngOnDestroy.
Proof. unfold ngOnDestroy. respects_tac; refs_write. Qed.

Lemma color_refs v m : respects (same refs_view) (call v (SetMaterialColor m)).
Proof. cbn [call]. destruct v; respects_tac; refs_write. Qed.

Lemma onLoad_sizes rq g : respects sizes_grow (onLoad rq g).
Proof. unfold onLoad. respects_tac; sizes_write. Qed.

Lemma build_node_sizes n par : respects sizes_grow (build_node par n).
Proof.
  apply respects_build_node;
    [apply sizes_grow_refl | apply sizes_grow_trans | sizes_write | sizes_write | sizes_write].
Qed.

Lemma onLoad_same_service rq g :
  respects (same (fun s => (scene (svc s), grid (svc s), camera (svc s), renderer (svc s),
                            listeners (env s), raf_queue (env s))))
    (onLoad rq g).
Proof. unfold onLoad. respects_tac; same_write. Qed.

(** The references that were sound are sound in a larger heap. *)
Lemma wheels_ok_grow s s' ws :
  length (objects s) <= length (objects s') ->
  Forall (wheel_ok s) ws -> Forall (wheel_ok s') ws.
Proof.
  intros L F. eapply Forall_impl; [exact F|]. intros [r|]; cbn; [lia | trivial].
Qed.

Lemma set_up_grow s s' :
  sizes_grow s s' ->
  (scene (svc s'), grid (svc s')) = (scene (svc s), grid (svc s)) ->
  (is_Some (renderer (svc s)) -> is_Some (renderer (svc s'))) ->
  (is_Some (camera (svc s)) -> is_Some (camera (svc s'))) ->
  set_up s -> set_up s'.
Proof.
  intros [L _] [= Hsc Hg] Hr Hc (R & C & (sc & Esc & Lsc) & (g & Eg & Lg)).
  split; [auto|]. split; [auto|]. split.
  - exists sc. split; [congruence | lia].
  - exists g. split; [congruence | lia].
Qed.

Lemma refs_ok_view s s' :
  refs_view s' = refs_view s ->
  (is_Some (renderer (svc s)) -> is_Some (renderer (svc s'))) ->
  (is_Some (camera (svc s)) -> is_Some (camera (svc s'))) ->
  set_up s \/ (raf_queue (env s) = [] -> raf_queue (env s') = []) ->
  refs_ok s -> refs_ok s' /\ (set_up s -> set_up s').
Proof.
  intros [= Ho Hm Hw Hsc Hg Hl Hld Hu] Hr Hc Hq (W & H & D).
  assert (G : sizes_grow s s') by (split; lia).
  assert (U : set_up s -> set_up s')
    by (apply set_up_grow; auto; congruence).
  split; [|exact U]. split; [|split].
  - rewrite Hw. eapply wheels_ok_grow; [|exact W]. lia.
  - eapply handlers_keep; [exact H | exact Hl | lia].
  - destruct D as [D|(Q & Ld & F)]; [left; auto|].
    destruct Hq as [D|Hq]; [left; auto|].
    right. split; [auto|]. split; [congruence|]. rewrite Hl. exact F.
Qed.

Lemma fine_view {A} s (r : Completion A * State) :
  refs_view (snd r) = refs_view s ->
  window_view (snd r) = window_view s ->
  set_up s \/ (raf_queue (env s) = [] -> raf_queue (env (snd r)) = []) ->
  (forall e, fst r = Throw e -> known_error e) ->
  refs_ok s -> fine s r.
Proof.
  intros V W Q E H. pose proof W as [= Hc Hr _ _].
  destruct (refs_ok_view s (snd r) V) as [H1 H2]; auto; try (rewrite ?Hc, ?Hr; auto; fail).
  pose proof V as [= Ho Hm _ _ _ _ _ Hu].
  split; [exact H1|]. split; [split; lia|]. split; [exact Hu|]. split; [exact H2|].
  destruct (fst r) as [a|e] eqn:Ef; [trivial | apply E; reflexivity].
Qed.

Lemma fine_bind {A B} (m : M State A) (k : A -> M State B) s :
  fine s (m s) ->
  (forall a s1, m s = (Normal a, s1) -> refs_ok s1 -> (set_up s -> set_up s1) ->
                fine s1 (k a s1)) ->
  fine s (bind m k s).
Proof.
  intros Hm Hk. unfold bind. destruct (m s) as [[a|e] s1] eqn:E; [|exact Hm].
  destruct Hm as (R1 & G1 & U1 & S1 & _). cbn [snd fst] in *.
  destruct (Hk a s1 eq_refl R1 S1) as (R2 & G2 & U2 & S2 & E2).
  split; [exact R2|]. split; [eapply sizes_grow_trans; eauto|].
  split; [congruence|]. split; [auto|exact E2].
Qed.

(** A task that ends with a known error leaves a sound state. *)
Lemma task_fine m s :
  sound s -> fine s (m s) ->
  sound (task m s) /\ sizes_grow s (task m s) /\ (set_up s -> set_up (task m s)).
Proof.
  intros [_ K] (R & G & U & S & E). unfold task.
  destruct (m s) as [[[]|e] s1]; cbn [fst snd] in *.
  - split; [split; [exact R | rewrite U; exact K]|]. auto.
  - split; [split|split].
    + exact R.
    + cbn. constructor; [exact E | rewrite U; exact K].
    + exact G.
    + exact S.
Qed.

Lemma wheel_in_bounds s r : r < length (objects s) -> exists o, objects s !! r = Some o.
Proof. intros L. apply lookup_lt_is_Some in L. exact L. Qed.

(** The loop over the wheels can only stop at an entry that is
    [undefined]. *)
Lemma rotate_wheels_error x ws : forall s e s',
  Forall (wheel_ok s) ws ->
  for_each (rotate_wheel x) ws s = (Throw e, s') -> e = TypeError "this.wheels[i]".
Proof.
  induction ws as [|w ws IH]; intros s e s' F E; [discriminate E|].
  apply Forall_cons in F as [Hw F]. cbn [for_each] in E.
  destruct w as [r|].
  - destruct (wheel_in_bounds s r Hw) as (o & Ho).
    destruct (update_object_cases r (set_rotation_x x) s) as [(o' & Ho' & Eu)|[Hn _]];
      [|congruence].
    change (rotate_wheel x (Some r)) with (update_object r (set_rotation_x x)) in E.
    rewrite (bind_normal _ _ _ _ _ Eu) in E.
    eapply IH; [|exact E].
    eapply wheels_ok_grow; [|exact F]. cbn. rewrite length_insert. lia.
  - unfold rotate_wheel in E. cbn in E. congruence.
Qed.

Lemma set_up_can_draw s : set_up s -> can_draw s.
Proof.
  intros (R & C & (sc & Esc & Lsc) & _). split; [exact R|]. split; [exact C|].
  exists sc. split; [exact Esc|]. apply lookup_lt_is_Some, Lsc.
Qed.

(** When the service is set up, [render] can only stop at a wheel that is
    [undefined]. *)
Lemma render_error s e s' :
  Forall (wheel_ok s) (wheels (svc s)) -> set_up s ->
  render s = (Throw e, s') -> e = TypeError "this.wheels[i]".
Proof.
  intros W U E.
  pose proof (set_up_can_draw s U) as D.
  pose proof (eq_refl (render s)) as Hr. unfold render at 2 in Hr.
  rewrite bind_modify in Hr. unfold the_env at 1 in Hr. rewrite bind_gets in Hr.
  cbv zeta in Hr. unfold the_svc at 1 in Hr. rewrite bind_gets in Hr.
  match type of Hr with context [bind (for_each (rotate_wheel ?x) ?ws) _ ?st] =>
    destruct (rotate_wheels_cases x ws st) as [(F & _)|(_ & e1 & s1 & E1 & _)]
  end.
  - assert (R : can_rotate s).
    { split; [exact F|]. destruct U as (_ & _ & _ & (g & Eg & Lg)).
      exists g. split; [exact Eg|]. apply lookup_lt_is_Some, Lg. }
    destruct (render_cases s) as [(_ & _ & s2 & sc & so & cam & E2 & _)
                                 |[(_ & N & _)|(N & _)]]; [congruence | tauto | tauto].
  - rewrite (bind_throw _ _ _ _ _ E1) in Hr.
    assert (e = e1) as -> by congruence.
    eapply rotate_wheels_error; [|exact E1]. exact W.
Qed.

Lemma known_wheel : known_error (TypeError "this.wheels[i]").
Proof. eexists. split; [reflexivity|]. unfold known_errors. repeat constructor. Qed.

Lemma render_fine s : refs_ok s -> set_up s -> fine s (render s).
Proof.
  intros H U. apply fine_view; auto.
  - apply render_refs.
  - apply render_window.
  - intros e E. destruct (render s) as [c s'] eqn:Er. cbn in E. subst c.
    rewrite (render_error s e s' (proj1 H) U Er). apply known_wheel.
Qed.

Lemma ngOnDestroy_fine s : refs_ok s -> fine s (ngOnDestroy s).
Proof.
  intros H. apply fine_view; auto.
  - apply ngOnDestroy_refs.
  - apply ngOnDestroy_window.
  - right. intros Q. unfold ngOnDestroy, the_svc. rewrite bind_gets.
    destruct (frameId (svc s)); cbn; rewrite ?Q; reflexivity.
  - intros e. unfold ngOnDestroy, the_svc. rewrite bind_gets.
    destruct (frameId (svc s)); cbn; discriminate.
Qed.

Lemma color_fine v m s :
  (forall c, v = Some c -> m < length (materials s)) ->
  refs_ok s -> fine s (call v (SetMaterialColor m) s).
Proof.
  intros Hm H. apply fine_view; auto.
  - apply color_refs.
  - apply call_window. discriminate.
  - right. intros Q.
    pose proof (call_quiet v (SetMaterialColor m) ltac:(discriminate) s) as V.
    unfold same, quiet_view, loop_view in V.
    apply (f_equal (fun q => fst (fst (fst (fst (fst (fst (fst q)))))))) in V.
    cbn [fst] in V. rewrite V. exact Q.
  - intros e. cbn [call]. destruct v as [c|]; [|discriminate].
    specialize (Hm c eq_refl). apply lookup_lt_is_Some in Hm as [x Hx].
    unfold update_material. rewrite Hx. discriminate.
Qed.

Lemma resize_fine s : refs_ok s -> set_up s -> fine s (resize s).
Proof.
  intros H U. pose proof U as ([rd Hr] & [cam Hc] & _).
  assert (E : exists cam' rd',
            resize s = (Normal tt, with_svc (set_renderer (Some rd'))
                                     (with_svc (set_camera (Some cam')) s))).
  { unfold resize, the_env, the_svc. rewrite !bind_gets, Hc. cbn [deref].
    rewrite bind_ret, bind_modify, bind_gets. cbn. rewrite Hr. cbn.
    eexists _, _. reflexivity. }
  destruct E as (cam' & rd' & E). rewrite E.
  destruct H as (W & Hh & D).
  assert (U' : set_up (with_svc (set_renderer (Some rd')) (with_svc (set_camera (Some cam')) s))).
  { destruct U as (_ & _ & S1 & S2). split; [cbn; eauto|]. split; [cbn; eauto|].
    split; [exact S1 | exact S2]. }
  split; [|split; [split; cbn; lia|split; [reflexivity|split; [auto|exact I]]]].
  split; [exact W|]. split; [exact Hh|]. left. exact U'.
Qed.

(** The call of a closure: any of them once the service is set up, a
    colour listener whose material exists before that. *)
Lemma call_fine v h s :
  refs_ok s ->
  set_up s \/ (exists m, h = SetMaterialColor m) ->
  (forall m c, h = SetMaterialColor m -> v = Some c -> m < length (materials s)) ->
  fine s (call v h s).
Proof.
  intros H U Hm. destruct h as [m| |].
  - apply color_fine; eauto.
  - destruct U as [U|[m Em]]; [|discriminate]. apply render_fine; auto.
  - destruct U as [U|[m Em]]; [|discriminate]. apply resize_fine; auto.
Qed.

Ltac known := eexists; split; [reflexivity | unfold known_errors; repeat constructor].

(** When [createScene] throws, it is for a colour input that is missing;
    the listeners it added before are listeners of materials it made. *)
Lemma createScene_throws cv s e s' :
  createScene cv s = (Throw e, s') ->
  known_error e /\ svc s' = svc s /\ objects s' = objects s /\
  length (materials s) <= length (materials s') /\
  (exists new, listeners (env s') = listeners (env s) ++ new /\
     Forall (fun l => exists m, l_handler l = SetMaterialColor m /\
                                m < length (materials s')) new) /\
  (loads (env s'), raf_queue (env s'), uncaught (env s'))
  = (loads (env s), raf_queue (env s), uncaught (env s)).
Proof.
  destruct (inputs_present_dec s) as [P|(id & Hin & Hout)].
  { destruct (createScene_normal cv s P) as (s1 & ? & ? & ? & ? & ? & ? & ? & ? & E & _).
    intros E'. congruence. }
  assert (Hcase : "body-color" ∉ dom (env s) \/
                  "details-color" ∉ dom (env s) \/
                  "glass-color" ∉ dom (env s)).
  { unfold color_inputs in Hin.
    rewrite !elem_of_cons in Hin.
    destruct Hin as [->|[->|[->|Hin]]]; auto. inversion Hin. }
  clear id Hin Hout.
  destruct s as [sv h ms [d rs w hh dpr t ls q n lds dr un] k].
  cbn [env dom] in Hcase.
  unfold createScene, alloc_material, getElementById, listen, addEventListener,
    the_svc, the_env, gets, modify, bind, deref, ret, throw.
  cbn.
  destruct (bool_decide ("body-color" ∈ d)) eqn:Eb.
  2:{ intros [= <- <-]. cbn. split; [known|]. repeat split; try reflexivity.
      - rewrite !length_app. cbn. lia.
      - exists []. rewrite app_nil_r. split; [reflexivity | constructor]. }
  cbn. destruct (bool_decide ("details-color" ∈ d)) eqn:Ed.
  2:{ intros [= <- <-]. cbn. split; [known|]. repeat split; try reflexivity.
      - rewrite !length_app. cbn. lia.
      - eexists [_]. split; [reflexivity|].
        repeat constructor. eexists. split; [reflexivity|]. rewrite !length_app. cbn. lia. }
  cbn. destruct (bool_decide ("glass-color" ∈ d)) eqn:Eg.
  2:{ intros [= <- <-]. cbn. split; [known|]. repeat split; try reflexivity.
      - rewrite !length_app. cbn. lia.
      - eexists [_; _]. rewrite <- app_assoc. split; [reflexivity|].
        repeat constructor; (eexists; split; [reflexivity|]; rewrite !length_app; cbn; lia). }
  apply bool_decide_eq_true in Eb, Ed, Eg. tauto.
Qed.

Lemma createScene_sets_up cv s s1 :
  createScene cv s = (Normal tt, s1) -> set_up s1.
Proof.
  intros E. destruct (inputs_present_dec s) as [P|(id & Hin & Hout)].
  2:{ destruct (createScene_without_input s cv id Hin Hout) as (what & s2 & E2 & _).
      congruence. }
  destruct (createScene_normal cv s P)
    as (s' & rd & cam & sc & so & go & m1 & m2 & m3 & E' & Hsvc & Hso & _ & Hobj & _).
  assert (s' = s1) as -> by congruence.
  unfold set_up. rewrite Hsvc, Hobj, length_app. cbn [renderer camera scene grid length].
  split; [eauto|]. split; [eauto|]. split.
  - exists sc. split; [reflexivity | lia].
  - eexists. split; [reflexivity | lia].
Qed.

Lemma createScene_fine cv s : refs_ok s -> fine s (createScene cv s).
Proof.
  intros (W & H & D). destruct (createScene cv s) as [[[]|e] s1] eqn:E.
  - pose proof (createScene_sets_up cv s s1 E) as U.
    destruct (inputs_present_dec s) as [P|(id & Hin & Hout)].
    2:{ destruct (createScene_without_input s cv id Hin Hout) as (what & s2 & E2 & _).
        congruence. }
    destruct (createScene_normal cv s P)
      as (s' & rd & cam & sc & so & go & m1 & m2 & m3 & E' & Hsvc & Hso & _ & Hobj & _
          & _ & Hmat & Henv & _).
    assert (s' = s1) as -> by congruence. unfold fine. cbn [fst snd].
    assert (G : sizes_grow s s1)
      by (split; rewrite ?Hobj, ?Hmat, length_app; lia).
    split; [|split; [exact G|split; [rewrite Henv; reflexivity|split; [auto|exact I]]]].
    split; [|split; [|left; exact U]].
    + rewrite Hsvc. cbn [wheels]. eapply wheels_ok_grow; [apply G | exact W].
    + unfold handlers_ok. rewrite Henv, Hmat, length_app.
      cbn [listeners set_loads set_listeners length].
      apply Forall_app. split.
      * eapply Forall_impl; [exact H|]. intros l Hl m Hm. specialize (Hl m Hm). lia.
      * repeat (apply Forall_cons; split); try (apply Forall_nil; trivial);
          intros m [= <-]; lia.
  - destruct (createScene_throws cv s e s1 E)
      as (K & Hsvc & Hobj & Hmat & (new & Hl & Hnew) & [= Hld Hq Hu]).
    unfold fine. cbn [fst snd].
    assert (U : set_up s -> set_up s1).
    { apply set_up_grow; [split; rewrite ?Hobj; lia | rewrite Hsvc; reflexivity
                         | rewrite Hsvc; auto | rewrite Hsvc; auto]. }
    split; [|split; [split; rewrite ?Hobj; lia|split; [exact Hu|split; [exact U|exact K]]]].
    split; [|split].
    + rewrite Hsvc. eapply wheels_ok_grow; [|exact W]. rewrite Hobj. lia.
    + unfold handlers_ok. rewrite Hl. apply Forall_app. split.
      * eapply Forall_impl; [exact H|]. intros l Hx m Hm. specialize (Hx m Hm). lia.
      * eapply Forall_impl; [exact Hnew|]. intros l (m & Em & Lm) m' Em'.
        assert (m' = m) as -> by congruence. exact Lm.
    + destruct D as [D|(Q & Ld & F)]; [left; auto|].
      right. split; [congruence|]. split; [congruence|]. rewrite Hl.
      apply Forall_app. split; [exact F|].
      eapply Forall_impl; [exact Hnew|]. intros l (m & Em & _). eauto.
Qed.

(** A listener that is not a colour listener, added once the service is
    set up. *)
Lemma addEventListener_fine t type h s :
  (forall m, h <> SetMaterialColor m) ->
  refs_ok s -> set_up s -> fine s (addEventListener t type h s).
Proof.
  intros Hh (W & H & _) U. unfold addEventListener, modify, fine. cbn [fst snd].
  assert (U' : set_up (with_env (fun b => set_listeners (listeners b ++ [mkListener t type h]) b) s))
    by exact U.
  split; [|split; [split; cbn; lia|split; [reflexivity|split; [auto|exact I]]]].
  split; [exact W|]. split; [|left; exact U'].
  unfold handlers_ok. cbn. apply Forall_app. split; [exact H|].
  constructor; [|constructor]. cbn. intros m Hm. destruct (Hh m Hm).
Qed.

Lemma animate_fine s : refs_ok s -> set_up s -> fine s (animate s).
Proof.
  intros H U. unfold animate, the_env. rewrite bind_gets.
  apply fine_bind.
  - destruct (readyState (env s)); try (apply render_fine; assumption).
    apply addEventListener_fine; auto; discriminate.
  - intros a s1 _ H1 U1. apply addEventListener_fine; auto; discriminate.
Qed.

Lemma ngOnInit_fine cv s : refs_ok s -> fine s (ngOnInit cv s).
Proof.
  intros H. unfold ngOnInit. apply fine_bind.
  - apply createScene_fine, H.
  - intros [] s1 E H1 _. apply animate_fine; [exact H1|].
    eapply createScene_sets_up, E.
Qed.

Lemma target_known rq what :
  what ∈ (fst <$> material_targets rq) -> known_error (TypeError what).
Proof.
  unfold material_targets. cbn. rewrite !elem_of_cons, elem_of_nil.
  intros [->|[->|[->|[->|[->|[->|[]]]]]]]; known.
Qed.

(** The completion callback, once the service is set up: it can only stop
    at the car or at a mesh the file does not have. *)
Lemma load_fine rq gltf s :
  refs_ok s -> set_up s ->
  fine s ((let* g := build_node None gltf in onLoad rq g) s).
Proof.
  intros (W & H & D) U.
  destruct (build_node_family gltf None s)
    as (s1 & E & Hlen & Hpre & (gs & Hg & _ & Hkid) & K).
  set (g := length (objects s)) in *.
  assert (Hsvc1 : svc s1 = svc s).
  { pose proof (same_build_node svc gltf None (fun _ _ => eq_refl) (fun _ _ => eq_refl) s) as V.
    rewrite E in V. exact V. }
  assert (Henv1 : env s1 = env s).
  { pose proof (same_build_node env gltf None (fun _ _ => eq_refl) (fun _ _ => eq_refl) s) as V.
    rewrite E in V. exact V. }
  assert (G1 : sizes_grow s s1).
  { pose proof (build_node_sizes gltf None s) as V. rewrite E in V. exact V. }
  rewrite (bind_normal _ _ _ _ _ E).
  assert (Fin : forall c s2, onLoad rq g s1 = (c, s2) ->
            Forall (wheel_ok s2) (wheels (svc s2)) ->
            match c with Throw e => known_error e | Normal _ => True end ->
            fine s (c, s2)).
  { intros c s2 EL Wk Ek.
    pose proof (onLoad_same_service rq g s1) as V. rewrite EL in V.
    unfold same in V. cbn [snd] in V. injection V as Vsc Vg Vc Vr Vl Vq.
    pose proof (onLoad_same_loads rq g s1) as L. rewrite EL in L.
    unfold same in L. cbn [snd] in L. injection L as Ld Lu.
    pose proof (onLoad_sizes rq g s1) as G2. rewrite EL in G2. cbn [snd] in G2.
    assert (G : sizes_grow s s2) by (eapply sizes_grow_trans; eauto).
    assert (U2 : set_up s2).
    { eapply set_up_grow; [exact G | | | | exact U]; rewrite ?Vsc, ?Vg, ?Vr, ?Vc, ?Hsvc1; auto. }
    unfold fine. cbn [fst snd].
    split; [|split; [exact G|split; [congruence|split; [auto|exact Ek]]]].
    split; [exact Wk|]. split; [|left; exact U2].
    eapply handlers_keep; [exact H | congruence | apply G]. }
  assert (W1 : Forall (wheel_ok s1) (wheels (svc s1))).
  { rewrite Hsvc1. eapply wheels_ok_grow; [apply G1 | exact W]. }
  assert (Keep : forall s2, sizes_grow s1 s2 -> wheels (svc s2) = wheels (svc s1) ->
            Forall (wheel_ok s2) (wheels (svc s2))).
  { intros s2 G2 ->. eapply wheels_ok_grow; [apply G2 | exact W1]. }
  destruct (onLoad rq g s1) as [[[]|e] s2] eqn:EL.
  - apply Fin; [reflexivity | | exact I].
    destruct (onLoad_normal s1 s2 rq g EL) as (gs' & car & rs & _ & _ & Hw & _).
    pose proof (onLoad_sizes rq g s1) as G2. rewrite EL in G2. cbn [snd] in G2.
    rewrite Hw. apply Forall_app. split; [eapply wheels_ok_grow; [apply G2 | exact W1]|].
    apply Forall_fmap, Forall_forall. intros nm _. cbn.
    destruct (getObjectByName (objects s1) car nm) as [r|] eqn:Er; cbn; [|trivial].
    apply getObjectByName_name in Er as (o & Ho & _).
    apply lookup_lt_Some in Ho. destruct G2. lia.
  - assert (X : known_error e /\ wheels (svc s2) = wheels (svc s1)).
    { destruct (children gs !! 0%nat) as [car|] eqn:Hcar.
      2:{ assert (El : onLoad rq g s1 = (Throw (TypeError "carModel"), s1)).
          { unfold onLoad. unfold read_object at 1. unfold bind at 1. rewrite Hg.
            unfold bind at 1. rewrite Hcar. reflexivity. }
          rewrite El in EL. injection EL as <- <-. split; [known | reflexivity]. }
      destruct (onLoad_cases s1 rq g car gs Hg Hcar)
        as [(what & s' & El & Hin & _ & Hs' & _)|(s7 & _ & Hv7 & _ & _ & El)].
      { rewrite El in EL. injection EL as <- <-.
        split; [eapply target_known, Hin | rewrite Hs'; reflexivity]. }
      exfalso.
      assert (Hin : car ∈ children gs) by (eapply list_elem_of_lookup_2, Hcar).
      pose proof (Hkid car Hin) as Hgc.
      destruct (K g gs car ltac:(lia) Hg Hin) as (co & Hco & Hpar).
      destruct U as (_ & _ & (sc & Hsc & Lsc) & _). fold g in Lsc.
      destruct (wheel_in_bounds s (scene_obj sc) Lsc) as (so & Hso).
      assert (Hso1 : objects s1 !! scene_obj sc = Some so)
        by (rewrite Hpre by exact Lsc; exact Hso).
      destruct (shape_lookup s1 s7 car co Hv7 Hco) as (co7 & Hco7 & Hp7 & _).
      destruct (shape_lookup s1 s7 g gs Hv7 Hg) as (gs7 & Hgs7 & _ & _).
      destruct (shape_lookup s1 s7 (scene_obj sc) so Hv7 Hso1) as (so7 & Hso7 & _ & _).
      pose proof Hv7 as [= _ _ Hsc7].
      destruct (shadow_and_add rq car g s7 co7 gs7 sc so7 Hco7 ltac:(congruence) Hgs7
                  ltac:(rewrite Hsc7, Hsvc1; exact Hsc) Hso7
                  ltac:(lia) ltac:(lia) ltac:(lia))
        as (s2' & E2 & _).
      congruence. }
    destruct X as [Ke Hw].
    apply Fin; [reflexivity | | exact Ke].
    apply Keep; [|exact Hw].
    pose proof (onLoad_sizes rq g s1) as G2. rewrite EL in G2. exact G2.
Qed.

Lemma fold_fine {A} (hd : A -> Handler) v (L : list A) : forall s,
  sound s ->
  set_up s \/ Forall (fun a => exists m, hd a = SetMaterialColor m) L ->
  Forall (fun a => forall m c, hd a = SetMaterialColor m -> v = Some c ->
                               m < length (materials s)) L ->
  sound (fold_left (fun s a => task (call v (hd a)) s) L s).
Proof.
  induction L as [|a L IH]; intros s Hs U F; [exact Hs|].
  apply Forall_cons in F as [Fa F]. cbn [fold_left].
  destruct (task_fine (call v (hd a)) s Hs) as (Hs1 & G & U1).
  { apply call_fine; [apply Hs | | exact Fa].
    destruct U as [U|U]; [left; exact U|]. right. apply Forall_cons in U as [Ua _]. exact Ua. }
  apply IH; [exact Hs1 | |].
  - destruct U as [U|U]; [left; auto|]. right. apply Forall_cons in U as [_ U]. exact U.
  - eapply Forall_impl; [exact F|]. intros b Hb m c Hm Hv.
    specialize (Hb m c Hm Hv). destruct G. lia.
Qed.

Lemma dispatch_sound t type v s : sound s -> sound (dispatch t type v s).
Proof.
  intros Hs. unfold dispatch. apply fold_fine; [exact Hs | |].
  - destruct Hs as [(_ & _ & [U|(_ & _ & F)]) _]; [left; exact U|]. right.
    apply Forall_forall. intros l Hl. apply list_elem_of_In, filter_In in Hl as [Hl _].
    rewrite Forall_forall in F. apply F, list_elem_of_In, Hl.
  - destruct Hs as [(_ & H & _) _].
    apply Forall_forall. intros l Hl m c Hm _.
    apply list_elem_of_In, filter_In in Hl as [Hl _].
    unfold handlers_ok in H. rewrite Forall_forall in H.
    apply (H l); [apply list_elem_of_In, Hl | exact Hm].
Qed.

Lemma step_sound e s : sound s -> sound (step e s).
Proof.
  intros Hs. destruct e as [cv| |now| |w h| |id type v|i gltf]; cbn [step].
  - apply task_fine; [exact Hs | apply ngOnInit_fine, Hs].
  - apply task_fine; [exact Hs | apply ngOnDestroy_fine, Hs].
  - destruct (clock (env s) <=? now)%float; exact Hs.
  - apply fold_fine.
    + destruct Hs as [(W & H & [U|(Q & Ld & F)]) K].
      * split; [|exact K]. split; [exact W|]. split; [exact H|]. left. exact U.
      * split; [|exact K]. split; [exact W|]. split; [exact H|]. right.
        split; [reflexivity|]. split; [exact Ld | exact F].
    + destruct Hs as [(_ & _ & [U|(Q & _)]) _]; [left; exact U|].
      right. rewrite Q. constructor.
    + apply Forall_forall. intros c _ m x _ Hx. discriminate Hx.
  - apply dispatch_sound. exact Hs.
  - destruct (readyState (env s)); try exact Hs. apply dispatch_sound. exact Hs.
  - apply dispatch_sound. exact Hs.
  - destruct (loads (env s) !! i) as [rq|] eqn:El; [|exact Hs].
    assert (U : set_up s).
    { destruct Hs as [(_ & _ & [U|(_ & Ld & _)]) _]; [exact U|].
      rewrite Ld in El. discriminate El. }
    apply task_fine.
    + destruct Hs as [(W & H & _) K].
      split; [|exact K]. split; [exact W|]. split; [exact H|]. left. exact U.
    + apply load_fine; [|exact U].
      destruct Hs as [(W & H & _) _]. split; [exact W|]. split; [exact H|]. left. exact U.
Qed.

Lemma run_sound evs : forall s, sound s -> sound (run evs s).
Proof.
  induction evs as [|e evs IH]; intros s Hs; [exact Hs|].
  cbn [run fold_left]. apply IH, step_sound, Hs.
Qed.

Lemma boot_sound ids rs w h dpr now : sound (boot (new_page ids rs w h dpr now)).
Proof.
  split; [|constructor]. split; [constructor|]. split; [constructor|].
  right. split; [reflexivity|]. split; [reflexivity | constructor].
Qed.

(** X19: whatever happens to a page that was just opened, every error that
    a task of the program ends with is a TypeError for reading a property
    of one of eleven values that were null or undefined: a colour input
    that is not in the document ([createScene]), the first child of the
    scene of the file or one of the six meshes of the car (the completion
    callback), an entry of the wheel list ([render]).  In particular
    [render] and [resize] never find the renderer, the camera, the scene
    or the grid missing. *)
Theorem uncaught_errors_are_known
    (ids : list string) (rs : ReadyState) (w h dpr now : float) (evs : list Event)
    (e : JsError) :
  let s := run evs (boot (new_page ids rs w h dpr now)) in
  e ∈ uncaught (env s) ->
  exists what, e = TypeError what /\ what ∈ known_errors.
Proof.
  intros s He.
  destruct (run_sound evs _ (boot_sound ids rs w h dpr now)) as [_ K].
  rewrite Forall_forall in K. apply K, He.
Qed.

Lemma uncaught_errors_are_known_witness :
  let s := run [ComponentInit sample_canvas; GltfLoaded 0 ferrari_three_wheels; AnimationFrame]
             (boot sample_page) in
  TypeError "this.wheels[i]" ∈ uncaught (env s) /\
  exists what, TypeError "this.wheels[i]" = TypeError what /\ what ∈ known_errors.
Proof.
  intros s.
  assert (H : TypeError "this.wheels[i]" ∈ uncaught (env s)) by (vm_compute; constructor).
  split; [exact H|].
  exact (uncaught_errors_are_known
           ["rendererCanvas"; "body-color"; "details-color"; "glass-color"]
           Complete 800 600 1 0
           [ComponentInit sample_canvas; GltfLoaded 0 ferrari_three_wheels; AnimationFrame]
           (TypeError "this.wheels[i]") H).
Defined.
